(** * Locomotion robots of pybulletgym: [envs/robots/robot_locomotors.py]

  A shallow embedding of the robot classes ([WalkerBase], [Hopper],
  [Walker2D], [HalfCheetah], [Ant], [Humanoid], [HumanoidFlagrun],
  [HumanoidFlagrunHarder], [Atlas]) and the properties their description
  states about them.

  Numbers.  Python floats are modelled by exact rationals ([Q]); results
  are stated up to [Qeq] ([==]).  Rounding is modelled where an outcome
  hangs on it: the count of joints at their limit compares entries of a
  [float32] array with 0.99, so these are narrowed with [Np.float32], and
  the torque of [Humanoid.apply_action] is a product of doubles of any
  size, so it is taken with [Np.mul] and may overflow.  (In
  [WalkerBase.apply_action] the action is clipped to [[-1, 1]] first; the
  product with the power and the coefficient of the joint is taken
  exactly.)  Action vectors are arrays of doubles; they and the torques
  range over [npfloat], rationals extended with the two infinities and
  NaN.

  Objects.  A Python instance is a record; an attribute that is created
  after construction is an [attr], unbound until first assigned, and
  reading it unbound raises [AttributeError].  Methods that mutate [self]
  are functions [Robot -> result (A * Robot)].  The joints live in one
  store ([ordered_joints]); [jdict] and [motors] are views of that store
  by joint name, so an update made through one view is seen through the
  others, as with the shared Python objects. *)

From Stdlib Require Import QArith Qpower Qround Qminmax Qabs Lqa Lia List String
  ZArith Bool.
Import ListNotations.

Local Open Scope Q_scope.

(* ================================================================== *)
(** ** Python: exceptions, results, attributes *)
(* ================================================================== *)

Module Py.

Inductive exn : Type :=
| AssertionError
| IndexError
| KeyError
| AttributeError
| TypeError.

Inductive result (A : Type) : Type :=
| Ok (a : A)
| Raise (e : exn).
Arguments Ok {A} a.
Arguments Raise {A} e.

Definition bind {A B : Type} (c : result A) (k : A -> result B) : result B :=
  match c with
  | Ok a => k a
  | Raise e => Raise e
  end.

(** An instance attribute: [Unbound] until the first assignment. *)
Inductive attr (A : Type) : Type :=
| Unbound
| Bound (a : A).
Arguments Unbound {A}.
Arguments Bound {A} a.

Definition getattr {A : Type} (x : attr A) : result A :=
  match x with
  | Bound a => Ok a
  | Unbound => Raise AttributeError
  end.

(** [l[n]] for [0 <= n]. *)
Definition index {A : Type} (l : list A) (n : nat) : result A :=
  match nth_error l n with
  | Some a => Ok a
  | None => Raise IndexError
  end.

(** [l[start::2]]. *)
Fixpoint every_other {A : Type} (l : list A) : list A :=
  match l with
  | [] => []
  | x :: [] => [x]
  | x :: _ :: l' => x :: every_other l'
  end.

Definition slice_0_2 {A : Type} (l : list A) : list A := every_other l.
Definition slice_1_2 {A : Type} (l : list A) : list A := every_other (tl l).

(** [l[start::3]]. *)
Fixpoint every_third {A : Type} (l : list A) : list A :=
  match l with
  | x :: _ :: _ :: l' => x :: every_third l'
  | x :: _ => [x]
  | [] => []
  end.

Definition slice_0_3 {A : Type} (l : list A) : list A := every_third l.
Definition slice_1_3 {A : Type} (l : list A) : list A := every_third (tl l).

(** A dict with string keys, in insertion order. *)
Definition dict (A : Type) : Type := list (string * A).

Fixpoint lookup {A : Type} (d : dict A) (k : string) : option A :=
  match d with
  | [] => None
  | (k', a) :: d' => if String.eqb k' k then Some a else lookup d' k
  end.

Definition getitem {A : Type} (d : dict A) (k : string) : result A :=
  match lookup d k with
  | Some a => Ok a
  | None => Raise KeyError
  end.

Definition values {A : Type} (d : dict A) : list A := map snd d.

(** [[f(x) for x in l]] where [f] may raise. *)
Fixpoint comprehension {A B : Type} (f : A -> result B) (l : list A)
  : result (list B) :=
  match l with
  | [] => Ok []
  | x :: l' =>
      bind (f x) (fun y =>
      bind (comprehension f l') (fun ys => Ok (y :: ys)))
  end.

End Py.

Import Py.

Declare Scope py_scope.
Delimit Scope py_scope with py.
Notation "x <- c ;; k" := (Py.bind c (fun x => k))
(at level 61, c at next level, right associativity) : py_scope.
Notation "' pat <- c ;; k" := (Py.bind c (fun x => match x with pat => k end))
(at level 61, pat pattern, c at next level, right associativity) : py_scope.
Local Open Scope py_scope.

(* ================================================================== *)
(** ** numpy: scalars and the functions the robots call *)
(* ================================================================== *)

Module Np.

(** A float as [np.isfinite] sees it. *)
Inductive npfloat : Type :=
| Fin (q : Q)
| PInf
| NInf
| NaN.

Definition isfinite (x : npfloat) : bool :=
  match x with
  | Fin _ => true
  | _ => false
  end.

(** [np.isfinite(a).all()] *)
Definition isfinite_all (a : list npfloat) : bool := forallb isfinite a.

(** [np.clip(x, lo, hi)] on rationals: [minimum(maximum(x, lo), hi)]. *)
Definition clip (x lo hi : Q) : Q := Qmin (Qmax x lo) hi.

(** [np.clip] on a scalar that may be non-finite: NaN propagates and the
    infinities are cut to the bounds. *)
Definition clip_f (x : npfloat) (lo hi : Q) : npfloat :=
  match x with
  | Fin q => Fin (clip q lo hi)
  | PInf => Fin hi
  | NInf => Fin (Qmin lo hi)
  | NaN => NaN
  end.

(** The product [q * x] of a finite float and a float. *)
Definition scale (q : Q) (x : npfloat) : npfloat :=
  match x with
  | Fin y => Fin (q * y)
  | NaN => NaN
  | PInf =>
      match q ?= 0 with
      | Gt => PInf
      | Lt => NInf
      | Eq => NaN
      end
  | NInf =>
      match q ?= 0 with
      | Gt => NInf
      | Lt => PInf
      | Eq => NaN
      end
  end.

(** [np.rint]: the nearest integer, the even one of two that are equally
    near. *)
Definition rint (x : Q) : Z :=
  let f := Qfloor x in
  match Qcompare (x - inject_Z f) (1 # 2) with
  | Lt => f
  | Gt => (f + 1)%Z
  | Eq => if Z.even f then f else (f + 1)%Z
  end.

(** The binary exponent of a positive rational: [floor(log2(x))]. *)
Definition ilog2 (x : Q) : Z :=
  let e := (Z.log2 (Qnum x) - Z.log2 (Zpos (Qden x)))%Z in
  if Qle_bool (2 ^ e) x then e else (e - 1)%Z.

(** A positive rational rounded to the nearest multiple of the unit in
    the last place of its binade (ties to the even multiple), in a binary
    format with [prec] significant bits and least exponent [emin]. *)
Definition round_mag (prec emin : Z) (x : Q) : Q :=
  let e := Z.max (ilog2 x) emin in
  let ulp := 2 ^ (e - prec + 1) in
  inject_Z (rint (x / ulp)) * ulp.

(** IEEE 754 rounding of a real to a binary format: to nearest, ties to
    even, a magnitude that rounds to [2^(emax+1)] or more becoming the
    infinity of its sign.  (The sign of a zero is not kept.) *)
Definition round_float (prec emin emax : Z) (x : Q) : npfloat :=
  match Qcompare x 0 with
  | Eq => Fin 0
  | Gt => let y := round_mag prec emin x in
          if Qle_bool (2 ^ (emax + 1)) y then PInf else Fin y
  | Lt => let y := round_mag prec emin (- x) in
          if Qle_bool (2 ^ (emax + 1)) y then NInf else Fin (- y)
  end.

(** [np.float32(x)] and the double nearest to a real. *)
Definition float32 : Q -> npfloat := round_float 24 (- 126) 127.
Definition float64 : Q -> npfloat := round_float 53 (- 1022) 1023.

Arguments round_mag : simpl never.
Arguments round_float : simpl never.
Arguments float32 : simpl never.
Arguments float64 : simpl never.

(** [np.array(v, dtype=np.float32)] *)
Definition array_float32 (v : list Q) : list npfloat := map float32 v.

(** [np.abs(x)] *)
Definition abs_f (x : npfloat) : npfloat :=
  match x with
  | Fin q => Fin (Qabs q)
  | PInf | NInf => PInf
  | NaN => NaN
  end.

(** [x > y] on floats: false as soon as one of them is NaN. *)
Definition gt_f (x y : npfloat) : bool :=
  match x, y with
  | NaN, _ | _, NaN => false
  | Fin a, Fin b => negb (Qle_bool a b)
  | PInf, PInf => false
  | PInf, _ => true
  | _, PInf => false
  | NInf, _ => false
  | Fin _, NInf => true
  end.

(** The product [x * y] of two doubles: the exact product rounded, which
    overflows to an infinity; an infinity times zero is NaN. *)
Definition mul (x y : npfloat) : npfloat :=
  match x, y with
  | NaN, _ | _, NaN => NaN
  | Fin a, Fin b => float64 (a * b)
  | Fin a, PInf | PInf, Fin a =>
      match Qcompare a 0 with
      | Gt => PInf
      | Lt => NInf
      | Eq => NaN
      end
  | Fin a, NInf | NInf, Fin a =>
      match Qcompare a 0 with
      | Gt => NInf
      | Lt => PInf
      | Eq => NaN
      end
  | PInf, PInf | NInf, NInf => PInf
  | PInf, NInf | NInf, PInf => NInf
  end.

(** [np.clip(v, lo, hi)] on an array. *)
Definition clip_array (v : list Q) (lo hi : Q) : list Q :=
  map (fun x => clip x lo hi) v.

Definition sum (v : list Q) : Q := fold_right Qplus 0 v.

(** [v.mean()].  (On an empty array numpy answers NaN with a warning;
    here the quotient by zero is [0].  Every robot has at least its
    torso among its parts.) *)
Definition mean (v : list Q) : Q := sum v / inject_Z (Z.of_nat (List.length v)).

(** [np.count_nonzero(np.abs(v) > bound)] for an array [v] of dtype
    float32 and a Python float [bound]: numpy compares in the dtype of the
    array, so the bound is narrowed to float32 as well. *)
Definition count_abs_gt (v : list npfloat) (bound : Q) : nat :=
  List.length (filter (fun x => gt_f (abs_f x) (float32 bound)) v).

(** The float [np.pi]: the double nearest to pi, which is this rational. *)
Definition pi : Q := 884279719003555 # 281474976710656.

(** The transcendental functions of numpy that the robots call.  Nothing
    proved below depends on what they compute. *)
Class Math : Type := {
  sin : Q -> Q;
  cos : Q -> Q;
  arctan2 : Q -> Q -> Q;
  (** [np.linalg.norm] of a vector *)
  linalg_norm : list Q -> Q
}.

(** [np.random.RandomState]: the sequence of samples of [[0, 1)] it will
    produce, and how many have been consumed. *)
Record RandomState : Type := {
  samples : nat -> Q;
  consumed : nat
}.

(** [rs.uniform(low, high)]: [low + (high - low) * random_sample()]. *)
Definition uniform (low high : Q) (rs : RandomState) : Q * RandomState :=
  (low + (high - low) * samples rs (consumed rs),
   {| samples := samples rs; consumed := S (consumed rs) |}).

(** [rs.uniform(low, high, size=(3,))] *)
Definition uniform3 (low high : Q) (rs : RandomState)
  : (Q * Q * Q) * RandomState :=
  let '(x, rs1) := uniform low high rs in
  let '(y, rs2) := uniform low high rs1 in
  let '(z, rs3) := uniform low high rs2 in
  ((x, y, z), rs3).

Definition well_formed (rs : RandomState) : Prop :=
  forall n, 0 <= samples rs n /\ samples rs n < 1.

End Np.

Import Np (npfloat, Fin, PInf, NInf, NaN).

(* ================================================================== *)
(** ** The collaborators of a robot *)
(* ================================================================== *)

Definition vec3 : Type := (Q * Q * Q)%type.

(** Modelled from the spec: the joint handle of [robot_bases], which is not
    part of the sources at hand.  It exposes [reset_current_position(pos,
    vel)], [current_relative_position() -> (normalized_pos,
    normalized_vel)], [set_motor_torque(torque)] and a mutable
    [power_coef].  How the engine normalises a joint state by the joint's
    limits is the field [normalised]. *)
Record Joint : Type := {
  joint_name : string;
  power_coef : Q;
  joint_state : Q * Q;
  normalised : Q * Q -> Q * Q;
  motor_torque : option npfloat
}.

Definition reset_current_position (pos vel : Q) (j : Joint) : Joint :=
  {| joint_name := joint_name j; power_coef := power_coef j;
     joint_state := (pos, vel); normalised := normalised j;
     motor_torque := motor_torque j |}.

Definition current_relative_position (j : Joint) : Q * Q :=
  normalised j (joint_state j).

Definition set_motor_torque (torque : npfloat) (j : Joint) : Joint :=
  {| joint_name := joint_name j; power_coef := power_coef j;
     joint_state := joint_state j; normalised := normalised j;
     motor_torque := Some torque |}.

Definition set_power_coef (c : Q) (j : Joint) : Joint :=
  {| joint_name := joint_name j; power_coef := c;
     joint_state := joint_state j; normalised := normalised j;
     motor_torque := motor_torque j |}.

(** Modelled from the spec: the body part handle of [robot_bases]:
    [pose() -> {xyz(), rpy()}] and [speed() -> (vx, vy, vz)]. *)
Record BodyPart : Type := {
  pose_xyz : vec3;
  pose_rpy : vec3;
  speed : vec3
}.

(** [part.reset_pose(position, p.getQuaternionFromEuler(orientation))] *)
Definition reset_pose (position orientation : vec3) (b : BodyPart) : BodyPart :=
  {| pose_xyz := position; pose_rpy := orientation; speed := speed b |}.

(** Modelled from the spec: the scene, with [dt] (seconds per tick), the
    stadium half extents and [actor_introduce(robot)], of which only the
    number of calls is kept. *)
Record Scene : Type := {
  dt : Q;
  stadium_halflen : Q;
  stadium_halfwidth : Q;
  actors_introduced : nat
}.

Definition actor_introduce (s : Scene) : Scene :=
  {| dt := dt s; stadium_halflen := stadium_halflen s;
     stadium_halfwidth := stadium_halfwidth s;
     actors_introduced := S (actors_introduced s) |}.

(** Modelled from the spec: the props of [gym_utils], spawned at a position
    ([get_sphere], [get_cube]); a cube can be repositioned and given a
    velocity. *)
Record Prop3 : Type := {
  prop_position : vec3;
  prop_velocity : vec3
}.

Definition get_sphere (x y z : Q) : Prop3 :=
  {| prop_position := (x, y, z); prop_velocity := (0, 0, 0) |}.

Definition get_cube (x y z : Q) : Prop3 :=
  {| prop_position := (x, y, z); prop_velocity := (0, 0, 0) |}.

Definition reset_position (position : vec3) (c : Prop3) : Prop3 :=
  {| prop_position := position; prop_velocity := prop_velocity c |}.

Definition reset_velocity (linearVelocity : vec3) (c : Prop3) : Prop3 :=
  {| prop_position := prop_position c; prop_velocity := linearVelocity |}.

(* ================================================================== *)
(** ** The robot object *)
(* ================================================================== *)

(** The attributes that [WalkerBase.calc_state] assigns. *)
Record Observed : Type := {
  joint_speeds : list Q;
  joints_at_limit : nat;
  body_xyz : vec3;
  body_rpy : vec3;
  walk_target_theta : Q;
  walk_target_dist : Q
}.

(** The attributes that [Humanoid.robot_specific_reset] assigns; [motors]
    holds the names under which the motor joints are found in the joint
    store. *)
Record Motors : Type := {
  motor_names : list string;
  motor_power : list Q;
  motor_joints : list string
}.

(** The attributes that [HumanoidFlagrun.flag_reposition] assigns. *)
Record Flagrun : Type := {
  flag : option Prop3;
  flag_timeout : Z
}.

(** The attributes that [HumanoidFlagrunHarder.robot_specific_reset]
    assigns. *)
Record Harder : Type := {
  aggressive_cube : Prop3;
  on_ground_frame_counter : Z;
  crawl_start_potential : option Q;
  crawl_ignored_potential : Q
}.

Record Robot : Type := {
  (* [MJCFBasedRobot.__init__], [URDFBasedRobot.__init__] *)
  model_file : string;
  robot_name : string;
  action_dim : nat;
  obs_dim : nat;
  (* filled in when the model is loaded into the scene; [parts] is
     [robot_body] under [robot_name] followed by [limbs] *)
  ordered_joints : list Joint;
  robot_body : BodyPart;
  limbs : dict BodyPart;
  (* collaborators; [frame] is maintained by the environment *)
  scene : Scene;
  np_random : Np.RandomState;
  frame : attr Z;
  (* [WalkerBase.__init__] *)
  power : Q;
  camera_x : Q;
  start_pos : vec3;
  walk_target_x : Q;
  walk_target_y : Q;
  (* [WalkerBase.robot_specific_reset] *)
  feet : attr (list string);
  feet_contact : attr (list Q);
  initial_z : attr (option Q);
  (* [WalkerBase.calc_state] *)
  observed : attr Observed;
  (* [Humanoid.robot_specific_reset] *)
  motors : attr Motors;
  (* [HumanoidFlagrun.flag_reposition], [HumanoidFlagrun.calc_state] *)
  flagrun : attr Flagrun;
  potential : attr Q;
  (* [HumanoidFlagrunHarder.robot_specific_reset] *)
  harder : attr Harder;
  (* [Atlas.robot_specific_reset] *)
  head : attr string
}.

(** Attribute assignment, [self.f = v]. *)
Definition set_ordered_joints (v : list Joint) (self : Robot) : Robot :=
  {| model_file := model_file self; robot_name := robot_name self;
     action_dim := action_dim self; obs_dim := obs_dim self;
     ordered_joints := v; robot_body := robot_body self;
     limbs := limbs self; scene := scene self; np_random := np_random self;
     frame := frame self; power := power self; camera_x := camera_x self;
     start_pos := start_pos self; walk_target_x := walk_target_x self;
     walk_target_y := walk_target_y self; feet := feet self;
     feet_contact := feet_contact self; initial_z := initial_z self;
     observed := observed self; motors := motors self;
     flagrun := flagrun self; potential := potential self;
     harder := harder self; head := head self |}.

Definition set_robot_body (v : BodyPart) (self : Robot) : Robot :=
  {| model_file := model_file self; robot_name := robot_name self;
     action_dim := action_dim self; obs_dim := obs_dim self;
     ordered_joints := ordered_joints self; robot_body := v;
     limbs := limbs self; scene := scene self; np_random := np_random self;
     frame := frame self; power := power self; camera_x := camera_x self;
     start_pos := start_pos self; walk_target_x := walk_target_x self;
     walk_target_y := walk_target_y self; feet := feet self;
     feet_contact := feet_contact self; initial_z := initial_z self;
     observed := observed self; motors := motors self;
     flagrun := flagrun self; potential := potential self;
     harder := harder self; head := head self |}.

Definition set_scene (v : Scene) (self : Robot) : Robot :=
  {| model_file := model_file self; robot_name := robot_name self;
     action_dim := action_dim self; obs_dim := obs_dim self;
     ordered_joints := ordered_joints self; robot_body := robot_body self;
     limbs := limbs self; scene := v; np_random := np_random self;
     frame := frame self; power := power self; camera_x := camera_x self;
     start_pos := start_pos self; walk_target_x := walk_target_x self;
     walk_target_y := walk_target_y self; feet := feet self;
     feet_contact := feet_contact self; initial_z := initial_z self;
     observed := observed self; motors := motors self;
     flagrun := flagrun self; potential := potential self;
     harder := harder self; head := head self |}.

Definition set_np_random (v : Np.RandomState) (self : Robot) : Robot :=
  {| model_file := model_file self; robot_name := robot_name self;
     action_dim := action_dim self; obs_dim := obs_dim self;
     ordered_joints := ordered_joints self; robot_body := robot_body self;
     limbs := limbs self; scene := scene self; np_random := v;
     frame := frame self; power := power self; camera_x := camera_x self;
     start_pos := start_pos self; walk_target_x := walk_target_x self;
     walk_target_y := walk_target_y self; feet := feet self;
     feet_contact := feet_contact self; initial_z := initial_z self;
     observed := observed self; motors := motors self;
     flagrun := flagrun self; potential := potential self;
     harder := harder self; head := head self |}.

Definition set_walk_target_x (v : Q) (self : Robot) : Robot :=
  {| model_file := model_file self; robot_name := robot_name self;
     action_dim := action_dim self; obs_dim := obs_dim self;
     ordered_joints := ordered_joints self; robot_body := robot_body self;
     limbs := limbs self; scene := scene self; np_random := np_random self;
     frame := frame self; power := power self; camera_x := camera_x self;
     start_pos := start_pos self; walk_target_x := v;
     walk_target_y := walk_target_y self; feet := feet self;
     feet_contact := feet_contact self; initial_z := initial_z self;
     observed := observed self; motors := motors self;
     flagrun := flagrun self; potential := potential self;
     harder := harder self; head := head self |}.

Definition set_walk_target_y (v : Q) (self : Robot) : Robot :=
  {| model_file := model_file self; robot_name := robot_name self;
     action_dim := action_dim self; obs_dim := obs_dim self;
     ordered_joints := ordered_joints self; robot_body := robot_body self;
     limbs := limbs self; scene := scene self; np_random := np_random self;
     frame := frame self; power := power self; camera_x := camera_x self;
     start_pos := start_pos self; walk_target_x := walk_target_x self;
     walk_target_y := v; feet := feet self;
     feet_contact := feet_contact self; initial_z := initial_z self;
     observed := observed self; motors := motors self;
     flagrun := flagrun self; potential := potential self;
     harder := harder self; head := head self |}.

Definition set_feet (v : attr (list string)) (self : Robot) : Robot :=
  {| model_file := model_file self; robot_name := robot_name self;
     action_dim := action_dim self; obs_dim := obs_dim self;
     ordered_joints := ordered_joints self; robot_body := robot_body self;
     limbs := limbs self; scene := scene self; np_random := np_random self;
     frame := frame self; power := power self; camera_x := camera_x self;
     start_pos := start_pos self; walk_target_x := walk_target_x self;
     walk_target_y := walk_target_y self; feet := v;
     feet_contact := feet_contact self; initial_z := initial_z self;
     observed := observed self; motors := motors self;
     flagrun := flagrun self; potential := potential self;
     harder := harder self; head := head self |}.

Definition set_feet_contact (v : attr (list Q)) (self : Robot) : Robot :=
  {| model_file := model_file self; robot_name := robot_name self;
     action_dim := action_dim self; obs_dim := obs_dim self;
     ordered_joints := ordered_joints self; robot_body := robot_body self;
     limbs := limbs self; scene := scene self; np_random := np_random self;
     frame := frame self; power := power self; camera_x := camera_x self;
     start_pos := start_pos self; walk_target_x := walk_target_x self;
     walk_target_y := walk_target_y self; feet := feet self;
     feet_contact := v; initial_z := initial_z self;
     observed := observed self; motors := motors self;
     flagrun := flagrun self; potential := potential self;
     harder := harder self; head := head self |}.

Definition set_initial_z (v : attr (option Q)) (self : Robot) : Robot :=
  {| model_file := model_file self; robot_name := robot_name self;
     action_dim := action_dim self; obs_dim := obs_dim self;
     ordered_joints := ordered_joints self; robot_body := robot_body self;
     limbs := limbs self; scene := scene self; np_random := np_random self;
     frame := frame self; power := power self; camera_x := camera_x self;
     start_pos := start_pos self; walk_target_x := walk_target_x self;
     walk_target_y := walk_target_y self; feet := feet self;
     feet_contact := feet_contact self; initial_z := v;
     observed := observed self; motors := motors self;
     flagrun := flagrun self; potential := potential self;
     harder := harder self; head := head self |}.

Definition set_observed (v : attr Observed) (self : Robot) : Robot :=
  {| model_file := model_file self; robot_name := robot_name self;
     action_dim := action_dim self; obs_dim := obs_dim self;
     ordered_joints := ordered_joints self; robot_body := robot_body self;
     limbs := limbs self; scene := scene self; np_random := np_random self;
     frame := frame self; power := power self; camera_x := camera_x self;
     start_pos := start_pos self; walk_target_x := walk_target_x self;
     walk_target_y := walk_target_y self; feet := feet self;
     feet_contact := feet_contact self; initial_z := initial_z self;
     observed := v; motors := motors self; flagrun := flagrun self;
     potential := potential self; harder := harder self; head := head self |}.

Definition set_motors (v : attr Motors) (self : Robot) : Robot :=
  {| model_file := model_file self; robot_name := robot_name self;
     action_dim := action_dim self; obs_dim := obs_dim self;
     ordered_joints := ordered_joints self; robot_body := robot_body self;
     limbs := limbs self; scene := scene self; np_random := np_random self;
     frame := frame self; power := power self; camera_x := camera_x self;
     start_pos := start_pos self; walk_target_x := walk_target_x self;
     walk_target_y := walk_target_y self; feet := feet self;
     feet_contact := feet_contact self; initial_z := initial_z self;
     observed := observed self; motors := v; flagrun := flagrun self;
     potential := potential self; harder := harder self; head := head self |}.

Definition set_flagrun (v : attr Flagrun) (self : Robot) : Robot :=
  {| model_file := model_file self; robot_name := robot_name self;
     action_dim := action_dim self; obs_dim := obs_dim self;
     ordered_joints := ordered_joints self; robot_body := robot_body self;
     limbs := limbs self; scene := scene self; np_random := np_random self;
     frame := frame self; power := power self; camera_x := camera_x self;
     start_pos := start_pos self; walk_target_x := walk_target_x self;
     walk_target_y := walk_target_y self; feet := feet self;
     feet_contact := feet_contact self; initial_z := initial_z self;
     observed := observed self; motors := motors self; flagrun := v;
     potential := potential self; harder := harder self; head := head self |}.

Definition set_potential (v : attr Q) (self : Robot) : Robot :=
  {| model_file := model_file self; robot_name := robot_name self;
     action_dim := action_dim self; obs_dim := obs_dim self;
     ordered_joints := ordered_joints self; robot_body := robot_body self;
     limbs := limbs self; scene := scene self; np_random := np_random self;
     frame := frame self; power := power self; camera_x := camera_x self;
     start_pos := start_pos self; walk_target_x := walk_target_x self;
     walk_target_y := walk_target_y self; feet := feet self;
     feet_contact := feet_contact self; initial_z := initial_z self;
     observed := observed self; motors := motors self;
     flagrun := flagrun self; potential := v; harder := harder self;
     head := head self |}.

Definition set_harder (v : attr Harder) (self : Robot) : Robot :=
  {| model_file := model_file self; robot_name := robot_name self;
     action_dim := action_dim self; obs_dim := obs_dim self;
     ordered_joints := ordered_joints self; robot_body := robot_body self;
     limbs := limbs self; scene := scene self; np_random := np_random self;
     frame := frame self; power := power self; camera_x := camera_x self;
     start_pos := start_pos self; walk_target_x := walk_target_x self;
     walk_target_y := walk_target_y self; feet := feet self;
     feet_contact := feet_contact self; initial_z := initial_z self;
     observed := observed self; motors := motors self;
     flagrun := flagrun self; potential := potential self; harder := v;
     head := head self |}.

Definition set_head (v : attr string) (self : Robot) : Robot :=
  {| model_file := model_file self; robot_name := robot_name self;
     action_dim := action_dim self; obs_dim := obs_dim self;
     ordered_joints := ordered_joints self; robot_body := robot_body self;
     limbs := limbs self; scene := scene self; np_random := np_random self;
     frame := frame self; power := power self; camera_x := camera_x self;
     start_pos := start_pos self; walk_target_x := walk_target_x self;
     walk_target_y := walk_target_y self; feet := feet self;
     feet_contact := feet_contact self; initial_z := initial_z self;
     observed := observed self; motors := motors self;
     flagrun := flagrun self; potential := potential self;
     harder := harder self; head := v |}.
(** [self.parts]: the torso under the robot's name, then the other parts. *)
Definition parts (self : Robot) : dict BodyPart :=
  (robot_name self, robot_body self) :: limbs self.

(** [self.jdict[n]]: the joint of the store that bears the name [n] (names
    are unique in a loaded model). *)
Definition jdict_get (joints : list Joint) (n : string) : result Joint :=
  match find (fun j => String.eqb (joint_name j) n) joints with
  | Some j => Ok j
  | None => Raise KeyError
  end.

(** A mutation [f] of the joint object [self.jdict[n]]. *)
Fixpoint jdict_update (f : Joint -> Joint) (joints : list Joint) (n : string)
  : result (list Joint) :=
  match joints with
  | [] => Raise KeyError
  | j :: joints' =>
      if String.eqb (joint_name j) n then Ok (f j :: joints')
      else
        joints'' <- jdict_update f joints' n ;;
        Ok (j :: joints'')
  end.

(** Comparisons of floats, as booleans. *)
Definition ltb (x y : Q) : bool := negb (Qle_bool y x).
Definition leb (x y : Q) : bool := Qle_bool x y.
Definition gtb (x y : Q) : bool := ltb y x.

(** Truth value of a float: [not x] holds of zero only. *)
Definition truthy (x : Q) : bool := negb (Qeq_bool x 0).

(* ================================================================== *)
(** ** The classes *)
(* ================================================================== *)

Inductive Class : Type :=
| Hopper
| Walker2D
| HalfCheetah
| Ant
| Humanoid
| HumanoidFlagrun
| HumanoidFlagrunHarder
| Atlas.

(** The class attribute [foot_list], as seen from an instance of [cls]. *)
Definition foot_list (cls : Class) : list string :=
  match cls with
  | Hopper => ["foot"]
  | Walker2D => ["foot"; "foot_left"]
  | HalfCheetah => ["ffoot"; "fshin"; "fthigh"; "bfoot"; "bshin"; "bthigh"]
  | Ant => ["front_left_foot"; "front_right_foot"; "left_back_foot";
            "right_back_foot"]
  | Humanoid | HumanoidFlagrun | HumanoidFlagrunHarder =>
      ["right_foot"; "left_foot"]
  | Atlas => ["r_foot"; "l_foot"]
  end%string.

(** The class attribute [random_yaw] ([Humanoid] and [Atlas] declare it). *)
Definition random_yaw (cls : Class) : bool := false.

(** Modelled from the spec: the constructors of the model-loading bases
    ([MJCFBasedRobot.__init__], [URDFBasedRobot.__init__]) record the model
    identifier, the torso part name and the action and observation
    dimensionality. *)
Definition XmlBasedRobot__init__ (file name : string) (adim odim : nat)
  (self : Robot) : Robot :=
  {| model_file := file; robot_name := name; action_dim := adim;
     obs_dim := odim; ordered_joints := ordered_joints self;
     robot_body := robot_body self; limbs := limbs self;
     scene := scene self; np_random := np_random self; frame := frame self;
     power := power self; camera_x := camera_x self;
     start_pos := start_pos self; walk_target_x := walk_target_x self;
     walk_target_y := walk_target_y self; feet := feet self;
     feet_contact := feet_contact self; initial_z := initial_z self;
     observed := observed self; motors := motors self;
     flagrun := flagrun self; potential := potential self;
     harder := harder self; head := head self |}.

(* ------------------------------------------------------------------ *)
(** *** class WalkerBase *)
(* ------------------------------------------------------------------ *)

Module WalkerBase.

Definition __init__ (power : Q) (self : Robot) : Robot :=
  {| model_file := model_file self; robot_name := robot_name self;
     action_dim := action_dim self; obs_dim := obs_dim self;
     ordered_joints := ordered_joints self; robot_body := robot_body self;
     limbs := limbs self; scene := scene self; np_random := np_random self;
     frame := frame self;
     power := power;
     camera_x := 0;
     start_pos := (0, 0, 0);
     walk_target_x := 1000;
     walk_target_y := 0;
     feet := feet self; feet_contact := feet_contact self;
     initial_z := initial_z self; observed := observed self;
     motors := motors self; flagrun := flagrun self;
     potential := potential self; harder := harder self;
     head := head self |}.

(** [for j in self.ordered_joints:
       j.reset_current_position(self.np_random.uniform(low=-0.1, high=0.1), 0)] *)
Fixpoint reset_joints (joints : list Joint) (rs : Np.RandomState)
  : list Joint * Np.RandomState :=
  match joints with
  | [] => ([], rs)
  | j :: joints' =>
      let '(u, rs1) := Np.uniform (- 0.1) 0.1 rs in
      let '(joints'', rs2) := reset_joints joints' rs1 in
      (reset_current_position u 0 j :: joints'', rs2)
  end.

Definition robot_specific_reset (cls : Class) (self : Robot) : result Robot :=
  let '(joints, rs) := reset_joints (ordered_joints self) (np_random self) in
  let self := set_np_random rs (set_ordered_joints joints self) in
  feet' <- comprehension
             (fun f => _ <- getitem (parts self) f ;; Ok f) (foot_list cls) ;;
  let self := set_feet (Bound feet') self in
  let self := set_feet_contact (Bound (map (fun _ => 0) (foot_list cls))) self in
  let self := set_scene (actor_introduce (scene self)) self in
  Ok (set_initial_z (Bound None) self).

(** [for n, j in enumerate(self.ordered_joints):
       j.set_motor_torque(self.power * j.power_coef * float(np.clip(a[n], -1, +1)))] *)
Fixpoint apply_action_loop (power : Q) (a : list npfloat) (n : nat)
  (joints : list Joint) : result (list Joint) :=
  match joints with
  | [] => Ok []
  | j :: joints' =>
      an <- index a n ;;
      let j' :=
        set_motor_torque
          (Np.scale (power * power_coef j) (Np.clip_f an (- (1)) 1)) j in
      joints'' <- apply_action_loop power a (S n) joints' ;;
      Ok (j' :: joints'')
  end.

Definition apply_action (a : list npfloat) (self : Robot) : result Robot :=
  if Np.isfinite_all a then
    joints <- apply_action_loop (power self) a 0 (ordered_joints self) ;;
    Ok (set_ordered_joints joints self)
  else Raise AssertionError.

Section CalcState.
Context {math : Np.Math}.

Definition calc_state (self : Robot) : result (list Q * Robot) :=
  let j := flat_map (fun j => let '(pos, vel) := current_relative_position j in
                              [pos; vel]) (ordered_joints self) in
  let joint_speeds' := slice_1_2 j in
  let joints_at_limit' :=
    Np.count_abs_gt (slice_0_2 (Np.array_float32 j)) 0.99 in
  let body_pose := robot_body self in
  let parts_xyz := flat_map (fun p => let '(x, y, z) := pose_xyz p in [x; y; z])
                     (values (parts self)) in
  let body_xyz' := (Np.mean (slice_0_3 parts_xyz),
                    Np.mean (slice_1_3 parts_xyz),
                    snd (pose_xyz body_pose)) in
  let body_rpy' := pose_rpy body_pose in
  let z := snd body_xyz' in
  initial_z0 <- getattr (initial_z self) ;;
  let self := match initial_z0 with
              | None => set_initial_z (Bound (Some z)) self
              | Some _ => self
              end in
  let '(r, p, yaw) := body_rpy' in
  let walk_target_theta' :=
    Np.arctan2 (walk_target_y self - snd (fst body_xyz'))
               (walk_target_x self - fst (fst body_xyz')) in
  let walk_target_dist' :=
    Np.linalg_norm [walk_target_y self - snd (fst body_xyz');
                    walk_target_x self - fst (fst body_xyz')] in
  let angle_to_target := walk_target_theta' - yaw in
  let '(sx, sy, sz) := speed (robot_body self) in
  let vx := Np.cos (- yaw) * sx + - Np.sin (- yaw) * sy + 0 * sz in
  let vy := Np.sin (- yaw) * sx + Np.cos (- yaw) * sy + 0 * sz in
  let vz := 0 * sx + 0 * sy + 1 * sz in
  let self :=
    set_observed
      (Bound {| joint_speeds := joint_speeds';
                joints_at_limit := joints_at_limit';
                body_xyz := body_xyz'; body_rpy := body_rpy';
                walk_target_theta := walk_target_theta';
                walk_target_dist := walk_target_dist' |}) self in
  initial_z1 <- getattr (initial_z self) ;;
  height_delta <- match initial_z1 with
                  | Some z0 => Ok (z - z0)
                  | None => Raise TypeError
                  end ;;
  let more := [height_delta;
               Np.sin angle_to_target; Np.cos angle_to_target;
               0.3 * vx; 0.3 * vy; 0.3 * vz;
               r; p] in
  feet_contact' <- getattr (feet_contact self) ;;
  Ok (Np.clip_array (more ++ j ++ feet_contact') (- (5)) 5, self).

End CalcState.

Definition calc_potential (self : Robot) : result Q :=
  o <- getattr (observed self) ;;
  Ok (- walk_target_dist o / dt (scene self)).

End WalkerBase.

(** A method defined as [def __init__(self)] is called with a list of
    positional arguments; any number of them other than one is a
    [TypeError]. *)

(* ------------------------------------------------------------------ *)
(** *** class Hopper(WalkerBase, MJCFBasedRobot) *)
(* ------------------------------------------------------------------ *)

Module Hopper.

Definition __init__ (args : list Robot) : result Robot :=
  match args with
  | [self] =>
      let self := WalkerBase.__init__ 0.75 self in
      Ok (XmlBasedRobot__init__ "hopper.xml" "torso" 3 15 self)
  | _ => Raise TypeError
  end.

Definition alive_bonus (z pitch : Q) : Q :=
  if gtb z 0.8 && ltb (Qabs pitch) 1.0 then 1 else - (1).

End Hopper.

(* ------------------------------------------------------------------ *)
(** *** class Walker2D(WalkerBase, MJCFBasedRobot) *)
(* ------------------------------------------------------------------ *)

Module Walker2D.

Definition __init__ (args : list Robot) : result Robot :=
  match args with
  | [self] =>
      let self := WalkerBase.__init__ 0.40 self in
      Ok (XmlBasedRobot__init__ "walker2d.xml" "torso" 6 22 self)
  | _ => Raise TypeError
  end.

Definition alive_bonus (z pitch : Q) : Q :=
  if gtb z 0.8 && ltb (Qabs pitch) 1.0 then 1 else - (1).

(** [for n in names: self.jdict[n].power_coef = c] *)
Fixpoint set_power_coefs (c : Q) (names : list string) (joints : list Joint)
  : result (list Joint) :=
  match names with
  | [] => Ok joints
  | n :: names' =>
      joints' <- jdict_update (set_power_coef c) joints n ;;
      set_power_coefs c names' joints'
  end.

Definition robot_specific_reset (cls : Class) (self : Robot) : result Robot :=
  self <- WalkerBase.robot_specific_reset cls self ;;
  joints <- set_power_coefs 30.0 ["foot_joint"; "foot_left_joint"]%string
              (ordered_joints self) ;;
  Ok (set_ordered_joints joints self).

End Walker2D.

(* ------------------------------------------------------------------ *)
(** *** class HalfCheetah(WalkerBase, MJCFBasedRobot) *)
(* ------------------------------------------------------------------ *)

Module HalfCheetah.

Definition __init__ (args : list Robot) : result Robot :=
  match args with
  | [self] =>
      let self := WalkerBase.__init__ 0.90 self in
      Ok (XmlBasedRobot__init__ "half_cheetah.xml" "torso" 6 26 self)
  | _ => Raise TypeError
  end.

(** [+1 if np.abs(pitch) < 1.0 and not self.feet_contact[1] and not
    self.feet_contact[2] and not self.feet_contact[4] and not
    self.feet_contact[5] else -1]; the conjunction is evaluated from the
    left and stops at the first false conjunct. *)
Definition alive_bonus (z pitch : Q) (self : Robot) : result Q :=
  if ltb (Qabs pitch) 1.0 then
    fc <- getattr (feet_contact self) ;;
    c1 <- index fc 1 ;;
    if truthy c1 then Ok (- (1)) else
    c2 <- index fc 2 ;;
    if truthy c2 then Ok (- (1)) else
    c4 <- index fc 4 ;;
    if truthy c4 then Ok (- (1)) else
    c5 <- index fc 5 ;;
    if truthy c5 then Ok (- (1)) else Ok 1
  else Ok (- (1)).

Definition robot_specific_reset (cls : Class) (self : Robot) : result Robot :=
  self <- WalkerBase.robot_specific_reset cls self ;;
  joints <- jdict_update (set_power_coef 120.0) (ordered_joints self) "bthigh" ;;
  joints <- jdict_update (set_power_coef 90.0) joints "bshin" ;;
  joints <- jdict_update (set_power_coef 60.0) joints "bfoot" ;;
  joints <- jdict_update (set_power_coef 140.0) joints "fthigh" ;;
  joints <- jdict_update (set_power_coef 60.0) joints "fshin" ;;
  joints <- jdict_update (set_power_coef 30.0) joints "ffoot" ;;
  Ok (set_ordered_joints joints self).

End HalfCheetah.

(* ------------------------------------------------------------------ *)
(** *** class Ant(WalkerBase, MJCFBasedRobot) *)
(* ------------------------------------------------------------------ *)

Module Ant.

Definition __init__ (args : list Robot) : result Robot :=
  match args with
  | [self] =>
      let self := WalkerBase.__init__ 10.5 self in
      Ok (XmlBasedRobot__init__ "ant.xml" "torso" 8 28 self)
  | _ => Raise TypeError
  end.

Definition alive_bonus (z pitch : Q) : Q :=
  if gtb z 0.26 then 1 else - (1).

End Ant.

(* ------------------------------------------------------------------ *)
(** *** class Humanoid(WalkerBase, MJCFBasedRobot) *)
(* ------------------------------------------------------------------ *)

Module Humanoid.

Definition __init__ (args : list Robot) : result Robot :=
  match args with
  | [self] =>
      let self := WalkerBase.__init__ 0.41 self in
      Ok (XmlBasedRobot__init__ "humanoid_symmetric.xml" "torso" 17 44 self)
  | _ => Raise TypeError
  end.

Definition robot_specific_reset (cls : Class) (self : Robot) : result Robot :=
  self <- WalkerBase.robot_specific_reset cls self ;;
  let motor_names' := ["abdomen_z"; "abdomen_y"; "abdomen_x"]%string in
  let motor_power' := [100; 100; 100] in
  let motor_names' :=
    motor_names' ++ ["right_hip_x"; "right_hip_z"; "right_hip_y"; "right_knee"]%string in
  let motor_power' := motor_power' ++ [100; 100; 300; 200] in
  let motor_names' :=
    motor_names' ++ ["left_hip_x"; "left_hip_z"; "left_hip_y"; "left_knee"]%string in
  let motor_power' := motor_power' ++ [100; 100; 300; 200] in
  let motor_names' :=
    motor_names' ++ ["right_shoulder1"; "right_shoulder2"; "right_elbow"]%string in
  let motor_power' := motor_power' ++ [75; 75; 75] in
  let motor_names' :=
    motor_names' ++ ["left_shoulder1"; "left_shoulder2"; "left_elbow"]%string in
  let motor_power' := motor_power' ++ [75; 75; 75] in
  motors' <- comprehension
               (fun n => _ <- jdict_get (ordered_joints self) n ;; Ok n)
               motor_names' ;;
  let self := set_motors (Bound {| motor_names := motor_names';
                                   motor_power := motor_power';
                                   motor_joints := motors' |}) self in
  Ok (set_initial_z (Bound (Some 0.8)) self).

(** [for i, m, power in zip(range(17), self.motors, self.motor_power):
       m.set_motor_torque(float(force_gain * power * self.power * a[i]))]
    The product is taken from left to right, in double precision. *)
Fixpoint apply_action_loop (force_gain self_power : Q) (a : list npfloat)
  (zipped : list (nat * (string * Q))) (joints : list Joint)
  : result (list Joint) :=
  match zipped with
  | [] => Ok joints
  | (i, (m, power)) :: zipped' =>
      ai <- index a i ;;
      joints' <- jdict_update
                   (set_motor_torque
                      (Np.mul (Np.mul (Np.mul (Fin force_gain) (Fin power))
                                 (Fin self_power)) ai))
                   joints m ;;
      apply_action_loop force_gain self_power a zipped' joints'
  end.

Definition apply_action (a : list npfloat) (self : Robot) : result Robot :=
  if Np.isfinite_all a then
    let force_gain := 1 in
    ms <- getattr (motors self) ;;
    joints <- apply_action_loop force_gain (power self) a
                (combine (seq 0 17) (combine (motor_joints ms) (motor_power ms)))
                (ordered_joints self) ;;
    Ok (set_ordered_joints joints self)
  else Raise AssertionError.

Definition alive_bonus (z pitch : Q) : Q :=
  if gtb z 0.78 then 2 else - (1).

End Humanoid.

(* ------------------------------------------------------------------ *)
(** *** class HumanoidFlagrun(Humanoid) *)
(* ------------------------------------------------------------------ *)

Module HumanoidFlagrun.

Definition __init__ (args : list Robot) : result Robot :=
  match args with
  | [self] => Humanoid.__init__ [self]
  | _ => Raise TypeError
  end.

Definition flag_reposition (self : Robot) : Robot :=
  let '(x, rs) := Np.uniform (- stadium_halflen (scene self))
                    (stadium_halflen (scene self)) (np_random self) in
  let self := set_np_random rs (set_walk_target_x x self) in
  let '(y, rs) := Np.uniform (- stadium_halfwidth (scene self))
                    (stadium_halfwidth (scene self)) (np_random self) in
  let self := set_np_random rs (set_walk_target_y y self) in
  let more_compact := 0.5 in
  let self := set_walk_target_x (walk_target_x self * more_compact) self in
  let self := set_walk_target_y (walk_target_y self * more_compact) self in
  let flag' := Some (get_sphere (walk_target_x self) (walk_target_y self) 0.2) in
  set_flagrun (Bound {| flag := flag'; flag_timeout := 200 |}) self.

Definition robot_specific_reset (cls : Class) (self : Robot) : result Robot :=
  self <- Humanoid.robot_specific_reset cls self ;;
  Ok (flag_reposition self).

Section CalcState.
Context {math : Np.Math}.

(** [self.calc_potential()] is resolved on the class of the instance, so
    the method is a parameter here. *)
Variable calc_potential : Robot -> result (Q * Robot).

Definition calc_state (self : Robot) : result (list Q * Robot) :=
  f <- getattr (flagrun self) ;;
  let self := set_flagrun (Bound {| flag := flag f;
                                    flag_timeout := flag_timeout f - 1 |}) self in
  '(state, self) <- WalkerBase.calc_state self ;;
  o <- getattr (observed self) ;;
  f <- getattr (flagrun self) ;;
  if ltb (walk_target_dist o) 1 || (flag_timeout f <=? 0)%Z then
    let self := flag_reposition self in
    '(state, self) <- WalkerBase.calc_state self ;;
    '(potential', self) <- calc_potential self ;;
    Ok (state, set_potential (Bound potential') self)
  else Ok (state, self).

End CalcState.

End HumanoidFlagrun.

(* ------------------------------------------------------------------ *)
(** *** class HumanoidFlagrunHarder(HumanoidFlagrun) *)
(* ------------------------------------------------------------------ *)

Module HumanoidFlagrunHarder.

(** [HumanoidFlagrun.__init__()]: the parent's method is called with no
    argument at all. *)
Definition __init__ (args : list Robot) : result Robot :=
  match args with
  | [self] => HumanoidFlagrun.__init__ []
  | _ => Raise TypeError
  end.

Definition robot_specific_reset (cls : Class) (self : Robot) : result Robot :=
  self <- HumanoidFlagrun.robot_specific_reset cls self ;;
  let self :=
    set_harder (Bound {| aggressive_cube := get_cube (- 1.5) 0 0.05;
                         on_ground_frame_counter := 0;
                         crawl_start_potential := None;
                         crawl_ignored_potential := 0.0 |}) self in
  Ok (set_initial_z (Bound (Some 0.8)) self).

Definition set_aggressive_cube (v : Prop3) (h : Harder) : Harder :=
  {| aggressive_cube := v;
     on_ground_frame_counter := on_ground_frame_counter h;
     crawl_start_potential := crawl_start_potential h;
     crawl_ignored_potential := crawl_ignored_potential h |}.

Definition set_on_ground_frame_counter (v : Z) (h : Harder) : Harder :=
  {| aggressive_cube := aggressive_cube h;
     on_ground_frame_counter := v;
     crawl_start_potential := crawl_start_potential h;
     crawl_ignored_potential := crawl_ignored_potential h |}.

Definition set_crawl_start_potential (v : option Q) (h : Harder) : Harder :=
  {| aggressive_cube := aggressive_cube h;
     on_ground_frame_counter := on_ground_frame_counter h;
     crawl_start_potential := v;
     crawl_ignored_potential := crawl_ignored_potential h |}.

Definition set_crawl_ignored_potential (v : Q) (h : Harder) : Harder :=
  {| aggressive_cube := aggressive_cube h;
     on_ground_frame_counter := on_ground_frame_counter h;
     crawl_start_potential := crawl_start_potential h;
     crawl_ignored_potential := v |}.

Definition potential_leak (self : Robot) : result Q :=
  o <- getattr (observed self) ;;
  let z := snd (body_xyz o) in
  let z := Np.clip z 0 0.8 in
  Ok (z / 0.8 + 1.0).

Section AliveBonus.
Context {math : Np.Math}.

(** The body of [if self.frame%30==0 and self.frame>100 and
    self.on_ground_frame_counter==0:], which throws the cube at the place
    where the robot is expected to be. *)
Definition attack (h : Harder) (self : Robot) : result Robot :=
  o <- getattr (observed self) ;;
  let '(tx, ty, tz) := body_xyz o in
  let '(sx, sy, sz) := speed (robot_body self) in
  let '(angle, rs) := Np.uniform (- 3.14) 3.14 (np_random self) in
  let from_dist := 4.0 in
  let '(attack_speed, rs) := Np.uniform 20.0 30.0 rs in
  let time_to_travel := from_dist / attack_speed in
  let '(tx, ty, tz) := (tx + sx * time_to_travel, ty + sy * time_to_travel,
                        tz + sz * time_to_travel) in
  let '(px, py, pz) := (tx + from_dist * Np.cos angle,
                        ty + from_dist * Np.sin angle,
                        tz + 1.0) in
  let '(ax, ay, az) := (tx - px, ty - py, tz - pz) in
  let k := attack_speed / Np.linalg_norm [ax; ay; az] in
  let '(ax, ay, az) := (ax * k, ay * k, az * k) in
  let '((nx, ny, nz), rs) := Np.uniform3 (- 1.0) 1.0 rs in
  let '(ax, ay, az) := (ax + nx, ay + ny, az + nz) in
  let cube := reset_position (px, py, pz) (aggressive_cube h) in
  let cube := reset_velocity (ax, ay, az) cube in
  Ok (set_harder (Bound (set_aggressive_cube cube h)) (set_np_random rs self)).

Definition alive_bonus (z pitch : Q) (self : Robot) : result (Q * Robot) :=
  frame' <- getattr (frame self) ;;
  self <- (if (frame' mod 30 =? 0)%Z && (frame' >? 100)%Z then
             h <- getattr (harder self) ;;
             if (on_ground_frame_counter h =? 0)%Z then attack h self
             else Ok self
           else Ok self) ;;
  h <- getattr (harder self) ;;
  let h :=
    if ltb z 0.8 then
      set_on_ground_frame_counter (on_ground_frame_counter h + 1) h
    else if (on_ground_frame_counter h >? 0)%Z then
      set_on_ground_frame_counter (on_ground_frame_counter h - 1) h
    else h in
  let self := set_harder (Bound h) self in
  if (on_ground_frame_counter h <? 170)%Z then
    leak <- potential_leak self ;;
    Ok (leak, self)
  else Ok (- (1), self).

End AliveBonus.

(** The first part of [calc_potential]: the value of
    [flag_running_progress] at the [return] statement, and the updated
    crawl attributes. *)
Definition flag_running_progress (self : Robot) : result (Q * Robot) :=
  flag_running_progress <- WalkerBase.calc_potential self ;;
  o <- getattr (observed self) ;;
  h <- getattr (harder self) ;;
  if ltb (snd (body_xyz o)) 0.8 then
    let h :=
      match crawl_start_potential h with
      | None =>
          set_crawl_start_potential
            (Some (flag_running_progress - crawl_ignored_potential h)) h
      | Some _ => h
      end in
    match crawl_start_potential h with
    | None => Raise TypeError
    | Some start =>
        let h := set_crawl_ignored_potential (flag_running_progress - start) h in
        let flag_running_progress := start in
        Ok (flag_running_progress, set_harder (Bound h) self)
    end
  else
    let flag_running_progress :=
      flag_running_progress - crawl_ignored_potential h in
    let h := set_crawl_start_potential None h in
    Ok (flag_running_progress, set_harder (Bound h) self).

Definition calc_potential (self : Robot) : result (Q * Robot) :=
  '(flag_running_progress, self) <- flag_running_progress self ;;
  leak <- potential_leak self ;;
  Ok (flag_running_progress + leak * 100, self).

End HumanoidFlagrunHarder.

(* ------------------------------------------------------------------ *)
(** *** class Atlas(WalkerBase, URDFBasedRobot) *)
(* ------------------------------------------------------------------ *)

Module Atlas.

Definition __init__ (args : list Robot) : result Robot :=
  match args with
  | [self] =>
      let self := WalkerBase.__init__ 2.9 self in
      Ok (XmlBasedRobot__init__
            "atlas/atlas_description/atlas_v4_with_multisense.urdf" "pelvis"
            30 70 self)
  | _ => Raise TypeError
  end.

Definition alive_bonus (z pitch : Q) (self : Robot) : result Q :=
  h <- getattr (head self) ;;
  head_part <- getitem (parts self) h ;;
  let '(x, y, z) := pose_xyz head_part in
  l_leg_kny <- jdict_get (ordered_joints self) "l_leg_kny" ;;
  r_leg_kny <- jdict_get (ordered_joints self) "r_leg_kny" ;;
  let knees :=
    Np.array_float32
      (flat_map (fun j => let '(pos, vel) := current_relative_position j in
                          [pos; vel]) [l_leg_kny; r_leg_kny]) in
  let knees_at_limit := Np.count_abs_gt (slice_0_2 knees) 0.99 in
  Ok (if gtb z 1.3 then 4 - inject_Z (Z.of_nat knees_at_limit) else - (1)).

Definition set_initial_orientation (cls : Class) (yaw_center yaw_random_spread : Q)
  (self : Robot) : Robot :=
  let '(yaw, self) :=
    if negb (random_yaw cls) then (yaw_center, self)
    else
      let '(u, rs) := Np.uniform (- yaw_random_spread) yaw_random_spread
                        (np_random self) in
      (yaw_center + u, set_np_random rs self) in
  let '(sx, sy, sz) := start_pos self in
  let position := (sx, sy, sz + 1.0) in
  let orientation := (0, 0, yaw) in
  let self := set_robot_body (reset_pose position orientation (robot_body self))
                self in
  set_initial_z (Bound (Some 1.5)) self.

Definition robot_specific_reset (cls : Class) (self : Robot) : result Robot :=
  self <- WalkerBase.robot_specific_reset cls self ;;
  let self := set_initial_orientation cls 0 Np.pi self in
  _ <- getitem (parts self) "head" ;;
  Ok (set_head (Bound "head"%string) self).

End Atlas.

(* ------------------------------------------------------------------ *)
(** *** Method resolution *)
(* ------------------------------------------------------------------ *)

(** A bare instance, as [object.__new__] leaves it: nothing is assigned.
    The fields that are not optional hold placeholders, which [__init__]
    and the loading of the model overwrite. *)
Definition bare : Robot :=
  let origin := {| pose_xyz := (0, 0, 0); pose_rpy := (0, 0, 0);
                   speed := (0, 0, 0) |} in
  {| model_file := ""; robot_name := ""; action_dim := 0; obs_dim := 0;
     ordered_joints := []; robot_body := origin; limbs := [];
     scene := {| dt := 0; stadium_halflen := 0; stadium_halfwidth := 0;
                 actors_introduced := 0 |};
     np_random := {| Np.samples := fun _ => 0; Np.consumed := 0 |};
     frame := Unbound; power := 0; camera_x := 0; start_pos := (0, 0, 0);
     walk_target_x := 0; walk_target_y := 0; feet := Unbound;
     feet_contact := Unbound; initial_z := Unbound; observed := Unbound;
     motors := Unbound; flagrun := Unbound; potential := Unbound;
     harder := Unbound; head := Unbound |}.

Definition __init__ (cls : Class) : list Robot -> result Robot :=
  match cls with
  | Hopper => Hopper.__init__
  | Walker2D => Walker2D.__init__
  | HalfCheetah => HalfCheetah.__init__
  | Ant => Ant.__init__
  | Humanoid => Humanoid.__init__
  | HumanoidFlagrun => HumanoidFlagrun.__init__
  | HumanoidFlagrunHarder => HumanoidFlagrunHarder.__init__
  | Atlas => Atlas.__init__
  end.

(** The call [cls()]: a bare instance is made and handed to [__init__]. *)
Definition construct (cls : Class) : result Robot := __init__ cls [bare].

Definition robot_specific_reset (cls : Class) : Robot -> result Robot :=
  match cls with
  | Hopper | Ant => WalkerBase.robot_specific_reset cls
  | Walker2D => Walker2D.robot_specific_reset cls
  | HalfCheetah => HalfCheetah.robot_specific_reset cls
  | Humanoid => Humanoid.robot_specific_reset cls
  | HumanoidFlagrun => HumanoidFlagrun.robot_specific_reset cls
  | HumanoidFlagrunHarder => HumanoidFlagrunHarder.robot_specific_reset cls
  | Atlas => Atlas.robot_specific_reset cls
  end.

Definition apply_action (cls : Class) : list npfloat -> Robot -> result Robot :=
  match cls with
  | Humanoid | HumanoidFlagrun | HumanoidFlagrunHarder => Humanoid.apply_action
  | Hopper | Walker2D | HalfCheetah | Ant | Atlas => WalkerBase.apply_action
  end.

Definition calc_potential (cls : Class) (self : Robot) : result (Q * Robot) :=
  match cls with
  | HumanoidFlagrunHarder => HumanoidFlagrunHarder.calc_potential self
  | _ =>
      v <- WalkerBase.calc_potential self ;;
      Ok (v, self)
  end.

Section Resolution.
Context {math : Np.Math}.

Definition calc_state (cls : Class) : Robot -> result (list Q * Robot) :=
  match cls with
  | HumanoidFlagrun | HumanoidFlagrunHarder =>
      HumanoidFlagrun.calc_state (calc_potential cls)
  | _ => WalkerBase.calc_state
  end.

Definition alive_bonus (cls : Class) (z pitch : Q) (self : Robot)
  : result (Q * Robot) :=
  match cls with
  | Hopper => Ok (Hopper.alive_bonus z pitch, self)
  | Walker2D => Ok (Walker2D.alive_bonus z pitch, self)
  | HalfCheetah =>
      v <- HalfCheetah.alive_bonus z pitch self ;;
      Ok (v, self)
  | Ant => Ok (Ant.alive_bonus z pitch, self)
  | Humanoid | HumanoidFlagrun => Ok (Humanoid.alive_bonus z pitch, self)
  | HumanoidFlagrunHarder => HumanoidFlagrunHarder.alive_bonus z pitch self
  | Atlas =>
      v <- Atlas.alive_bonus z pitch self ;;
      Ok (v, self)
  end.

End Resolution.

(* ================================================================== *)
(** ** Vocabulary of the properties *)
(* ================================================================== *)

(** The classes that take [apply_action] from [WalkerBase]. *)
Definition inherits_apply_action (cls : Class) : bool :=
  match cls with
  | Hopper | Walker2D | HalfCheetah | Ant | Atlas => true
  | Humanoid | HumanoidFlagrun | HumanoidFlagrunHarder => false
  end.

(** The classes that take [calc_state] from [HumanoidFlagrun]. *)
Definition is_flagrun (cls : Class) : bool :=
  match cls with
  | HumanoidFlagrun | HumanoidFlagrunHarder => true
  | _ => false
  end.

(** The classes whose [robot_specific_reset] is that of [WalkerBase] up to
    torque coefficients. *)
Definition resets_initial_z (cls : Class) : bool :=
  match cls with
  | Hopper | Walker2D | HalfCheetah | Ant => true
  | _ => false
  end.

(** [clamp(x, lo, hi)] as the description uses it: [x] cut to [[lo, hi]]. *)
Definition clamp (x lo hi : Q) : Q :=
  if ltb x lo then lo else if ltb hi x then hi else x.

(** The dimensions that the description lists per variant. *)
Definition listed_obs_dim (cls : Class) : nat :=
  match cls with
  | Hopper => 15
  | Walker2D => 22
  | HalfCheetah => 26
  | Ant => 28
  | Humanoid | HumanoidFlagrun | HumanoidFlagrunHarder => 44
  | Atlas => 70
  end.

(** The height, the planar position and the distance to the target that a
    call of [calc_state] would read off the engine now. *)
Definition current_height (self : Robot) : Q := snd (pose_xyz (robot_body self)).

Definition current_xy (self : Robot) : Q * Q :=
  let parts_xyz := flat_map (fun p => let '(x, y, z) := pose_xyz p in [x; y; z])
                     (values (parts self)) in
  (Np.mean (slice_0_3 parts_xyz), Np.mean (slice_1_3 parts_xyz)).

Definition current_dist {math : Np.Math} (self : Robot) : Q :=
  Np.linalg_norm [walk_target_y self - snd (current_xy self);
                  walk_target_x self - fst (current_xy self)].

(** The magnitude beyond which a reading counts as above 0.99 once both
    are float32: halfway between the float32 nearest to 0.99, which is
    16609444 / 2^24, and the next float32.  It is 0.99000003933906555... *)
Definition knee_limit : Q := 33218889 # 33554432.

(** The number of the two knees whose normalised position exceeds
    [knee_limit] in magnitude. *)
Definition knees_pinned (l_leg_kny r_leg_kny : Joint) : nat :=
  (if gtb (Qabs (fst (current_relative_position l_leg_kny))) knee_limit
   then 1 else 0)
  + (if gtb (Qabs (fst (current_relative_position r_leg_kny))) knee_limit
     then 1 else 0).

(** What the first lines of [calc_state] leave in [initial_z], which held
    [iz]: the current height if it was [None]. *)
Definition latch_initial_z (iz : option Q) (self : Robot) : Robot :=
  match iz with
  | None => set_initial_z (Bound (Some (current_height self))) self
  | Some _ => self
  end.

(** What [robot_specific_reset] leaves in [initial_z]. *)
Definition initial_z_after_reset (cls : Class) : option Q :=
  match cls with
  | Hopper | Walker2D | HalfCheetah | Ant => None
  | Humanoid | HumanoidFlagrun | HumanoidFlagrunHarder => Some 0.8
  | Atlas => Some 1.5
  end.

(** The attributes that [calc_state] of class [cls] reads are assigned. *)
Definition ready (cls : Class) (self : Robot) : Prop :=
  (exists iz, initial_z self = Bound iz)
  /\ (exists fc, feet_contact self = Bound fc
                 /\ List.length fc = List.length (foot_list cls))
  /\ (is_flagrun cls = true -> exists f, flagrun self = Bound f)
  /\ (cls = HumanoidFlagrunHarder -> exists h, harder self = Bound h).

(** [self] carries the dimensions that the constructor of [cls] declares,
    and the loaded model has one joint per action. *)
Definition constructed (cls : Class) (self : Robot) : Prop :=
  (exists self0 r,
     __init__ cls [self0] = Ok r
     /\ action_dim self = action_dim r /\ obs_dim self = obs_dim r)
  /\ List.length (ordered_joints self) = action_dim self.

(** The attributes that a reset of the [WalkerBase] kind settles. *)
Definition reset_like_walker (cls : Class) (self self1 : Robot) : Prop :=
  feet_contact self1 = Bound (map (fun _ => 0) (foot_list cls))
  /\ flagrun self1 = flagrun self
  /\ harder self1 = harder self
  /\ robot_body self1 = robot_body self
  /\ start_pos self1 = start_pos self
  /\ List.length (ordered_joints self1) = List.length (ordered_joints self).

(** The assignments [self.jdict[n].power_coef = c] of a reset, in the
    order of the source. *)
Definition power_coef_table (cls : Class) : list (string * Q) :=
  match cls with
  | Walker2D => [("foot_joint", 30.0); ("foot_left_joint", 30.0)]
  | HalfCheetah => [("bthigh", 120.0); ("bshin", 90.0); ("bfoot", 60.0);
                    ("fthigh", 140.0); ("fshin", 60.0); ("ffoot", 30.0)]
  | _ => []
  end%string.

Fixpoint set_power_coef_table (table : list (string * Q)) (joints : list Joint)
  : result (list Joint) :=
  match table with
  | [] => Ok joints
  | (n, c) :: table' =>
      joints' <- jdict_update (set_power_coef c) joints n ;;
      set_power_coef_table table' joints'
  end.

(** The motors of the humanoid and their powers, in the order in which
    [Humanoid.robot_specific_reset] lists them. *)
Definition humanoid_motor_table : list (string * Q) :=
  [("abdomen_z", 100); ("abdomen_y", 100); ("abdomen_x", 100);
   ("right_hip_x", 100); ("right_hip_z", 100); ("right_hip_y", 300);
   ("right_knee", 200);
   ("left_hip_x", 100); ("left_hip_z", 100); ("left_hip_y", 300);
   ("left_knee", 200);
   ("right_shoulder1", 75); ("right_shoulder2", 75); ("right_elbow", 75);
   ("left_shoulder1", 75); ("left_shoulder2", 75); ("left_elbow", 75)]%string.

(** The environment between two ticks, as far as [alive_bonus] is
    concerned: it advances the frame counter, and the physics step and
    [calc_state] leave a new observation. *)
Definition next_tick (fr : Z) (o : Observed) (self : Robot) : Robot :=
  {| model_file := model_file self; robot_name := robot_name self;
     action_dim := action_dim self; obs_dim := obs_dim self;
     ordered_joints := ordered_joints self; robot_body := robot_body self;
     limbs := limbs self; scene := scene self; np_random := np_random self;
     frame := Bound fr; power := power self; camera_x := camera_x self;
     start_pos := start_pos self; walk_target_x := walk_target_x self;
     walk_target_y := walk_target_y self; feet := feet self;
     feet_contact := feet_contact self; initial_z := initial_z self;
     observed := Bound o; motors := motors self;
     flagrun := flagrun self; potential := potential self;
     harder := harder self; head := head self |}.

(** The alive bonus of a [HumanoidFlagrunHarder] over consecutive ticks,
    each given by its frame number, its observation and the height passed
    to [alive_bonus]. *)
Fixpoint alive_bonus_trace {math : Np.Math} (ticks : list (Z * Observed * Q))
  (self : Robot) : result (list Q * Robot) :=
  match ticks with
  | [] => Ok ([], self)
  | (fr, o, z) :: ticks' =>
      '(v, self) <- HumanoidFlagrunHarder.alive_bonus z 0 (next_tick fr o self) ;;
      '(vs, self) <- alive_bonus_trace ticks' self ;;
      Ok (v :: vs, self)
  end.

(** The condition under which [alive_bonus] throws the cube. *)
Definition attack_scheduled (fr : Z) (h : Harder) : bool :=
  (fr mod 30 =? 0)%Z && (fr >? 100)%Z && (on_ground_frame_counter h =? 0)%Z.

(** An entry of [feet_contact] that registers contact. *)
Definition touching (fc : list Q) (i : nat) : Prop :=
  exists c, nth_error fc i = Some c /\ ~ c == 0.

(** What [Humanoid.calc_potential] returns once [calc_state] has observed
    [o]. *)
Definition raw_progress (self : Robot) (o : Observed) : Q :=
  - walk_target_dist o / dt (scene self).

(** The robot is down in observation [o]. *)
Definition down (o : Observed) : Prop := snd (body_xyz o) < 0.8.

(** The environment between two ticks, as far as [calc_potential] is
    concerned: the physics step and [calc_state] leave a new observation. *)
Definition observe (o : Observed) (self : Robot) : Robot :=
  set_observed (Bound o) self.

(** The share of the alive bonus in the potential at observation [o]:
    100 at height 0 and below, 200 at height 0.8 and above. *)
Definition leak_term (o : Observed) : Q :=
  (Np.clip (snd (body_xyz o)) 0 0.8 / 0.8 + 1.0) * 100.

(** The potential that [calc_potential] of a [HumanoidFlagrunHarder]
    returns over consecutive ticks. *)
Fixpoint potential_trace (obs : list Observed) (self : Robot)
  : result (list Q * Robot) :=
  match obs with
  | [] => Ok ([], self)
  | o :: obs' =>
      '(v, self) <- calc_potential HumanoidFlagrunHarder (observe o self) ;;
      '(vs, self) <- potential_trace obs' self ;;
      Ok (v :: vs, self)
  end.

(* ================================================================== *)
(** ** Concrete robots *)
(* ================================================================== *)

(** A computable stand-in for numpy's functions, for running the methods
    on concrete robots: short Taylor polynomials, a quotient for the
    arctangent, and a square root that is exact on squares of rationals
    and rounded down otherwise. *)
Module Rational.

Definition sqrt (x : Q) : Q := Z.sqrt (Qnum x * Zpos (Qden x)) # Qden x.

Definition sin (x : Q) : Q := x - x * x * x / 6 + x * x * x * x * x / 120.

Definition cos (x : Q) : Q := 1 - x * x / 2 + x * x * x * x / 24.

Definition arctan (t : Q) : Q := t / (1 + 0.28 * t * t).

Definition arctan2 (y x : Q) : Q :=
  if Qeq_bool x 0 && Qeq_bool y 0 then 0
  else if leb (Qabs y) (Qabs x) then
    if ltb 0 x then arctan (y / x)
    else if leb 0 y then arctan (y / x) + Np.pi
    else arctan (y / x) - Np.pi
  else
    if ltb 0 y then Np.pi / 2 - arctan (x / y)
    else - Np.pi / 2 - arctan (x / y).

Definition linalg_norm (v : list Q) : Q :=
  sqrt (Np.sum (map (fun x => x * x) v)).

End Rational.

Definition rational_math : Np.Math :=
  {| Np.sin := Rational.sin; Np.cos := Rational.cos;
     Np.arctan2 := Rational.arctan2;
     Np.linalg_norm := Rational.linalg_norm |}.

(** Modelled from the spec: what loading the model into a scene leaves on
    the instance (the joints, the parts, the scene and the random source)
    and the frame counter the environment keeps. *)
Definition load (joints : list Joint) (body : BodyPart) (others : dict BodyPart)
  (sc : Scene) (rs : Np.RandomState) (fr : Z) (self : Robot) : Robot :=
  {| model_file := model_file self; robot_name := robot_name self;
     action_dim := action_dim self; obs_dim := obs_dim self;
     ordered_joints := joints; robot_body := body; limbs := others;
     scene := sc; np_random := rs; frame := Bound fr;
     power := power self; camera_x := camera_x self;
     start_pos := start_pos self; walk_target_x := walk_target_x self;
     walk_target_y := walk_target_y self; feet := feet self;
     feet_contact := feet_contact self; initial_z := initial_z self;
     observed := observed self; motors := motors self;
     flagrun := flagrun self; potential := potential self;
     harder := harder self; head := head self |}.

Module Example.

Definition joint (name : string) (pos vel : Q) : Joint :=
  {| joint_name := name; power_coef := 1; joint_state := (pos, vel);
     normalised := fun s => s; motor_torque := None |}.

Definition part (x y z : Q) : BodyPart :=
  {| pose_xyz := (x, y, z); pose_rpy := (0, 0, 0); speed := (0, 0, 0) |}.

Definition stadium : Scene :=
  {| dt := 0.0165; stadium_halflen := 52.5; stadium_halfwidth := 25;
     actors_introduced := 0 |}.

Definition rng : Np.RandomState :=
  {| Np.samples := fun n => 1 # Pos.of_succ_nat (S n); Np.consumed := 0 |}.

(** The result of a call, or the bare instance if the call raised. *)
Definition get (c : result Robot) : Robot :=
  match c with
  | Ok r => r
  | Raise _ => bare
  end.

(** A hopper, constructed and loaded, standing at height 1.25. *)
Definition hopper : Robot :=
  load [joint "thigh_joint" 0 0; joint "leg_joint" 0 0; joint "foot_joint" 0 0]
       (part 0 0 1.25) [("foot"%string, part 0 0 0.1)] stadium rng 0
       (get (construct Hopper)).

(** A half cheetah some ticks after a reset. *)
Definition cheetah : Robot :=
  set_feet_contact (Bound [1; 0; 0; 1; 0; 0])
    (load [] (part 0 0 0.6) [] stadium rng 0 (get (construct HalfCheetah))).

Definition humanoid_joints : list Joint :=
  map (fun n => joint n 0 0)
    ["abdomen_z"; "abdomen_y"; "abdomen_x";
     "right_hip_x"; "right_hip_z"; "right_hip_y"; "right_knee";
     "left_hip_x"; "left_hip_z"; "left_hip_y"; "left_knee";
     "right_shoulder1"; "right_shoulder2"; "right_elbow";
     "left_shoulder1"; "left_shoulder2"; "left_elbow"]%string.

Definition humanoid_limbs : dict BodyPart :=
  [("right_foot"%string, part 0 0 0.1); ("left_foot"%string, part 0 0 0.1)].

(** A humanoid, constructed and loaded, standing at height 1.4. *)
Definition humanoid : Robot :=
  load humanoid_joints (part 0 0 1.4) humanoid_limbs stadium rng 0
       (get (construct Humanoid)).

(** A flagrun humanoid in the middle of an episode: the last tick left
    [walk_target_dist] at 0.5, the flag now stands 3 away from the robot
    and has 100 ticks left. *)
Definition flagrunner : Robot :=
  let r := load humanoid_joints (part 0 0 1.4) humanoid_limbs stadium rng 0
             (get (construct HumanoidFlagrun)) in
  let r := get (HumanoidFlagrun.robot_specific_reset HumanoidFlagrun r) in
  let r := set_walk_target_x 3 (set_walk_target_y 0 r) in
  let r := set_flagrun (Bound {| flag := Some (get_sphere 3 0 0.2);
                                 flag_timeout := 100 |}) r in
  set_observed (Bound {| joint_speeds := []; joints_at_limit := 0;
                         body_xyz := (0, 0, 1.4); body_rpy := (0, 0, 0);
                         walk_target_theta := 0;
                         walk_target_dist := 0.5 |}) r.

(** The state of a harder flagrun humanoid after its reset and a first
    observation (no such instance comes out of the constructor; the
    attributes are those of a flagrun humanoid). *)
Definition harder_runner : Robot :=
  let r := load humanoid_joints (part 0 0 1.4) humanoid_limbs stadium rng 7
             (get (construct HumanoidFlagrun)) in
  let r := get (HumanoidFlagrunHarder.robot_specific_reset HumanoidFlagrunHarder r) in
  set_observed (Bound {| joint_speeds := []; joints_at_limit := 0;
                         body_xyz := (0, 0, 0.4); body_rpy := (0, 0, 0);
                         walk_target_theta := 0;
                         walk_target_dist := 3 |}) r.

(** An Atlas whose head is at height 1 (it has fallen on its knees). *)
Definition atlas : Robot :=
  let r := load [joint "l_leg_kny" 1 0; joint "r_leg_kny" 0 0]
             (part 0 0 0.6)
             [("r_foot"%string, part 0 0 0.1); ("l_foot"%string, part 0 0 0.1);
              ("head"%string, part 0 0 1)]
             stadium rng 0 (get (construct Atlas)) in
  set_head (Bound "head"%string) r.

(** An Atlas standing with its head at 1.5, the left knee at 0.99000001
    and the right knee at -0.99000004. *)
Definition atlas_tall : Robot :=
  let r := load [joint "l_leg_kny" 0.99000001 0;
                 joint "r_leg_kny" (- 0.99000004) 0]
             (part 0 0 0.9)
             [("r_foot"%string, part 0 0 0.1); ("l_foot"%string, part 0 0 0.1);
              ("head"%string, part 0 0 1.5)]
             stadium rng 0 (get (construct Atlas)) in
  set_head (Bound "head"%string) r.

Definition observation (z dist : Q) : Observed :=
  {| joint_speeds := []; joints_at_limit := 0; body_xyz := (0, 0, z);
     body_rpy := (0, 0, 0); walk_target_theta := 0; walk_target_dist := dist |}.

(** The hopper after its reset. *)
Definition hopper_reset : Robot := get (robot_specific_reset Hopper hopper).

(** The humanoid after its reset. *)
Definition humanoid_reset : Robot :=
  get (robot_specific_reset Humanoid humanoid).

(** The flagrun humanoid when its flag is about to expire. *)
Definition flagrunner_late : Robot :=
  set_flagrun (Bound {| flag := None; flag_timeout := 1 |}) flagrunner.

(** A flagrun humanoid, constructed and loaded, and the same after its
    reset. *)
Definition flagrunner_loaded : Robot :=
  load humanoid_joints (part 0 0 1.4) humanoid_limbs stadium rng 0
       (get (construct HumanoidFlagrun)).

Definition flagrunner_reset : Robot :=
  get (HumanoidFlagrun.robot_specific_reset HumanoidFlagrun flagrunner_loaded).

(** The Atlas after its reset. *)
Definition atlas_reset : Robot := get (robot_specific_reset Atlas atlas).

(** A walker, constructed and loaded, and the same after its reset. *)
Definition walker2d : Robot :=
  load (map (fun n => joint n 0 0)
          ["thigh_joint"; "leg_joint"; "foot_joint";
           "thigh_left_joint"; "leg_left_joint"; "foot_left_joint"]%string)
       (part 0 0 1.25)
       [("foot"%string, part 0 0 0.1); ("foot_left"%string, part 0 0 0.1)]
       stadium rng 0 (get (construct Walker2D)).

Definition walker2d_reset : Robot :=
  get (robot_specific_reset Walker2D walker2d).

(** A harder flagrun humanoid after its reset. *)
Definition harder_reset : Robot :=
  get (robot_specific_reset HumanoidFlagrunHarder flagrunner_loaded).

End Example.

(* ================================================================== *)
(** ** Properties *)
(* ================================================================== *)

(** *** Comparisons and clipping *)

Lemma ltb_lt (x y : Q) : ltb x y = true <-> x < y.
Proof.
  unfold ltb. rewrite negb_true_iff, <- not_true_iff_false, Qle_bool_iff.
  split; [apply Qnot_le_lt | apply Qlt_not_le].
Qed.

Lemma ltb_ge (x y : Q) : ltb x y = false <-> y <= x.
Proof.
  unfold ltb. rewrite negb_false_iff. apply Qle_bool_iff.
Qed.

Lemma leb_le (x y : Q) : leb x y = true <-> x <= y.
Proof. apply Qle_bool_iff. Qed.

Lemma gtb_gt (x y : Q) : gtb x y = true <-> y < x.
Proof. apply ltb_lt. Qed.

Lemma gtb_le (x y : Q) : gtb x y = false <-> x <= y.
Proof. apply ltb_ge. Qed.

Lemma truthy_false (x : Q) : truthy x = false <-> x == 0.
Proof.
  unfold truthy. rewrite negb_false_iff. apply Qeq_bool_iff.
Qed.

Lemma truthy_true (x : Q) : truthy x = true <-> ~ x == 0.
Proof.
  rewrite <- truthy_false. destruct (truthy x); intuition congruence.
Qed.

Lemma clip_cases (x lo hi : Q) :
  lo <= hi ->
  (x < lo /\ Np.clip x lo hi == lo)
  \/ (lo <= x <= hi /\ Np.clip x lo hi == x)
  \/ (hi < x /\ Np.clip x lo hi == hi).
Proof.
  intros Hlh. unfold Np.clip.
  destruct (Qlt_le_dec x lo) as [Hlo | Hlo].
  - left. split; [exact Hlo |].
    rewrite (Q.max_r x lo) by (apply Qlt_le_weak; exact Hlo).
    apply Q.min_l. exact Hlh.
  - rewrite (Q.max_l x lo) by exact Hlo.
    destruct (Qlt_le_dec hi x) as [Hhi | Hhi].
    + right. right. split; [exact Hhi |].
      apply Q.min_r. apply Qlt_le_weak. exact Hhi.
    + right. left. split; [split; assumption |].
      apply Q.min_l. exact Hhi.
Qed.

Lemma clip_bounds (x lo hi : Q) : lo <= hi -> lo <= Np.clip x lo hi <= hi.
Proof.
  intros Hlh.
  destruct (clip_cases x lo hi Hlh) as [[H E] | [[[H1 H2] E] | [H E]]];
    rewrite E; lra.
Qed.

Lemma clip_clamp (x lo hi : Q) : lo <= hi -> Np.clip x lo hi == clamp x lo hi.
Proof.
  intros Hlh. unfold clamp.
  destruct (ltb x lo) eqn:Elo.
  - apply ltb_lt in Elo.
    destruct (clip_cases x lo hi Hlh) as [[H E] | [[[H1 H2] E] | [H E]]];
      rewrite E; lra.
  - apply ltb_ge in Elo. destruct (ltb hi x) eqn:Ehi.
    + apply ltb_lt in Ehi.
      destruct (clip_cases x lo hi Hlh) as [[H E] | [[[H1 H2] E] | [H E]]];
        rewrite E; lra.
    + apply ltb_ge in Ehi.
      destruct (clip_cases x lo hi Hlh) as [[H E] | [[[H1 H2] E] | [H E]]];
        rewrite E; lra.
Qed.

Lemma clip_monotone (x y lo hi : Q) :
  lo <= hi -> x <= y -> Np.clip x lo hi <= Np.clip y lo hi.
Proof.
  intros Hlh Hxy.
  destruct (clip_cases x lo hi Hlh) as [[Hx Ex] | [[[Hx1 Hx2] Ex] | [Hx Ex]]];
    destruct (clip_cases y lo hi Hlh) as [[Hy Ey] | [[[Hy1 Hy2] Ey] | [Hy Ey]]];
    rewrite Ex, Ey; lra.
Qed.

Lemma clip_array_length (v : list Q) (lo hi : Q) :
  List.length (Np.clip_array v lo hi) = List.length v.
Proof. unfold Np.clip_array. apply length_map. Qed.

Lemma clip_array_bounds (v : list Q) (lo hi : Q) :
  lo <= hi -> Forall (fun x => lo <= x <= hi) (Np.clip_array v lo hi).
Proof.
  intros Hlh. unfold Np.clip_array. apply Forall_forall. intros x Hx.
  apply in_map_iff in Hx. destruct Hx as [y [<- _]].
  apply clip_bounds. exact Hlh.
Qed.

(** *** Floats: rounding to a binary format *)

(** *** Rounding to an integer *)

Lemma rint_cases (z : Q) :
  (Np.rint z = Qfloor z /\ z - inject_Z (Qfloor z) <= 1 # 2)
  \/ (Np.rint z = (Qfloor z + 1)%Z /\ 1 # 2 <= z - inject_Z (Qfloor z)).
Proof.
  unfold Np.rint. destruct (Qcompare (z - inject_Z (Qfloor z)) (1 # 2)) eqn:E.
  - apply Qeq_alt in E. destruct (Z.even (Qfloor z)).
    + left. split; [reflexivity | rewrite E; apply Qle_refl].
    + right. split; [reflexivity | rewrite E; apply Qle_refl].
  - apply Qlt_alt in E. left. split; [reflexivity | apply Qlt_le_weak; exact E].
  - apply Qgt_alt in E. right. split; [reflexivity | apply Qlt_le_weak; exact E].
Qed.

Lemma rint_near (z : Q) : Qabs (inject_Z (Np.rint z) - z) <= 1 # 2.
Proof.
  pose proof (Qfloor_le z) as Hlo. pose proof (Qlt_floor z) as Hhi.
  rewrite inject_Z_plus in Hhi. change (inject_Z 1) with 1 in Hhi.
  apply Qabs_Qle_condition.
  destruct (rint_cases z) as [[-> H] | [-> H]].
  - split; lra.
  - rewrite inject_Z_plus. change (inject_Z 1) with 1. split; lra.
Qed.

Lemma rint_ge_int (n : Z) (z : Q) : inject_Z n <= z -> (n <= Np.rint z)%Z.
Proof.
  intros H. apply Qfloor_resp_le in H. rewrite Qfloor_Z in H.
  destruct (rint_cases z) as [[-> _] | [-> _]]; lia.
Qed.

Lemma rint_le_int (n : Z) (z : Q) : z <= inject_Z n -> (Np.rint z <= n)%Z.
Proof.
  intros H. pose proof (Qfloor_resp_le _ _ H) as Hf. rewrite Qfloor_Z in Hf.
  destruct (rint_cases z) as [[-> _] | [-> Hhalf]]; [exact Hf |].
  destruct (Z.eq_dec (Qfloor z) n) as [E | Hne]; [| lia].
  exfalso. rewrite E in Hhalf. lra.
Qed.

Lemma rint_gt_even (n : Z) (z : Q) :
  Z.even n = true -> ((n < Np.rint z)%Z <-> inject_Z n + (1 # 2) < z).
Proof.
  intros Heven.
  pose proof (Qfloor_le z) as Hlo. pose proof (Qlt_floor z) as Hhi.
  rewrite inject_Z_plus in Hhi. change (inject_Z 1) with 1 in Hhi.
  assert (Hinj : forall a b : Z, (a <= b)%Z -> inject_Z a <= inject_Z b).
  { intros a b Hab. rewrite <- Zle_Qle. exact Hab. }
  split.
  - intros Hlt. destruct (Z_lt_le_dec n (Qfloor z)) as [Hbig | Hsmall].
    + assert (H1 : inject_Z (n + 1) <= inject_Z (Qfloor z)) by (apply Hinj; lia).
      rewrite inject_Z_plus in H1. change (inject_Z 1) with 1 in H1.
      assert (H2 : ~ z - inject_Z (Qfloor z) == 0 \/ z - inject_Z (Qfloor z) == 0)
        by (destruct (Qeq_dec (z - inject_Z (Qfloor z)) 0); tauto).
      lra.
    + unfold Np.rint in Hlt.
      destruct (Qcompare (z - inject_Z (Qfloor z)) (1 # 2)) eqn:E.
      * destruct (Z.even (Qfloor z)) eqn:Ef; [lia |].
        assert (Qfloor z = n) by lia. subst n. congruence.
      * lia.
      * apply Qgt_alt in E. assert (Qfloor z = n) by lia. subst n. lra.
  - intros Hlt. destruct (Z_lt_le_dec (Qfloor z) n) as [Hsmall | Hbig].
    + exfalso.
      assert (H1 : inject_Z (Qfloor z + 1) <= inject_Z n) by (apply Hinj; lia).
      rewrite inject_Z_plus in H1. change (inject_Z 1) with 1 in H1. lra.
    + destruct (Z.eq_dec (Qfloor z) n) as [E | Hne].
      * unfold Np.rint.
        destruct (Qcompare (z - inject_Z (Qfloor z)) (1 # 2)) eqn:Ec.
        -- apply Qeq_alt in Ec. rewrite E in Ec. lra.
        -- apply Qlt_alt in Ec. rewrite E in Ec. lra.
        -- lia.
      * destruct (rint_cases z) as [[-> _] | [-> _]]; lia.
Qed.

(** *** Powers of two *)

Lemma pow2_pos (k : Z) : 0 < 2 ^ k.
Proof. apply Qpower_0_lt. reflexivity. Qed.

Lemma pow2_plus (a b : Z) : 2 ^ (a + b) == 2 ^ a * 2 ^ b.
Proof. apply Qpower_plus. discriminate. Qed.

Lemma pow2_split (a b : Z) : 2 ^ a == 2 ^ (a - b) * 2 ^ b.
Proof. rewrite <- pow2_plus. replace (a - b + b)%Z with a by lia. reflexivity. Qed.

Lemma pow2_le (a b : Z) : (a <= b)%Z -> 2 ^ a <= 2 ^ b.
Proof. intros H. apply Qpower_le_compat_l; [exact H | discriminate]. Qed.

Lemma pow2_lt (a b : Z) : (a < b)%Z -> 2 ^ a < 2 ^ b.
Proof. intros H. apply Qpower_lt_compat_l; [exact H | reflexivity]. Qed.

Lemma pow2_lt_inv (a b : Z) : 2 ^ a < 2 ^ b -> (a < b)%Z.
Proof. intros H. apply (Qpower_lt_compat_l_inv 2); [exact H | reflexivity]. Qed.

Lemma pow2_inject (k : Z) : (0 <= k)%Z -> inject_Z (2 ^ k) == 2 ^ k.
Proof. intros H. exact (Zpower_Qpower 2 k H). Qed.

(** *** The exponent *)

Lemma ilog2_spec (x : Q) :
  0 < x -> 2 ^ Np.ilog2 x <= x /\ x < 2 ^ (Np.ilog2 x + 1).
Proof.
  intros Hx. destruct x as [n d].
  assert (Hn : (0 < n)%Z).
  { unfold Qlt in Hx. cbn in Hx. lia. }
  unfold Np.ilog2. cbn [Qnum Qden].
  set (a := Z.log2 n). set (b := Z.log2 (Z.pos d)).
  destruct (Z.log2_spec n Hn) as [Ha1 Ha2]. fold a in Ha1, Ha2.
  destruct (Z.log2_spec (Z.pos d) (Pos2Z.is_pos d)) as [Hb1 Hb2].
  fold b in Hb1, Hb2.
  assert (Ha0 : (0 <= a)%Z) by apply Z.log2_nonneg.
  assert (Hb0 : (0 <= b)%Z) by apply Z.log2_nonneg.
  assert (Hx' : n # d == inject_Z n / inject_Z (Z.pos d)) by apply Qmake_Qdiv.
  assert (Hd : 0 < inject_Z (Z.pos d)) by reflexivity.
  assert (Hhi : n # d < 2 ^ (a - b + 1)).
  { rewrite Hx'. apply Qlt_shift_div_r; [exact Hd |].
    apply Qlt_le_trans with (inject_Z (2 ^ (a + 1))).
    - rewrite <- Zlt_Qlt. replace (Z.succ a) with (a + 1)%Z in Ha2 by lia.
      exact Ha2.
    - rewrite pow2_inject by lia.
      replace (a + 1)%Z with ((a - b + 1) + b)%Z at 1 by lia.
      rewrite pow2_plus.
      apply Qmult_le_l; [apply pow2_pos |].
      rewrite <- pow2_inject by lia. rewrite <- Zle_Qle. exact Hb1. }
  assert (Hlo : 2 ^ (a - b - 1) < n # d).
  { rewrite Hx'. apply Qlt_shift_div_l; [exact Hd |].
    apply Qlt_le_trans with (inject_Z (2 ^ a)).
    - rewrite pow2_inject by lia.
      replace a with ((a - b - 1) + (b + 1))%Z at 2 by lia.
      rewrite pow2_plus.
      apply Qmult_lt_l; [apply pow2_pos |].
      rewrite <- pow2_inject by lia. rewrite <- Zlt_Qlt.
      replace (Z.succ b) with (b + 1)%Z in Hb2 by lia. exact Hb2.
    - rewrite <- Zle_Qle. exact Ha1. }
  destruct (Qle_bool (2 ^ (a - b)) (n # d)) eqn:E.
  - apply Qle_bool_iff in E. split; assumption.
  - assert (E' : n # d < 2 ^ (a - b)).
    { apply Qnot_le_lt. intros H. apply Qle_bool_iff in H. congruence. }
    replace (a - b - 1 + 1)%Z with (a - b)%Z by lia.
    split; [apply Qlt_le_weak; exact Hlo | exact E'].
Qed.

Lemma ilog2_unique (x : Q) (e : Z) :
  2 ^ e <= x -> x < 2 ^ (e + 1) -> Np.ilog2 x = e.
Proof.
  intros Hlo Hhi.
  assert (Hx : 0 < x) by (apply Qlt_le_trans with (2 ^ e); [apply pow2_pos | exact Hlo]).
  destruct (ilog2_spec x Hx) as [Hlo' Hhi'].
  assert (H1 : (e < Np.ilog2 x + 1)%Z).
  { apply pow2_lt_inv. apply Qle_lt_trans with x; assumption. }
  assert (H2 : (Np.ilog2 x < e + 1)%Z).
  { apply pow2_lt_inv. apply Qle_lt_trans with x; assumption. }
  lia.
Qed.

Lemma ilog2_ge (x : Q) (k : Z) : 2 ^ k <= x -> (k <= Np.ilog2 x)%Z.
Proof.
  intros H.
  assert (Hx : 0 < x) by (apply Qlt_le_trans with (2 ^ k); [apply pow2_pos | exact H]).
  destruct (ilog2_spec x Hx) as [_ Hhi].
  assert (H1 : (k < Np.ilog2 x + 1)%Z).
  { apply pow2_lt_inv. apply Qle_lt_trans with x; assumption. }
  lia.
Qed.

Lemma ilog2_le (x : Q) (k : Z) : 0 < x -> x <= 2 ^ k -> (Np.ilog2 x <= k)%Z.
Proof.
  intros Hx H. destruct (ilog2_spec x Hx) as [Hlo _].
  destruct (Z_le_gt_dec (Np.ilog2 x) k) as [Hle | Hgt]; [exact Hle |].
  exfalso. assert (H1 : 2 ^ k < 2 ^ Np.ilog2 x) by (apply pow2_lt; lia). lra.
Qed.

(** *** Rounding a magnitude *)

Section Rounding.
Variables prec emin : Z.
Hypothesis Hprec : (1 <= prec)%Z.

Lemma round_mag_binade (x : Q) (e : Z) :
  (emin <= e)%Z -> 2 ^ e <= x -> x < 2 ^ (e + 1) ->
  Np.round_mag prec emin x
  = inject_Z (Np.rint (x / 2 ^ (e - prec + 1))) * 2 ^ (e - prec + 1).
Proof.
  intros He Hlo Hhi. unfold Np.round_mag.
  rewrite (ilog2_unique x e Hlo Hhi), Z.max_l by exact He. reflexivity.
Qed.

Lemma scaled_mul (x : Q) (k : Z) : x / 2 ^ k * 2 ^ k == x.
Proof.
  field. intros H. pose proof (pow2_pos k) as Hp. rewrite H in Hp.
  exact (Qlt_irrefl 0 Hp).
Qed.

Lemma scaled_pow (a k : Z) : 2 ^ a / 2 ^ k == 2 ^ (a - k).
Proof.
  rewrite (pow2_split a k). field. intros H. pose proof (pow2_pos k) as Hp. rewrite H in Hp.
  exact (Qlt_irrefl 0 Hp).
Qed.

Lemma scaled_le (x y : Q) (k : Z) : x <= y -> x / 2 ^ k <= y / 2 ^ k.
Proof.
  intros H. apply Qmult_le_compat_r; [exact H |].
  apply Qlt_le_weak. apply Qinv_lt_0_compat. apply pow2_pos.
Qed.

Lemma round_mag_ge (x : Q) (k : Z) :
  (emin <= k)%Z -> 2 ^ k <= x -> 2 ^ k <= Np.round_mag prec emin x.
Proof.
  intros Hk Hlo.
  assert (Hx : 0 < x) by (apply Qlt_le_trans with (2 ^ k); [apply pow2_pos | exact Hlo]).
  destruct (ilog2_spec x Hx) as [Hlo' Hhi'].
  pose proof (ilog2_ge x k Hlo) as Hke.
  rewrite (round_mag_binade x (Np.ilog2 x)) by (lia || assumption).
  set (e := Np.ilog2 x) in *.
  assert (Hm : (2 ^ (prec - 1) <= Np.rint (x / 2 ^ (e - prec + 1)))%Z).
  { apply rint_ge_int. rewrite pow2_inject by lia.
    replace (prec - 1)%Z with (e - (e - prec + 1))%Z by lia.
    rewrite <- scaled_pow. apply scaled_le. exact Hlo'. }
  apply Qle_trans with (2 ^ e); [apply pow2_le; exact Hke |].
  rewrite (pow2_split e (e - prec + 1)).
  replace (e - (e - prec + 1))%Z with (prec - 1)%Z by lia.
  apply Qmult_le_compat_r; [| apply Qlt_le_weak; apply pow2_pos].
  rewrite <- (pow2_inject (prec - 1)) by lia. rewrite <- Zle_Qle. exact Hm.
Qed.

Lemma round_mag_le (x : Q) (k : Z) :
  0 < x -> (emin <= k)%Z -> x <= 2 ^ k -> Np.round_mag prec emin x <= 2 ^ k.
Proof.
  intros Hx Hk Hhi. unfold Np.round_mag.
  pose proof (ilog2_le x k Hx Hhi) as Hile.
  set (e := Z.max (Np.ilog2 x) emin).
  assert (He : (e <= k)%Z) by (subst e; lia).
  assert (Hm : (Np.rint (x / 2 ^ (e - prec + 1)) <= 2 ^ (k - (e - prec + 1)))%Z).
  { apply rint_le_int. rewrite pow2_inject by lia.
    rewrite <- scaled_pow. apply scaled_le. exact Hhi. }
  rewrite (pow2_split k (e - prec + 1)).
  apply Qmult_le_compat_r; [| apply Qlt_le_weak; apply pow2_pos].
  rewrite <- (pow2_inject (k - (e - prec + 1))) by lia.
  rewrite <- Zle_Qle. exact Hm.
Qed.

Lemma round_mag_nonneg (x : Q) : 0 < x -> 0 <= Np.round_mag prec emin x.
Proof.
  intros Hx. unfold Np.round_mag.
  apply Qmult_le_0_compat; [| apply Qlt_le_weak; apply pow2_pos].
  change 0 with (inject_Z 0). rewrite <- Zle_Qle. apply rint_ge_int.
  apply Qle_shift_div_l; [apply pow2_pos |]. change (inject_Z 0) with 0. lra.
Qed.

(** The rounding error: half a unit in the last place, that is a
    fraction [2^-prec] of the magnitude, or [2^(emin-prec)] below the
    normal range. *)
Lemma round_mag_error (x : Q) :
  0 < x ->
  Qabs (Np.round_mag prec emin x - x) <= x * 2 ^ (- prec) + 2 ^ (emin - prec).
Proof.
  intros Hx. unfold Np.round_mag.
  destruct (ilog2_spec x Hx) as [Hlo _].
  set (e := Z.max (Np.ilog2 x) emin).
  set (ulp := 2 ^ (e - prec + 1)).
  assert (Hulp : 0 < ulp) by apply pow2_pos.
  assert (Hhalf : (1 # 2) * ulp == 2 ^ (e - prec)).
  { unfold ulp. replace (e - prec + 1)%Z with ((e - prec) + 1)%Z by lia.
    rewrite pow2_plus. change (2 ^ 1) with 2. field. }
  clearbody ulp.
  pose proof (rint_near (x / ulp)) as Hnear.
  assert (E : inject_Z (Np.rint (x / ulp)) * ulp - x
              == (inject_Z (Np.rint (x / ulp)) - x / ulp) * ulp).
  { field. intros H. rewrite H in Hulp. exact (Qlt_irrefl 0 Hulp). }
  rewrite E, Qabs_Qmult, (Qabs_pos ulp) by (apply Qlt_le_weak; exact Hulp).
  apply Qle_trans with ((1 # 2) * ulp).
  { apply Qmult_le_compat_r; [exact Hnear | apply Qlt_le_weak; exact Hulp]. }
  rewrite Hhalf.
  pose proof (pow2_pos (emin - prec)) as Hp1.
  pose proof (pow2_pos (- prec)) as Hp2.
  assert (Hxp : 0 <= x * 2 ^ (- prec)).
  { apply Qmult_le_0_compat; apply Qlt_le_weak; assumption. }
  destruct (Z.max_spec (Np.ilog2 x) emin) as [[_ Hmax] | [_ Hmax]]; fold e in Hmax;
    rewrite Hmax.
  - lra.
  - replace (Np.ilog2 x - prec)%Z with (Np.ilog2 x + - prec)%Z by lia.
    rewrite pow2_plus.
    assert (H1 : 2 ^ Np.ilog2 x * 2 ^ (- prec) <= x * 2 ^ (- prec)).
    { apply Qmult_le_compat_r; [exact Hlo | apply Qlt_le_weak; exact Hp2]. }
    lra.
Qed.

Variable emax : Z.
Hypothesis Hrange : (emin <= emax)%Z.

(** Within the range of the format the result is finite and near. *)
Lemma round_float_finite (x : Q) :
  Qabs x <= 2 ^ emax ->
  exists y,
    Np.round_float prec emin emax x = Fin y
    /\ Qabs (y - x) <= Qabs x * 2 ^ (- prec) + 2 ^ (emin - prec).
Proof.
  intros Hx. unfold Np.round_float.
  assert (Hlt : 2 ^ emax < 2 ^ (emax + 1)) by (apply pow2_lt; lia).
  pose proof (pow2_pos (- prec)) as Hp1.
  pose proof (pow2_pos (emin - prec)) as Hp2.
  destruct (Qcompare x 0) eqn:E.
  - apply Qeq_alt in E. exists 0. split; [reflexivity |].
    assert (H0 : Qabs (0 - x) == 0).
    { rewrite E. reflexivity. }
    rewrite H0. pose proof (Qabs_nonneg x) as Ha.
    assert (0 <= Qabs x * 2 ^ (- prec))
      by (apply Qmult_le_0_compat; [exact Ha | apply Qlt_le_weak; exact Hp1]).
    lra.
  - apply Qlt_alt in E.
    assert (Hpos : 0 < - x) by lra.
    assert (Habs : Qabs x == - x) by (apply Qabs_neg; lra).
    rewrite Habs in Hx.
    pose proof (round_mag_le (- x) emax Hpos Hrange Hx) as Hle.
    pose proof (round_mag_error (- x) Hpos) as Herr.
    destruct (Qle_bool (2 ^ (emax + 1)) (Np.round_mag prec emin (- x))) eqn:Eo.
    { apply Qle_bool_iff in Eo. exfalso. lra. }
    exists (- Np.round_mag prec emin (- x)). split; [reflexivity |].
    rewrite Habs.
    assert (Hsym : - Np.round_mag prec emin (- x) - x
                   == - (Np.round_mag prec emin (- x) - - x)) by ring.
    rewrite Hsym, Qabs_opp. exact Herr.
  - apply Qgt_alt in E.
    assert (Habs : Qabs x == x) by (apply Qabs_pos; lra).
    rewrite Habs in Hx.
    pose proof (round_mag_le x emax E Hrange Hx) as Hle.
    pose proof (round_mag_error x E) as Herr.
    destruct (Qle_bool (2 ^ (emax + 1)) (Np.round_mag prec emin x)) eqn:Eo.
    { apply Qle_bool_iff in Eo. exfalso. lra. }
    exists (Np.round_mag prec emin x). split; [reflexivity |].
    rewrite Habs. exact Herr.
Qed.

(** Beyond it the result is the infinity of the sign. *)
Lemma round_float_overflow (x : Q) :
  2 ^ (emax + 1) <= Qabs x ->
  Np.round_float prec emin emax x = if Qle_bool 0 x then PInf else NInf.
Proof.
  intros Hx. unfold Np.round_float.
  pose proof (pow2_pos (emax + 1)) as Hp.
  destruct (Qcompare x 0) eqn:E.
  - apply Qeq_alt in E. exfalso. rewrite E in Hx. change (Qabs 0) with 0 in Hx.
    lra.
  - apply Qlt_alt in E.
    assert (Habs : Qabs x == - x) by (apply Qabs_neg; lra).
    rewrite Habs in Hx.
    pose proof (round_mag_ge (- x) (emax + 1) ltac:(lia) Hx) as Hge.
    apply Qle_bool_iff in Hge. rewrite Hge.
    destruct (Qle_bool 0 x) eqn:E0; [| reflexivity].
    apply Qle_bool_iff in E0. exfalso. lra.
  - apply Qgt_alt in E.
    assert (Habs : Qabs x == x) by (apply Qabs_pos; lra).
    rewrite Habs in Hx.
    pose proof (round_mag_ge x (emax + 1) ltac:(lia) Hx) as Hge.
    apply Qle_bool_iff in Hge. rewrite Hge.
    assert (E0 : Qle_bool 0 x = true) by (apply Qle_bool_iff; lra).
    rewrite E0. reflexivity.
Qed.

End Rounding.

Lemma float32_099 : Np.float32 0.99 = Fin (16609444 # 16777216).
Proof. vm_compute. reflexivity. Qed.

Lemma Qle_bool_ext (a b c : Q) : a == b -> Qle_bool a c = Qle_bool b c.
Proof.
  intros E. destruct (Qle_bool a c) eqn:Ea; destruct (Qle_bool b c) eqn:Eb;
    try reflexivity.
  - apply Qle_bool_iff in Ea. rewrite E in Ea. apply Qle_bool_iff in Ea. congruence.
  - apply Qle_bool_iff in Eb. rewrite <- E in Eb. apply Qle_bool_iff in Eb.
    congruence.
Qed.

(** The magnitudes that Np.float32 narrowing leaves above the Np.float32
    nearest to 0.99. *)
Lemma round_mag_gt_099 (x : Q) :
  0 < x ->
  (if Qle_bool (2 ^ 128) (Np.round_mag 24 (- 126) x) then true
   else negb (Qle_bool (Np.round_mag 24 (- 126) x) (16609444 # 16777216))) = true
  <-> knee_limit < x.
Proof.
  intros Hx. unfold knee_limit.
  assert (Hbig : (1 : Q) < 2 ^ 128) by reflexivity.
  destruct (Qlt_le_dec x (1 # 2)) as [Hsmall | Hhalf].
  - pose proof (round_mag_le 24 (- 126) ltac:(lia) x (- 1) Hx ltac:(lia)
                  ltac:(change (2 ^ (- 1)) with (1 # 2); lra)) as Hle.
    change (2 ^ (- 1)) with (1 # 2) in Hle.
    assert (E1 : Qle_bool (2 ^ 128) (Np.round_mag 24 (- 126) x) = false).
    { destruct (Qle_bool (2 ^ 128) (Np.round_mag 24 (- 126) x)) eqn:E; [| reflexivity].
      apply Qle_bool_iff in E. exfalso. lra. }
    assert (E2 : Qle_bool (Np.round_mag 24 (- 126) x) (16609444 # 16777216) = true).
    { apply Qle_bool_iff. lra. }
    rewrite E1, E2. cbn [negb]. split; [discriminate | intros H; exfalso; lra].
  - destruct (Qlt_le_dec x 1) as [Hone | Hge].
    + rewrite (round_mag_binade 24 (- 126) x (- 1) ltac:(lia)
                 ltac:(change (2 ^ (- 1)) with (1 # 2); exact Hhalf)
                 ltac:(change (2 ^ (- 1 + 1)) with 1; exact Hone)).
      change (- 1 - 24 + 1)%Z with (- 24)%Z.
      set (m := Np.rint (x / 2 ^ (- 24))).
      assert (Hm : (m <= 2 ^ 24)%Z).
      { apply rint_le_int. apply Qle_shift_div_r; [reflexivity |].
        change (2 ^ (- 24)) with (1 # 16777216).
        change (inject_Z (2 ^ 24)) with 16777216. lra. }
      assert (E1 : Qle_bool (2 ^ 128) (inject_Z m * 2 ^ (- 24)) = false).
      { destruct (Qle_bool (2 ^ 128) (inject_Z m * 2 ^ (- 24))) eqn:E;
          [| reflexivity].
        apply Qle_bool_iff in E. exfalso.
        assert (inject_Z m <= inject_Z (2 ^ 24)) by (rewrite <- Zle_Qle; exact Hm).
        change (2 ^ (- 24)) with (1 # 16777216) in E.
        change (inject_Z (2 ^ 24)) with 16777216 in H. lra. }
      rewrite E1.
      pose proof (rint_gt_even 16609444 (x / 2 ^ (- 24)) eq_refl) as Hiff.
      fold m in Hiff.
      assert (Hscale : inject_Z 16609444 + (1 # 2) < x / 2 ^ (- 24)
                       <-> 33218889 # 33554432 < x).
      { change (2 ^ (- 24)) with (1 # 16777216).
        change (inject_Z 16609444) with 16609444.
        unfold Qdiv. change (/ (1 # 16777216)) with 16777216.
        split; intros H; lra. }
      rewrite <- Hscale, <- Hiff.
      change (2 ^ (- 24)) with (1 # 16777216).
      split.
      * intros H. apply negb_true_iff in H.
        destruct (Z_lt_le_dec 16609444 m) as [Hlt | Hle]; [exact Hlt |].
        exfalso.
        assert (Hq : inject_Z m <= inject_Z 16609444) by (rewrite <- Zle_Qle; exact Hle).
        change (inject_Z 16609444) with 16609444 in Hq.
        assert (Hb : Qle_bool (inject_Z m * (1 # 16777216)) (16609444 # 16777216) = true).
        { apply Qle_bool_iff. lra. }
        congruence.
      * intros Hlt. apply negb_true_iff.
        destruct (Qle_bool (inject_Z m * (1 # 16777216)) (16609444 # 16777216)) eqn:E;
          [| reflexivity].
        apply Qle_bool_iff in E. exfalso.
        assert (Hq : inject_Z (16609444 + 1) <= inject_Z m)
          by (rewrite <- Zle_Qle; lia).
        change (inject_Z (16609444 + 1)) with 16609445 in Hq. lra.
    + pose proof (round_mag_ge 24 (- 126) ltac:(lia) x 0 ltac:(lia)
                    ltac:(change (2 ^ 0) with 1; exact Hge)) as Hle.
      change (2 ^ 0) with 1 in Hle.
      destruct (Qle_bool (2 ^ 128) (Np.round_mag 24 (- 126) x)).
      * split; [intros _; lra | reflexivity].
      * assert (E2 : Qle_bool (Np.round_mag 24 (- 126) x) (16609444 # 16777216) = false).
        { destruct (Qle_bool (Np.round_mag 24 (- 126) x) (16609444 # 16777216)) eqn:E;
            [| reflexivity].
          apply Qle_bool_iff in E. exfalso. lra. }
        rewrite E2. split; [intros _; lra | reflexivity].
Qed.

(** A Np.float32 array entry exceeds 0.99 in magnitude, as numpy compares
    them, exactly when the value narrowed lies beyond [knee_limit]. *)
Lemma float32_abs_gt_099 (x : Q) :
  Np.gt_f (Np.abs_f (Np.float32 x)) (Np.float32 0.99) = true <-> knee_limit < Qabs x.
Proof.
  rewrite float32_099. unfold Np.float32, Np.round_float.
  destruct (Qcompare x 0) eqn:E.
  - apply Qeq_alt in E. cbn. split; [discriminate |].
    intros H. exfalso. rewrite E in H. unfold knee_limit in H.
    change (Qabs 0) with 0 in H. lra.
  - apply Qlt_alt in E.
    assert (Hpos : 0 < - x) by lra.
    assert (Habs : Qabs x == - x) by (apply Qabs_neg; lra).
    rewrite Habs. rewrite <- (round_mag_gt_099 (- x) Hpos).
    change (2 ^ (127 + 1)) with (2 ^ 128).
    destruct (Qle_bool (2 ^ 128) (Np.round_mag 24 (- 126) (- x))); [reflexivity |].
    cbn [Np.abs_f Np.gt_f].
    rewrite (Qle_bool_ext (Qabs (- Np.round_mag 24 (- 126) (- x)))
               (Np.round_mag 24 (- 126) (- x))); [reflexivity |].
    rewrite Qabs_opp. apply Qabs_pos. apply round_mag_nonneg. exact Hpos.
  - apply Qgt_alt in E.
    assert (Habs : Qabs x == x) by (apply Qabs_pos; lra).
    rewrite Habs. rewrite <- (round_mag_gt_099 x E).
    change (2 ^ (127 + 1)) with (2 ^ 128).
    destruct (Qle_bool (2 ^ 128) (Np.round_mag 24 (- 126) x)); [reflexivity |].
    cbn [Np.abs_f Np.gt_f].
    rewrite (Qle_bool_ext (Qabs (Np.round_mag 24 (- 126) x))
               (Np.round_mag 24 (- 126) x)); [reflexivity |].
    apply Qabs_pos. apply round_mag_nonneg. exact E.
Qed.

(** The error of two and of three products in a row, each with a
    relative error [u] and an absolute error [eta]. *)
Lemma chain_arith_2 (u eta B a b D1 Y1 D2 : Q) :
  0 <= u -> u <= 1 # 4 -> 0 <= eta -> 1 <= B ->
  0 <= a -> 0 <= b -> b <= B ->
  D1 <= a * u + eta ->
  Y1 <= a + D1 ->
  D2 <= Y1 * b * u + eta + D1 * b ->
  D2 <= (9 # 4) * (u * (a * b)) + (9 # 4) * (eta * B).
Proof.
  intros Hu0 Hu Heta HB Ha Hb HbB H1 H2 H3.
  assert (M : forall x y z : Q, 0 <= z -> x <= y -> x * z <= y * z).
  { intros x y z Hz Hxy. apply Qmult_le_compat_r; assumption. }
  assert (P : forall x y : Q, 0 <= x -> 0 <= y -> 0 <= x * y).
  { intros x y Hx0 Hy0. apply Qmult_le_0_compat; assumption. }
  pose proof (P a b Ha Hb) as Hab.
  pose proof (P u (a * b) Hu0 Hab) as Huab.
  pose proof (M _ _ b Hb H1) as HbD1.
  assert (HY1' : Y1 <= a + a * u + eta) by lra.
  pose proof (M _ _ u Hu0 (M _ _ b Hb HY1')) as HubY1.
  pose proof (M _ _ (u * (a * b)) Huab Hu) as Huu.
  pose proof (M _ _ eta Heta HbB) as Hbe.
  pose proof (M _ _ (eta * b) (P eta b Heta Hb) Hu) as Hube.
  assert (E1 : (a + a * u + eta) * b * u
               == u * (a * b) + u * (u * (a * b)) + u * (eta * b)) by ring.
  assert (E2 : (a * u + eta) * b == u * (a * b) + eta * b) by ring.
  assert (E3 : b * eta == eta * b) by ring.
  assert (E4 : B * eta == eta * B) by ring.
  assert (eta <= eta * B).
  { pose proof (M _ _ eta Heta HB) as H. lra. }
  lra.
Qed.

Lemma chain_arith (u eta B a b c D1 Y1 D2 Y2 D3 : Q) :
  0 <= u -> u <= 1 # 4 -> 0 <= eta -> 1 <= B ->
  0 <= a -> 0 <= b -> b <= B -> 0 <= c -> c <= B ->
  D1 <= a * u + eta ->
  Y1 <= a + D1 ->
  D2 <= Y1 * b * u + eta + D1 * b ->
  Y2 <= a * b + D2 ->
  D3 <= Y2 * c * u + eta + D2 * c ->
  D3 <= 4 * u * (a * b * c) + 4 * eta * (B * B).
Proof.
  intros Hu0 Hu Heta HB Ha Hb HbB Hc HcB H1 H2 H3 H4 H5.
  pose proof (chain_arith_2 u eta B a b D1 Y1 D2 Hu0 Hu Heta HB Ha Hb HbB
                H1 H2 H3) as HD2'.
  assert (M : forall x y z : Q, 0 <= z -> x <= y -> x * z <= y * z).
  { intros x y z Hz Hxy. apply Qmult_le_compat_r; assumption. }
  assert (P : forall x y : Q, 0 <= x -> 0 <= y -> 0 <= x * y).
  { intros x y Hx0 Hy0. apply Qmult_le_0_compat; assumption. }
  pose proof (P a b Ha Hb) as Hab.
  pose proof (P (a * b) c Hab Hc) as Habc.
  pose proof (P eta B Heta ltac:(lra)) as HeB.
  pose proof (P u (a * b * c) Hu0 Habc) as Huabc.
  pose proof (M _ _ c Hc HD2') as HcD2.
  pose proof (M _ _ (eta * B) HeB HcB) as HcB'.
  assert (HcD2' : D2 * c <= (9 # 4) * (u * (a * b * c)) + (9 # 4) * (eta * B * B)).
  { assert (E1 : ((9 # 4) * (u * (a * b)) + (9 # 4) * (eta * B)) * c
                 == (9 # 4) * (u * (a * b * c)) + (9 # 4) * (c * (eta * B))) by ring.
    lra. }
  pose proof (M _ _ (a * b) Hab Hu) as Hqab.
  assert (HY2' : Y2 <= (25 # 16) * (a * b) + (9 # 4) * (eta * B)) by lra.
  pose proof (M _ _ u Hu0 (M _ _ c Hc HY2')) as HucY2.
  pose proof (M _ _ (c * (eta * B)) (P c (eta * B) Hc HeB) Hu) as Hcu.
  assert (HucY2' : Y2 * c * u
                   <= (25 # 16) * (u * (a * b * c)) + (9 # 16) * (eta * B * B)).
  { assert (E1 : ((25 # 16) * (a * b) + (9 # 4) * (eta * B)) * c * u
                 == (25 # 16) * (u * (a * b * c)) + (9 # 4) * (u * (c * (eta * B))))
      by ring.
    lra. }
  assert (Hone : eta <= eta * B * B).
  { pose proof (M _ _ eta Heta HB) as Ha1.
    pose proof (M _ _ (eta * B) HeB HB) as Ha2. lra. }
  assert (E : 4 * u * (a * b * c) + 4 * eta * (B * B)
              == 4 * (u * (a * b * c)) + 4 * (eta * B * B)) by ring.
  lra.
Qed.

(** *** Products of doubles *)

Lemma float64_finite (x : Q) :
  Qabs x <= 2 ^ 1023 ->
  exists y,
    Np.float64 x = Fin y
    /\ Qabs (y - x) <= Qabs x * 2 ^ (- 53) + 2 ^ (- 1075).
Proof.
  exact (round_float_finite 53 (- 1022) ltac:(lia) 1023 ltac:(lia) x).
Qed.

Lemma float64_overflow (x : Q) :
  2 ^ 1024 <= Qabs x -> Np.isfinite (Np.float64 x) = false.
Proof.
  intros H. unfold Np.float64.
  rewrite (round_float_overflow 53 (- 1022) ltac:(lia) 1023 ltac:(lia) x H).
  destruct (Qle_bool 0 x); reflexivity.
Qed.

Lemma Qabs_near (x y : Q) : Qabs y <= Qabs x + Qabs (y - x).
Proof.
  assert (E : y == x + (y - x)) by ring.
  rewrite E at 1. apply Qabs_triangle.
Qed.

Lemma Qabs_far (x y : Q) : Qabs x - Qabs (y - x) <= Qabs y.
Proof.
  assert (E : x == y + - (y - x)) by ring.
  pose proof (Qabs_triangle y (- (y - x))) as H.
  rewrite <- E, Qabs_opp in H. lra.
Qed.

Lemma Qmult_le_compat_nonneg (a b c d : Q) :
  0 <= a -> a <= b -> 0 <= c -> c <= d -> a * c <= b * d.
Proof.
  intros Ha Hab Hc Hcd.
  apply Qle_trans with (b * c).
  - apply Qmult_le_compat_r; assumption.
  - rewrite (Qmult_comm b c), (Qmult_comm b d).
    apply Qmult_le_compat_r; [exact Hcd | lra].
Qed.

(** The first two products of [force_gain * power * self.power * a[i]],
    with a motor power and a robot power of at most [2^300] in
    magnitude: both are finite, and the second is near [p * w]. *)
Lemma mul_chain_2 (p w : Q) :
  Qabs p <= 2 ^ 300 -> Qabs w <= 2 ^ 300 ->
  exists y1 y2,
    Np.mul (Fin 1) (Fin p) = Fin y1
    /\ Np.mul (Fin y1) (Fin w) = Fin y2
    /\ Qabs (y1 - p) <= Qabs p * 2 ^ (- 53) + 2 ^ (- 1075)
    /\ Qabs y1 <= 2 ^ 301
    /\ Qabs (y2 - y1 * w) <= Qabs y1 * Qabs w * 2 ^ (- 53) + 2 ^ (- 1075)
    /\ Qabs y2 <= 2 ^ 602.
Proof.
  intros Hp Hw.
  assert (C1 : (2 : Q) ^ 300 <= 2 ^ 1023) by (apply pow2_le; lia).
  assert (C2 : (2 : Q) ^ 300 + 2 ^ 300 * 2 ^ (- 53) + 2 ^ (- 1075) <= 2 ^ 301).
  { apply Qle_bool_iff. vm_compute. reflexivity. }
  assert (C3 : (2 : Q) ^ 301 * 2 ^ 300 <= 2 ^ 1023).
  { apply Qle_bool_iff. vm_compute. reflexivity. }
  assert (C4 : (2 : Q) ^ 301 * 2 ^ 300 + 2 ^ 301 * 2 ^ 300 * 2 ^ (- 53)
               + 2 ^ (- 1075) <= 2 ^ 602).
  { apply Qle_bool_iff. vm_compute. reflexivity. }
  pose proof (pow2_pos (- 53)) as Hu. pose proof (pow2_pos (- 1075)) as He.
  pose proof (Qabs_nonneg p) as Hp0. pose proof (Qabs_nonneg w) as Hw0.
  assert (E1 : 1 * p == p) by ring.
  destruct (float64_finite (1 * p)) as [y1 [Hy1 Hd1]].
  { rewrite E1. lra. }
  rewrite E1 in Hd1.
  pose proof (Qabs_near p y1) as Hn1.
  assert (Hpu : Qabs p * 2 ^ (- 53) <= 2 ^ 300 * 2 ^ (- 53)).
  { apply Qmult_le_compat_r; [exact Hp | lra]. }
  assert (HY1 : Qabs y1 <= 2 ^ 301) by lra.
  pose proof (Qabs_nonneg y1) as Hy10.
  assert (Hx2 : Qabs (y1 * w) <= 2 ^ 301 * 2 ^ 300).
  { rewrite Qabs_Qmult. apply Qmult_le_compat_nonneg; assumption. }
  destruct (float64_finite (y1 * w)) as [y2 [Hy2 Hd2]]; [lra |].
  pose proof (Qabs_near (y1 * w) y2) as Hn2.
  assert (Hxu : Qabs (y1 * w) * 2 ^ (- 53) <= 2 ^ 301 * 2 ^ 300 * 2 ^ (- 53)).
  { apply Qmult_le_compat_r; [exact Hx2 | lra]. }
  exists y1, y2. split; [exact Hy1 |]. split; [exact Hy2 |].
  split; [exact Hd1 |]. split; [exact HY1 |].
  split; [rewrite <- Qabs_Qmult; exact Hd2 | lra].
Qed.

(** The torque of [Humanoid.apply_action] for magnitudes of at most
    [2^300]: finite, and within a relative error of [2^-51] of the exact
    product, up to [2^-400]. *)
Lemma mul_chain_near (p w q : Q) :
  Qabs p <= 2 ^ 300 -> Qabs w <= 2 ^ 300 -> Qabs q <= 2 ^ 300 ->
  exists t,
    Np.mul (Np.mul (Np.mul (Fin 1) (Fin p)) (Fin w)) (Fin q) = Fin t
    /\ Qabs (t - 1 * p * w * q)
       <= 2 ^ (- 51) * Qabs (1 * p * w * q) + 2 ^ (- 400).
Proof.
  intros Hp Hw Hq.
  destruct (mul_chain_2 p w Hp Hw) as [y1 [y2 [E1 [E2 [Hd1 [HY1 [Hd2 HY2]]]]]]].
  rewrite E1, E2. cbn [Np.mul].
  assert (C1 : (2 : Q) ^ 602 * 2 ^ 300 <= 2 ^ 1023).
  { apply Qle_bool_iff. vm_compute. reflexivity. }
  assert (C2 : 4 * (2 : Q) ^ (- 53) == 2 ^ (- 51)).
  { apply Qeq_bool_iff. vm_compute. reflexivity. }
  assert (C3 : 4 * (2 : Q) ^ (- 1075) * (2 ^ 300 * 2 ^ 300) <= 2 ^ (- 400)).
  { apply Qle_bool_iff. vm_compute. reflexivity. }
  assert (C4 : (2 : Q) ^ (- 53) <= 1 # 4).
  { apply Qle_bool_iff. vm_compute. reflexivity. }
  assert (C5 : (1 : Q) <= 2 ^ 300).
  { apply Qle_bool_iff. vm_compute. reflexivity. }
  pose proof (pow2_pos (- 53)) as Hu. pose proof (pow2_pos (- 1075)) as He.
  pose proof (Qabs_nonneg p) as Hp0. pose proof (Qabs_nonneg w) as Hw0.
  pose proof (Qabs_nonneg q) as Hq0. pose proof (Qabs_nonneg y2) as Hy20.
  assert (Hx3 : Qabs (y2 * q) <= 2 ^ 602 * 2 ^ 300).
  { rewrite Qabs_Qmult. apply Qmult_le_compat_nonneg; assumption. }
  destruct (float64_finite (y2 * q)) as [t [Ht Hd3]]; [lra |].
  exists t. split; [exact Ht |].
  assert (Hfin : Qabs (t - p * w * q)
                 <= 4 * 2 ^ (- 53) * (Qabs p * Qabs w * Qabs q)
                    + 4 * 2 ^ (- 1075) * (2 ^ 300 * 2 ^ 300)).
  { apply (chain_arith (2 ^ (- 53)) (2 ^ (- 1075)) (2 ^ 300)
             (Qabs p) (Qabs w) (Qabs q)
             (Qabs (y1 - p)) (Qabs y1) (Qabs (y2 - p * w)) (Qabs y2));
      try lra.
    - apply Qabs_near.
    - assert (E : y2 - p * w == (y2 - y1 * w) + (y1 - p) * w) by ring.
      rewrite E.
      apply Qle_trans with (Qabs (y2 - y1 * w) + Qabs ((y1 - p) * w));
        [apply Qabs_triangle |].
      rewrite (Qabs_Qmult (y1 - p) w). lra.
    - rewrite <- Qabs_Qmult. apply Qabs_near.
    - assert (E : t - p * w * q == (t - y2 * q) + (y2 - p * w) * q) by ring.
      rewrite E.
      apply Qle_trans with (Qabs (t - y2 * q) + Qabs ((y2 - p * w) * q));
        [apply Qabs_triangle |].
      rewrite (Qabs_Qmult (y2 - p * w) q).
      rewrite (Qabs_Qmult y2 q) in Hd3. lra. }
  assert (E0 : 1 * p * w * q == p * w * q) by ring.
  rewrite E0, !Qabs_Qmult, <- C2.
  lra.
Qed.

(** The same torque when the exact product is [2^1025] or more in
    magnitude: an infinity. *)
Lemma mul_chain_overflow (p w q : Q) :
  Qabs p <= 2 ^ 300 -> Qabs w <= 2 ^ 300 -> Qabs q <= 2 ^ 1024 ->
  2 ^ 1025 <= Qabs (1 * p * w * q) ->
  Np.isfinite (Np.mul (Np.mul (Np.mul (Fin 1) (Fin p)) (Fin w)) (Fin q))
  = false.
Proof.
  intros Hp Hw Hq Hbig.
  destruct (mul_chain_2 p w Hp Hw) as [y1 [y2 [E1 [E2 [Hd1 [HY1 [Hd2 HY2]]]]]]].
  rewrite E1, E2. cbn [Np.mul]. apply float64_overflow.
  assert (C4 : (2 : Q) ^ (- 53) <= 1 # 4).
  { apply Qle_bool_iff. vm_compute. reflexivity. }
  assert (C5 : (1 : Q) <= 2 ^ 300).
  { apply Qle_bool_iff. vm_compute. reflexivity. }
  assert (C6 : (2 : Q) ^ 1024
               <= 2 ^ 1025 * (1 - (9 # 4) * 2 ^ (- 53))
                  - (9 # 4) * (2 ^ (- 1075) * 2 ^ 300 * 2 ^ 1024)).
  { apply Qle_bool_iff. vm_compute. reflexivity. }
  pose proof (pow2_pos (- 53)) as Hu. pose proof (pow2_pos (- 1075)) as He.
  pose proof (Qabs_nonneg p) as Hp0. pose proof (Qabs_nonneg w) as Hw0.
  pose proof (Qabs_nonneg q) as Hq0.
  assert (E0 : 1 * p * w * q == p * w * q) by ring.
  rewrite E0, !Qabs_Qmult in Hbig.
  assert (HD2 : Qabs (y2 - p * w)
                <= (9 # 4) * (2 ^ (- 53) * (Qabs p * Qabs w))
                   + (9 # 4) * (2 ^ (- 1075) * 2 ^ 300)).
  { apply (chain_arith_2 (2 ^ (- 53)) (2 ^ (- 1075)) (2 ^ 300)
             (Qabs p) (Qabs w) (Qabs (y1 - p)) (Qabs y1)); try lra.
    - apply Qabs_near.
    - assert (E : y2 - p * w == (y2 - y1 * w) + (y1 - p) * w) by ring.
      rewrite E.
      apply Qle_trans with (Qabs (y2 - y1 * w) + Qabs ((y1 - p) * w));
        [apply Qabs_triangle |].
      rewrite (Qabs_Qmult (y1 - p) w). lra. }
  pose proof (Qabs_far (p * w) y2) as Hfar. rewrite Qabs_Qmult in Hfar.
  rewrite Qabs_Qmult.
  assert (M : forall x y z : Q, 0 <= z -> x <= y -> x * z <= y * z).
  { intros x y z Hz Hxy. apply Qmult_le_compat_r; assumption. }
  pose proof (M _ _ (Qabs q) Hq0 Hfar) as H1.
  pose proof (M _ _ (Qabs q) Hq0 HD2) as H2.
  assert (H3 : 2 ^ 1025 * (1 - (9 # 4) * 2 ^ (- 53))
               <= Qabs p * Qabs w * Qabs q * (1 - (9 # 4) * 2 ^ (- 53))).
  { apply M; [lra | exact Hbig]. }
  assert (H4 : Qabs q * (2 ^ (- 1075) * 2 ^ 300)
               <= 2 ^ 1024 * (2 ^ (- 1075) * 2 ^ 300)).
  { apply M; [| exact Hq].
    apply Qmult_le_0_compat; [lra |]. apply Qlt_le_weak. apply pow2_pos. }
  assert (E1' : (Qabs p * Qabs w - Qabs (y2 - p * w)) * Qabs q
                == Qabs p * Qabs w * Qabs q - Qabs (y2 - p * w) * Qabs q) by ring.
  assert (E2' : ((9 # 4) * (2 ^ (- 53) * (Qabs p * Qabs w))
                 + (9 # 4) * (2 ^ (- 1075) * 2 ^ 300)) * Qabs q
                == (9 # 4) * 2 ^ (- 53) * (Qabs p * Qabs w * Qabs q)
                   + (9 # 4) * (Qabs q * (2 ^ (- 1075) * 2 ^ 300))) by ring.
  assert (E3' : Qabs p * Qabs w * Qabs q * (1 - (9 # 4) * 2 ^ (- 53))
                == Qabs p * Qabs w * Qabs q
                   - (9 # 4) * 2 ^ (- 53) * (Qabs p * Qabs w * Qabs q)) by ring.
  assert (E4' : 2 ^ 1024 * (2 ^ (- 1075) * 2 ^ 300)
                == 2 ^ (- 1075) * 2 ^ 300 * 2 ^ 1024) by ring.
  lra.
Qed.

(** *** [WalkerBase.apply_action] *)

Lemma isfinite_all_true (a : list npfloat) :
  Np.isfinite_all a = true <-> (forall x, In x a -> Np.isfinite x = true).
Proof. unfold Np.isfinite_all. apply forallb_forall. Qed.

Lemma isfinite_all_false (a : list npfloat) :
  (exists x, In x a /\ Np.isfinite x = false) -> Np.isfinite_all a = false.
Proof.
  intros [x [Hin Hx]]. apply not_true_iff_false. intros Hall.
  rewrite isfinite_all_true in Hall. rewrite (Hall x Hin) in Hx. discriminate.
Qed.

Lemma finite_entry (a : list npfloat) (n : nat) :
  (forall x, In x a -> Np.isfinite x = true) ->
  (n < List.length a)%nat ->
  exists q, nth_error a n = Some (Fin q).
Proof.
  intros Hfin Hn.
  destruct (nth_error a n) as [x |] eqn:E.
  - specialize (Hfin x (nth_error_In a n E)).
    destruct x; try discriminate. exists q. reflexivity.
  - apply nth_error_None in E. lia.
Qed.

Lemma apply_action_loop_torques (pw : Q) (a : list npfloat) :
  (forall x, In x a -> Np.isfinite x = true) ->
  forall (joints : list Joint) (n : nat),
    (n + List.length joints <= List.length a)%nat ->
    exists joints',
      WalkerBase.apply_action_loop pw a n joints = Ok joints'
      /\ List.length joints' = List.length joints
      /\ forall k j,
           nth_error joints k = Some j ->
           exists q,
             nth_error a (n + k) = Some (Fin q)
             /\ nth_error joints' k
                = Some (set_motor_torque
                          (Fin (pw * power_coef j * Np.clip q (- (1)) 1)) j).
Proof.
  intros Hfin. induction joints as [| j joints IH]; intros n Hlen.
  - exists []. repeat split. intros [| k] j' Hk; discriminate.
  - cbn [List.length] in Hlen.
    destruct (finite_entry a n Hfin) as [q Hq]; [lia |].
    destruct (IH (S n)) as [joints' [Hrun [Hlen' Hnth]]]; [lia |].
    cbn [WalkerBase.apply_action_loop]. unfold index. rewrite Hq.
    cbn [bind]. rewrite Hrun. cbn [bind].
    eexists. split; [reflexivity |]. split; [cbn; congruence |].
    intros [| k] j' Hk.
    + cbn in Hk. injection Hk as <-. exists q.
      rewrite Nat.add_0_r. split; [exact Hq | reflexivity].
    + cbn in Hk. destruct (Hnth k j' Hk) as [q' [Hq' Hj']].
      exists q'. rewrite Nat.add_succ_r. split; [exact Hq' | exact Hj'].
Qed.

(** C1.  On a robot whose class takes [apply_action] from [WalkerBase]
    (Hopper, Walker2D, HalfCheetah, Ant, Atlas), an action vector that is
    finite throughout and has an entry for every joint makes [apply_action]
    return, and the torque commanded to joint [n] is
    [power * power_coef[n] * clamp(a[n], -1, 1)]; in particular at
    [a[n] = -1] and [a[n] = +1].  If some entry is NaN or infinite the call
    fails its assertion. *)
Theorem apply_action_clamped_torque (cls : Class) (a : list npfloat)
  (self : Robot) :
  inherits_apply_action cls = true ->
  ((forall x, In x a -> Np.isfinite x = true) ->
   (List.length (ordered_joints self) <= List.length a)%nat ->
   exists self',
     apply_action cls a self = Ok self'
     /\ List.length (ordered_joints self') = List.length (ordered_joints self)
     /\ forall n j,
          nth_error (ordered_joints self) n = Some j ->
          exists q j' t,
            nth_error a n = Some (Fin q)
            /\ nth_error (ordered_joints self') n = Some j'
            /\ motor_torque j' = Some (Fin t)
            /\ t == power self * power_coef j * clamp q (- (1)) 1
            /\ (q == - (1) -> t == power self * power_coef j * - (1))
            /\ (q == 1 -> t == power self * power_coef j * 1))
  /\ ((exists x, In x a /\ Np.isfinite x = false) ->
      apply_action cls a self = Raise AssertionError).
Proof.
  intros Hcls.
  assert (Hdispatch : apply_action cls = WalkerBase.apply_action)
    by (destruct cls; try discriminate; reflexivity).
  rewrite Hdispatch. unfold WalkerBase.apply_action. split.
  - intros Hfin Hlen.
    rewrite (proj2 (isfinite_all_true a) Hfin).
    destruct (apply_action_loop_torques (power self) a Hfin
                (ordered_joints self) 0 Hlen) as [joints' [Hrun [Hlen' Hnth]]].
    rewrite Hrun. cbn [bind]. eexists. split; [reflexivity |].
    split; [exact Hlen' |].
    intros n j Hj. destruct (Hnth n j Hj) as [q [Hq Hj']].
    exists q. eexists. eexists.
    split; [exact Hq |]. split; [exact Hj' |]. split; [reflexivity |].
    assert (Hclamp : Np.clip q (- (1)) 1 == clamp q (- (1)) 1)
      by (apply clip_clamp; lra).
    split; [rewrite Hclamp; reflexivity |].
    split; intros Hq1; rewrite Hclamp; unfold clamp.
    + destruct (ltb q (- (1))) eqn:E1; [reflexivity |].
      destruct (ltb 1 q) eqn:E2; [apply ltb_lt in E2; lra |].
      rewrite Hq1. reflexivity.
    + destruct (ltb q (- (1))) eqn:E1; [apply ltb_lt in E1; lra |].
      destruct (ltb 1 q) eqn:E2; [reflexivity |].
      rewrite Hq1. reflexivity.
  - intros Hbad. rewrite (isfinite_all_false a Hbad). reflexivity.
Qed.

Lemma apply_action_clamped_torque_witness :
  inherits_apply_action Hopper = true
  /\ (forall x, In x [Fin 2; Fin (- (1)); Fin 0.5] -> Np.isfinite x = true)
  /\ (List.length (ordered_joints Example.hopper) <= 3)%nat
  /\ (exists self',
        apply_action Hopper [Fin 2; Fin (- (1)); Fin 0.5] Example.hopper = Ok self'
        /\ List.length (ordered_joints self') = 3%nat)
  /\ (exists x, In x [Fin 2; NaN] /\ Np.isfinite x = false)
  /\ apply_action Hopper [Fin 2; NaN] Example.hopper = Raise AssertionError.
Proof.
  assert (Hfin : forall x, In x [Fin 2; Fin (- (1)); Fin 0.5] ->
                           Np.isfinite x = true).
  { intros x [<- | [<- | [<- | []]]]; reflexivity. }
  assert (Hbad : exists x, In x [Fin 2; NaN] /\ Np.isfinite x = false).
  { exists NaN. split; [right; left; reflexivity | reflexivity]. }
  split; [reflexivity |]. split; [exact Hfin |].
  split; [apply le_n |]. split.
  - destruct (apply_action_clamped_torque Hopper [Fin 2; Fin (- (1)); Fin 0.5]
                Example.hopper eq_refl) as [Hok _].
    destruct (Hok Hfin (le_n 3)) as [self' [Hrun [Hlen _]]].
    exists self'. split; [exact Hrun | exact Hlen].
  - split; [exact Hbad |].
    exact (proj2 (apply_action_clamped_torque Hopper [Fin 2; NaN]
                    Example.hopper eq_refl) Hbad).
Defined.

(** An action vector that is shorter than the list of joints is not
    rejected by the assertion; the loop then runs off its end. *)
Lemma apply_action_short_vector :
  apply_action Hopper [Fin 2; Fin (- (1))] Example.hopper = Raise IndexError.
Proof. reflexivity. Qed.

(** [Humanoid.apply_action] does not clip: an action of 2 on the first
    motor is passed on as it is. *)
Lemma humanoid_apply_action_unclipped :
  exists self'' j t,
    apply_action Humanoid (Fin 2 :: repeat (Fin 0) 16) Example.humanoid_reset
    = Ok self''
    /\ nth_error (ordered_joints self'') 0 = Some j
    /\ motor_torque j = Some (Fin t)
    /\ t == 1 * 100 * 0.41 * 2.
Proof.
  eexists. eexists. eexists.
  split; [vm_compute; reflexivity |]. split; [vm_compute; reflexivity |].
  split; [vm_compute; reflexivity | vm_compute; reflexivity].
Qed.

(** *** [HumanoidFlagrunHarder]: the leak and the ground counter *)

Lemma potential_leak_value (self : Robot) (o : Observed) :
  observed self = Bound o ->
  HumanoidFlagrunHarder.potential_leak self
  = Ok (Np.clip (snd (body_xyz o)) 0 0.8 / 0.8 + 1.0).
Proof.
  intros Ho. unfold HumanoidFlagrunHarder.potential_leak.
  rewrite Ho. reflexivity.
Qed.

(** C6.  [potential_leak] is non-decreasing in the body height (over
    [[0, 0.8]] and beyond), is exactly 1.0 at height 0 or below, and
    exactly 2.0 at height 0.8 or above. *)
Theorem potential_leak_monotone (self1 self2 : Robot) (o1 o2 : Observed) :
  observed self1 = Bound o1 ->
  observed self2 = Bound o2 ->
  exists v1 v2,
    HumanoidFlagrunHarder.potential_leak self1 = Ok v1
    /\ HumanoidFlagrunHarder.potential_leak self2 = Ok v2
    /\ (snd (body_xyz o1) <= snd (body_xyz o2) -> v1 <= v2)
    /\ (snd (body_xyz o1) <= 0 -> v1 == 1.0)
    /\ (0.8 <= snd (body_xyz o1) -> v1 == 2.0).
Proof.
  intros H1 H2.
  rewrite (potential_leak_value self1 o1 H1), (potential_leak_value self2 o2 H2).
  eexists. eexists. split; [reflexivity |]. split; [reflexivity |].
  set (z1 := snd (body_xyz o1)). set (z2 := snd (body_xyz o2)).
  assert (Hb : 0 <= 0.8) by lra.
  split; [| split].
  - intros Hle. pose proof (clip_monotone z1 z2 0 0.8 Hb Hle) as Hm.
    apply Qplus_le_l. apply Qmult_le_compat_r; [exact Hm |].
    apply Qlt_le_weak. reflexivity.
  - intros Hz.
    destruct (clip_cases z1 0 0.8 Hb) as [[H E] | [[[Ha Hc] E] | [H E]]];
      rewrite E; try lra.
    + reflexivity.
    + assert (Hz0 : z1 == 0) by lra. rewrite Hz0. reflexivity.
  - intros Hz.
    destruct (clip_cases z1 0 0.8 Hb) as [[H E] | [[[Ha Hc] E] | [H E]]];
      rewrite E; try lra.
    + assert (Hz0 : z1 == 0.8) by lra. rewrite Hz0. reflexivity.
    + reflexivity.
Qed.

Lemma potential_leak_monotone_witness :
  exists v1 v2,
    HumanoidFlagrunHarder.potential_leak
      (observe (Example.observation 0.4 3) Example.harder_runner) = Ok v1
    /\ HumanoidFlagrunHarder.potential_leak
         (observe (Example.observation 0.9 3) Example.harder_runner) = Ok v2
    /\ v1 <= v2 /\ v2 == 2.0.
Proof.
  destruct (potential_leak_monotone
              (observe (Example.observation 0.4 3) Example.harder_runner)
              (observe (Example.observation 0.9 3) Example.harder_runner)
              (Example.observation 0.4 3) (Example.observation 0.9 3)
              eq_refl eq_refl)
    as [v1 [v2 [H1 [H2 [Hmono _]]]]].
  destruct (potential_leak_monotone
              (observe (Example.observation 0.9 3) Example.harder_runner)
              (observe (Example.observation 0.9 3) Example.harder_runner)
              (Example.observation 0.9 3) (Example.observation 0.9 3)
              eq_refl eq_refl)
    as [w1 [w2 [G1 [_ [_ [_ Htop]]]]]].
  exists v1, v2. split; [exact H1 |]. split; [exact H2 |].
  split.
  - apply Hmono. cbn. unfold Qle. cbn. lia.
  - rewrite G1 in H2. injection H2 as <-. apply Htop.
    cbn. unfold Qle. cbn. lia.
Defined.

Ltac counter_simpl :=
  cbn [harder set_harder on_ground_frame_counter
       HumanoidFlagrunHarder.set_on_ground_frame_counter].

Section GroundCounter.
Context {math : Np.Math}.

(** The attack moves the cube and draws random numbers; the counter, the
    observation and the frame stay as they are. *)
Lemma attack_frame (h : Harder) (self : Robot) (o : Observed) :
  observed self = Bound o ->
  exists cube rs,
    HumanoidFlagrunHarder.attack h self
    = Ok (set_harder
            (Bound (HumanoidFlagrunHarder.set_aggressive_cube cube h))
            (set_np_random rs self)).
Proof.
  intros Ho. unfold HumanoidFlagrunHarder.attack. rewrite Ho.
  cbn [getattr bind].
  destruct (body_xyz o) as [[tx ty] tz].
  destruct (speed (robot_body self)) as [[sx sy] sz].
  cbn. eexists. eexists. reflexivity.
Qed.

(** C4.  A call of [alive_bonus] made while [z < 0.8] adds one to
    [on_ground_frame_counter]; a call made while [z >= 0.8] takes one off
    it, but not below 0.  The value returned is [potential_leak()] when
    the counter, after this update, is below 170, and -1 when it has
    reached 170. *)
Theorem alive_bonus_ground_counter (z pitch : Q) (self : Robot)
  (fr : Z) (h : Harder) (o : Observed) :
  frame self = Bound fr ->
  harder self = Bound h ->
  observed self = Bound o ->
  (0 <= on_ground_frame_counter h)%Z ->
  exists v self' h',
    alive_bonus HumanoidFlagrunHarder z pitch self = Ok (v, self')
    /\ harder self' = Bound h'
    /\ (z < 0.8 ->
        on_ground_frame_counter h' = (on_ground_frame_counter h + 1)%Z)
    /\ (0.8 <= z ->
        on_ground_frame_counter h' = Z.max 0 (on_ground_frame_counter h - 1))
    /\ (0 <= on_ground_frame_counter h')%Z
    /\ ((on_ground_frame_counter h' < 170)%Z ->
        HumanoidFlagrunHarder.potential_leak self' = Ok v)
    /\ ((170 <= on_ground_frame_counter h')%Z -> v = - (1)).
Proof.
  intros Hfr Hh Ho Hc0.
  cbn [alive_bonus]. unfold HumanoidFlagrunHarder.alive_bonus.
  rewrite Hfr. cbn [getattr bind].
  (* the robot after the attack section, with the counter untouched *)
  assert (Hmid : exists self1 h1,
             (if (fr mod 30 =? 0)%Z && (fr >? 100)%Z
              then
                h0 <- getattr (harder self) ;;
                (if (on_ground_frame_counter h0 =? 0)%Z
                 then HumanoidFlagrunHarder.attack h0 self
                 else Ok self)
              else Ok self) = Ok self1
             /\ harder self1 = Bound h1
             /\ on_ground_frame_counter h1 = on_ground_frame_counter h
             /\ observed self1 = Bound o).
  { destruct ((fr mod 30 =? 0)%Z && (fr >? 100)%Z).
    - rewrite Hh. cbn [getattr bind].
      destruct (on_ground_frame_counter h =? 0)%Z.
      + destruct (attack_frame h self o Ho) as [cube [rs Hatt]].
        rewrite Hatt. eexists. eexists. split; [reflexivity |].
        cbn. split; [reflexivity |]. split; [reflexivity | exact Ho].
      + exists self, h. auto.
    - exists self, h. auto. }
  destruct Hmid as [self1 [h1 [Hrun [Hh1 [Hc1 Ho1]]]]].
  rewrite Hrun. cbn [bind]. rewrite Hh1. cbn [getattr bind].
  rewrite Hc1.
  destruct (ltb z 0.8) eqn:Ez.
  - (* on the ground *)
    apply ltb_lt in Ez. counter_simpl.
    destruct (on_ground_frame_counter h + 1 <? 170)%Z eqn:E170.
    + apply Z.ltb_lt in E170.
      rewrite (potential_leak_value _ o) by exact Ho1.
      cbn [bind]. eexists. eexists. eexists.
      split; [reflexivity |]. counter_simpl.
      split; [reflexivity |]. counter_simpl.
      split; [reflexivity |]. split; [intros; lra |].
      split; [lia |]. split; [| intros; lia].
      intros _. apply potential_leak_value. exact Ho1.
    + apply Z.ltb_ge in E170.
      eexists. eexists. eexists.
      split; [reflexivity |]. counter_simpl.
      split; [reflexivity |]. counter_simpl.
      split; [reflexivity |]. split; [intros; lra |].
      split; [lia |]. split; [intros; lia | reflexivity].
  - (* up *)
    apply ltb_ge in Ez.
    destruct (on_ground_frame_counter h >? 0)%Z eqn:Epos.
    + apply Z.gtb_lt in Epos. counter_simpl.
      destruct (on_ground_frame_counter h - 1 <? 170)%Z eqn:E170.
      * apply Z.ltb_lt in E170.
        rewrite (potential_leak_value _ o) by exact Ho1.
        cbn [bind]. eexists. eexists. eexists.
        split; [reflexivity |]. counter_simpl.
        split; [reflexivity |]. counter_simpl.
        split; [intros; lra |]. split; [intros; lia |].
        split; [lia |]. split; [| intros; lia].
        intros _. apply potential_leak_value. exact Ho1.
      * apply Z.ltb_ge in E170.
        eexists. eexists. eexists.
        split; [reflexivity |]. counter_simpl.
        split; [reflexivity |]. counter_simpl.
        split; [intros; lra |]. split; [intros; lia |].
        split; [lia |]. split; [intros; lia | reflexivity].
    + assert (Hzero : on_ground_frame_counter h = 0%Z).
      { destruct (Z.gtb_spec (on_ground_frame_counter h) 0); [discriminate | lia]. }
      rewrite Hc1, Hzero. cbn [Z.ltb Z.compare].
      rewrite (potential_leak_value _ o) by exact Ho1.
      cbn [bind]. eexists. eexists. eexists.
      split; [reflexivity |]. counter_simpl.
      split; [reflexivity |]. rewrite Hc1, Hzero.
      split; [intros; lra |]. split; [intros; reflexivity |].
      split; [lia |]. split; [| intros; lia].
      intros _. apply potential_leak_value. exact Ho1.
Qed.

End GroundCounter.

Lemma alive_bonus_ground_counter_witness :
  exists v self' h',
    @alive_bonus rational_math HumanoidFlagrunHarder 0.5 0 Example.harder_runner
    = Ok (v, self')
    /\ harder self' = Bound h'
    /\ on_ground_frame_counter h' = 1%Z
    /\ HumanoidFlagrunHarder.potential_leak self' = Ok v.
Proof.
  destruct (@alive_bonus_ground_counter rational_math 0.5 0
              Example.harder_runner 7
              {| aggressive_cube := get_cube (- 1.5) 0 0.05;
                 on_ground_frame_counter := 0;
                 crawl_start_potential := None;
                 crawl_ignored_potential := 0.0 |}
              (Example.observation 0.4 3)
              eq_refl eq_refl eq_refl (Z.le_refl 0))
    as [v [self' [h' [Hrun [Hh [Hdown [_ [_ [Hleak _]]]]]]]]].
  assert (Hz : 0.5 < 0.8) by (unfold Qlt; cbn; lia).
  exists v, self', h'. split; [exact Hrun |]. split; [exact Hh |].
  split; [exact (Hdown Hz) |].
  apply Hleak. rewrite (Hdown Hz). reflexivity.
Defined.

(** *** [HumanoidFlagrunHarder.calc_potential]: crawl suppression *)

(** One tick while down: the progress reported is the frozen value, and
    the raw progress beyond it goes to [crawl_ignored_potential]. *)
Lemma progress_down (self : Robot) (h : Harder) (o : Observed) :
  harder self = Bound h ->
  down o ->
  let c := match crawl_start_potential h with
           | Some c0 => c0
           | None => raw_progress self o - crawl_ignored_potential h
           end in
  exists self' h',
    HumanoidFlagrunHarder.flag_running_progress (observe o self) = Ok (c, self')
    /\ harder self' = Bound h'
    /\ scene self' = scene self
    /\ crawl_start_potential h' = Some c
    /\ crawl_ignored_potential h' = raw_progress self o - c.
Proof.
  intros Hh Hdown c.
  unfold HumanoidFlagrunHarder.flag_running_progress, WalkerBase.calc_potential.
  cbn [observe observed set_observed getattr bind harder scene].
  rewrite Hh. cbn [getattr bind].
  rewrite (proj2 (ltb_lt _ _) Hdown).
  subst c. destruct (crawl_start_potential h) as [c0 |] eqn:Estart.
  - rewrite Estart. eexists. eexists. split; [reflexivity |].
    split; [reflexivity |]. cbn. rewrite Estart. repeat split; reflexivity.
  - cbn [HumanoidFlagrunHarder.set_crawl_start_potential crawl_start_potential].
    eexists. eexists. split; [reflexivity |].
    split; [reflexivity |]. cbn. repeat split; reflexivity.
Qed.

(** One tick while up: the ignored progress is taken off the raw progress
    and the start of the crawl is forgotten. *)
Lemma progress_up (self : Robot) (h : Harder) (o : Observed) :
  harder self = Bound h ->
  ~ down o ->
  exists self' h',
    HumanoidFlagrunHarder.flag_running_progress (observe o self)
    = Ok (raw_progress self o - crawl_ignored_potential h, self')
    /\ harder self' = Bound h'
    /\ observed self' = Bound o
    /\ crawl_start_potential h' = None
    /\ crawl_ignored_potential h' = crawl_ignored_potential h.
Proof.
  intros Hh Hup.
  unfold HumanoidFlagrunHarder.flag_running_progress, WalkerBase.calc_potential.
  cbn [observe observed set_observed getattr bind harder scene].
  rewrite Hh. cbn [getattr bind].
  assert (E : ltb (snd (body_xyz o)) 0.8 = false).
  { apply ltb_ge. apply Qnot_lt_le. exact Hup. }
  rewrite E. eexists. eexists. split; [reflexivity |].
  split; [reflexivity |]. cbn. repeat split; reflexivity.
Qed.

Lemma last_nonempty {A : Type} (x : A) (l : list A) (d d' : A) :
  last (x :: l) d = last (x :: l) d'.
Proof.
  revert x. induction l as [| y l IH]; intros x; [reflexivity |].
  change (last (y :: l) d = last (y :: l) d'). apply IH.
Qed.

(** The first part of [calc_potential] leaves the observation alone. *)
Lemma progress_keeps_observation (self self' : Robot) (p : Q) :
  HumanoidFlagrunHarder.flag_running_progress self = Ok (p, self') ->
  observed self' = observed self.
Proof.
  unfold HumanoidFlagrunHarder.flag_running_progress, WalkerBase.calc_potential.
  destruct (observed self) as [| o] eqn:Eo; cbn [getattr bind];
    [discriminate |].
  destruct (harder self) as [| h]; cbn [getattr bind]; [discriminate |].
  destruct (ltb (snd (body_xyz o)) 0.8).
  - destruct (crawl_start_potential h) as [c0 |] eqn:Ec; cbn; [rewrite Ec |];
      intros H; injection H as _ <-; exact Eo.
  - intros H. injection H as _ <-. exact Eo.
Qed.

(** One call of [calc_potential] while down: the potential returned is
    the frozen progress plus the share of the alive bonus. *)
Lemma potential_down (self : Robot) (h : Harder) (o : Observed) :
  harder self = Bound h ->
  down o ->
  let c := match crawl_start_potential h with
           | Some c0 => c0
           | None => raw_progress self o - crawl_ignored_potential h
           end in
  exists self' h',
    calc_potential HumanoidFlagrunHarder (observe o self)
    = Ok (c + leak_term o, self')
    /\ harder self' = Bound h'
    /\ scene self' = scene self
    /\ crawl_start_potential h' = Some c
    /\ crawl_ignored_potential h' = raw_progress self o - c.
Proof.
  intros Hh Hdown c.
  destruct (progress_down self h o Hh Hdown)
    as [self' [h' [Hrun [Hh' [Hsc [Hstart Hign]]]]]].
  fold c in Hrun, Hstart, Hign.
  exists self', h'. split; [| repeat split; assumption].
  cbn [calc_potential]. unfold HumanoidFlagrunHarder.calc_potential.
  rewrite Hrun. cbn [bind].
  rewrite (potential_leak_value self' o
             (progress_keeps_observation _ _ _ Hrun)).
  reflexivity.
Qed.

(** One call of [calc_potential] once up again: the ignored progress is
    taken off the raw progress. *)
Lemma potential_up (self : Robot) (h : Harder) (o : Observed) :
  harder self = Bound h ->
  ~ down o ->
  exists self' h',
    calc_potential HumanoidFlagrunHarder (observe o self)
    = Ok (raw_progress self o - crawl_ignored_potential h + leak_term o, self')
    /\ harder self' = Bound h'
    /\ crawl_start_potential h' = None
    /\ crawl_ignored_potential h' = crawl_ignored_potential h.
Proof.
  intros Hh Hup.
  destruct (progress_up self h o Hh Hup)
    as [self' [h' [Hrun [Hh' [Ho [Hstart Hign]]]]]].
  exists self', h'. split; [| repeat split; assumption].
  cbn [calc_potential]. unfold HumanoidFlagrunHarder.calc_potential.
  rewrite Hrun. cbn [bind].
  rewrite (potential_leak_value self' o Ho). reflexivity.
Qed.

(** Once the crawl has started, every further call of [calc_potential]
    made while down reports the same progress. *)
Lemma potential_frozen (os : list Observed) :
  forall (self0 self : Robot) (h : Harder) (c : Q) (o0 : Observed),
    scene self = scene self0 ->
    harder self = Bound h ->
    crawl_start_potential h = Some c ->
    crawl_ignored_potential h = raw_progress self0 o0 - c ->
    Forall down os ->
    exists vs self' h',
      potential_trace os self = Ok (vs, self')
      /\ Forall2 (fun o v => v = c + leak_term o) os vs
      /\ scene self' = scene self0
      /\ harder self' = Bound h'
      /\ crawl_start_potential h' = Some c
      /\ crawl_ignored_potential h' = raw_progress self0 (last os o0) - c.
Proof.
  induction os as [| o os IH]; intros self0 self h c o0 Hsc Hh Hstart Hign Hall.
  - exists [], self, h. cbn. split; [reflexivity |]. split; [constructor |].
    split; [exact Hsc |]. split; [exact Hh |]. split; [exact Hstart | exact Hign].
  - inversion Hall as [| o' os' Hdown Hall']; subst.
    destruct (potential_down self h o Hh Hdown)
      as [self1 [h1 [Hrun [Hh1 [Hsc1 [Hstart1 Hign1]]]]]].
    rewrite Hstart in Hrun, Hstart1, Hign1.
    assert (Hign1' : crawl_ignored_potential h1 = raw_progress self0 o - c).
    { rewrite Hign1. unfold raw_progress. rewrite Hsc. reflexivity. }
    destruct (IH self0 self1 h1 c o (eq_trans Hsc1 Hsc) Hh1 Hstart1 Hign1' Hall')
      as [vs [self2 [h2 [Hrun2 [Hvs [Hsc2 [Hh2 [Hstart2 Hign2]]]]]]]].
    exists ((c + leak_term o) :: vs), self2, h2.
    cbn [potential_trace]. rewrite Hrun. cbn [bind]. rewrite Hrun2. cbn [bind].
    split; [reflexivity |]. split; [constructor; [reflexivity | exact Hvs] |].
    split; [exact Hsc2 |]. split; [exact Hh2 |]. split; [exact Hstart2 |].
    rewrite Hign2. destruct os as [| o1 os]; [reflexivity |].
    rewrite (last_nonempty o1 os o o0). reflexivity.
Qed.

(** C2.  From the call of [calc_potential] at which the robot is first
    seen below 0.8 and for as long as it stays below, the potential
    returned is [c + potential_leak() * 100] with one and the same progress
    component [c], the value held in [crawl_start_potential] and captured
    at the first of these calls: progress made while down earns nothing,
    it is kept in [crawl_ignored_potential].  At the first call back at 0.8
    or above the ignored progress is taken off the raw progress, so that
    the progress component of the potential returned moves by the raw
    progress of that tick only, and [crawl_start_potential] is unset. *)
Theorem crawl_suppression (self : Robot) (h : Harder)
  (o1 : Observed) (os : list Observed) (ou : Observed) :
  harder self = Bound h ->
  Forall down (o1 :: os) ->
  ~ down ou ->
  let c := match crawl_start_potential h with
           | Some c0 => c0
           | None => raw_progress self o1 - crawl_ignored_potential h
           end in
  let o_last := last os o1 in
  exists vs self1 h1 vu self2 h2,
    potential_trace (o1 :: os) self = Ok (vs, self1)
    /\ Forall2 (fun o v => v = c + leak_term o) (o1 :: os) vs
    /\ harder self1 = Bound h1
    /\ crawl_start_potential h1 = Some c
    /\ crawl_ignored_potential h1 == raw_progress self o_last - c
    /\ calc_potential HumanoidFlagrunHarder (observe ou self1) = Ok (vu, self2)
    /\ vu == raw_progress self ou - crawl_ignored_potential h1 + leak_term ou
    /\ vu - leak_term ou - c == raw_progress self ou - raw_progress self o_last
    /\ harder self2 = Bound h2
    /\ crawl_start_potential h2 = None
    /\ crawl_ignored_potential h2 = crawl_ignored_potential h1.
Proof.
  intros Hh Hall Hup c o_last.
  inversion Hall as [| o' os' Hdown Hall']; subst o' os'.
  destruct (potential_down self h o1 Hh Hdown)
    as [self0 [h0 [Hrun0 [Hh0 [Hsc0 [Hstart0 Hign0]]]]]].
  fold c in Hrun0, Hstart0, Hign0.
  destruct (potential_frozen os self self0 h0 c o1 Hsc0 Hh0 Hstart0 Hign0 Hall')
    as [vs [self1 [h1 [Hrun1 [Hvs [Hsc1 [Hh1 [Hstart1 Hign1]]]]]]]].
  fold o_last in Hign1.
  destruct (potential_up self1 h1 ou Hh1 Hup)
    as [self2 [h2 [Hrun2 [Hh2 [Hstart2 Hign2]]]]].
  assert (Hraw : forall o, raw_progress self1 o = raw_progress self o).
  { intros o. unfold raw_progress. rewrite Hsc1. reflexivity. }
  rewrite Hraw in Hrun2.
  exists ((c + leak_term o1) :: vs), self1, h1.
  exists (raw_progress self ou - crawl_ignored_potential h1 + leak_term ou).
  exists self2, h2.
  split.
  { cbn [potential_trace]. rewrite Hrun0. cbn [bind]. rewrite Hrun1. reflexivity. }
  split; [constructor; [reflexivity | exact Hvs] |].
  split; [exact Hh1 |]. split; [exact Hstart1 |].
  split; [rewrite Hign1; reflexivity |].
  split; [exact Hrun2 |]. split; [reflexivity |].
  split; [rewrite Hign1; ring |].
  split; [exact Hh2 |]. split; [exact Hstart2 | exact Hign2].
Qed.

Lemma crawl_suppression_witness :
  exists vs self1 vu self2 h2,
    potential_trace
      [Example.observation 0.4 3; Example.observation 0.3 2;
       Example.observation 0.5 1] Example.harder_runner = Ok (vs, self1)
    /\ Forall2 (fun o v => v = - (3) / 0.0165 - 0.0 + leak_term o)
         [Example.observation 0.4 3; Example.observation 0.3 2;
          Example.observation 0.5 1] vs
    /\ calc_potential HumanoidFlagrunHarder
         (observe (Example.observation 0.9 (1 # 2)) self1) = Ok (vu, self2)
    /\ vu - leak_term (Example.observation 0.9 (1 # 2)) - (- (3) / 0.0165 - 0.0)
       == - (1 # 2) / 0.0165 - - (1) / 0.0165
    /\ harder self2 = Bound h2
    /\ crawl_start_potential h2 = None.
Proof.
  assert (Hall : Forall down [Example.observation 0.4 3;
                              Example.observation 0.3 2;
                              Example.observation 0.5 1]).
  { repeat constructor; unfold down, Qlt; cbn; lia. }
  assert (Hup : ~ down (Example.observation 0.9 (1 # 2))).
  { unfold down, Qlt; cbn; lia. }
  destruct (crawl_suppression Example.harder_runner
              {| aggressive_cube := get_cube (- 1.5) 0 0.05;
                 on_ground_frame_counter := 0;
                 crawl_start_potential := None;
                 crawl_ignored_potential := 0.0 |}
              (Example.observation 0.4 3)
              [Example.observation 0.3 2; Example.observation 0.5 1]
              (Example.observation 0.9 (1 # 2))
              eq_refl Hall Hup)
    as [vs [self1 [h1 [vu [self2 [h2 H]]]]]].
  destruct H as [Hrun [Hvs [_ [_ [_ [Hrun2 [_ [Hnet [Hh2 [Hs2 _]]]]]]]]]].
  exists vs, self1, vu, self2, h2.
  split; [exact Hrun |]. split; [exact Hvs |].
  split; [exact Hrun2 |]. split; [exact Hnet |]. split; [exact Hh2 | exact Hs2].
Defined.

(** *** Alive bonus of [HalfCheetah] and of [Atlas] *)

Section AliveBonus.
Context {math : Np.Math}.

(** C7.  [HalfCheetah.alive_bonus(z, pitch)] is -1 exactly when
    [|pitch| >= 1.0] or one of the entries 1, 2, 4, 5 of [feet_contact]
    (fshin, fthigh, bshin, bthigh) registers contact, and +1 otherwise;
    [z] has no influence. *)
Theorem halfcheetah_alive_bonus (z pitch : Q) (self : Robot) (fc : list Q) :
  feet_contact self = Bound fc ->
  List.length fc = List.length (foot_list HalfCheetah) ->
  exists v,
    alive_bonus HalfCheetah z pitch self = Ok (v, self)
    /\ (v = - (1) <->
        (1.0 <= Qabs pitch
         \/ touching fc 1 \/ touching fc 2 \/ touching fc 4 \/ touching fc 5))
    /\ (v <> - (1) -> v = 1)
    /\ forall z', alive_bonus HalfCheetah z' pitch self = Ok (v, self).
Proof.
  intros Hfc Hlen.
  destruct fc as [| c0 [| c1 [| c2 [| c3 [| c4 [| c5 [| c6 fc]]]]]]];
    try discriminate Hlen.
  cbn [alive_bonus]. unfold HalfCheetah.alive_bonus. rewrite Hfc.
  unfold touching. cbn [getattr bind index nth_error].
  assert (Hno : forall c : Q, truthy c = false ->
                  ~ (exists c', Some c = Some c' /\ ~ c' == 0)).
  { intros c Hc [c' [E Hc']]. injection E as <-.
    apply truthy_false in Hc. contradiction. }
  assert (Hyes : forall c : Q, truthy c = true ->
                   exists c', Some c = Some c' /\ ~ c' == 0).
  { intros c Hc. exists c. split; [reflexivity |]. apply truthy_true. exact Hc. }
  assert (Hne : (1 : Q) <> - (1)) by discriminate.
  destruct (ltb (Qabs pitch) 1.0) eqn:Ep.
  - apply ltb_lt in Ep.
    destruct (truthy c1) eqn:E1; cbn [bind];
      [eexists; split; [reflexivity |]; split; [| split; [congruence | reflexivity]];
       split; [intros _; right; left; apply Hyes; exact E1 | reflexivity] |].
    destruct (truthy c2) eqn:E2; cbn [bind];
      [eexists; split; [reflexivity |]; split; [| split; [congruence | reflexivity]];
       split; [intros _; right; right; left; apply Hyes; exact E2 | reflexivity] |].
    destruct (truthy c4) eqn:E4; cbn [bind];
      [eexists; split; [reflexivity |]; split; [| split; [congruence | reflexivity]];
       split; [intros _; right; right; right; left; apply Hyes; exact E4
              | reflexivity] |].
    destruct (truthy c5) eqn:E5; cbn [bind];
      [eexists; split; [reflexivity |]; split; [| split; [congruence | reflexivity]];
       split; [intros _; right; right; right; right; apply Hyes; exact E5
              | reflexivity] |].
    eexists. split; [reflexivity |].
    split; [| split; [reflexivity | reflexivity]].
    split; [intros E; exfalso; exact (Hne E) |].
    intros [H | [H | [H | [H | H]]]].
    + exfalso. lra.
    + exfalso. exact (Hno c1 E1 H).
    + exfalso. exact (Hno c2 E2 H).
    + exfalso. exact (Hno c4 E4 H).
    + exfalso. exact (Hno c5 E5 H).
  - apply ltb_ge in Ep. cbn [bind]. eexists. split; [reflexivity |].
    split; [| split; [congruence | reflexivity]].
    split; [intros _; left; exact Ep | reflexivity].
Qed.

Lemma gt_knee_limit (x : Q) :
  Np.gt_f (Np.abs_f (Np.float32 x)) (Np.float32 0.99) = gtb (Qabs x) knee_limit.
Proof.
  destruct (Np.gt_f (Np.abs_f (Np.float32 x)) (Np.float32 0.99)) eqn:E1;
    destruct (gtb (Qabs x) knee_limit) eqn:E2; try reflexivity.
  - apply float32_abs_gt_099 in E1. apply gtb_gt in E1. congruence.
  - apply gtb_gt in E2. apply float32_abs_gt_099 in E2. congruence.
Qed.

(** The count of [Atlas.alive_bonus], made on the float32 array of the
    knee readings, is the number of knees beyond [knee_limit]. *)
Lemma knees_counted (l r : Joint) :
  Np.count_abs_gt
    (slice_0_2
       (Np.array_float32
          (flat_map (fun j => let '(pos, vel) := current_relative_position j in
                              [pos; vel]) [l; r]))) 0.99
  = knees_pinned l r.
Proof.
  unfold knees_pinned, Np.count_abs_gt, Np.array_float32. cbn [flat_map].
  destruct (current_relative_position l) as [lp lv].
  destruct (current_relative_position r) as [rp rv].
  cbn [app map slice_0_2 every_other filter fst].
  rewrite (gt_knee_limit lp), (gt_knee_limit rp).
  destruct (gtb (Qabs lp) knee_limit); destruct (gtb (Qabs rp) knee_limit);
    reflexivity.
Qed.

(** C8, amended.  [Atlas.alive_bonus(z, pitch)] replaces its argument [z]
    by the height of the head: when the head is above 1.3 it returns 4
    minus the number of knees whose normalised position, narrowed to
    float32, exceeds the float32 nearest to 0.99 in magnitude, which are
    the knees beyond [knee_limit] = 0.99000003933906555...; it returns -1
    otherwise, whatever height was passed. *)
Theorem atlas_alive_bonus_head_height (z pitch : Q) (self : Robot)
  (head_name : string) (head_part : BodyPart) (l_leg_kny r_leg_kny : Joint) :
  head self = Bound head_name ->
  lookup (parts self) head_name = Some head_part ->
  jdict_get (ordered_joints self) "l_leg_kny" = Ok l_leg_kny ->
  jdict_get (ordered_joints self) "r_leg_kny" = Ok r_leg_kny ->
  exists v,
    alive_bonus Atlas z pitch self = Ok (v, self)
    /\ (1.3 < snd (pose_xyz head_part) ->
        v = 4 - inject_Z (Z.of_nat (knees_pinned l_leg_kny r_leg_kny)))
    /\ (snd (pose_xyz head_part) <= 1.3 -> v = - (1))
    /\ forall z', alive_bonus Atlas z' pitch self = Ok (v, self).
Proof.
  intros Hhead Hpart Hl Hr.
  cbn [alive_bonus]. unfold Atlas.alive_bonus, getitem.
  rewrite Hhead. cbn [getattr bind]. rewrite Hpart. cbn [bind].
  destruct (pose_xyz head_part) as [[hx hy] hz]. cbn [snd].
  rewrite Hl, Hr. cbn [bind]. rewrite knees_counted.
  eexists. split; [reflexivity |].
  split; [| split; [| reflexivity]].
  - intros Hz. rewrite (proj2 (gtb_gt hz 1.3) Hz). reflexivity.
  - intros Hz. rewrite (proj2 (gtb_le hz 1.3) Hz). reflexivity.
Qed.

End AliveBonus.

Lemma halfcheetah_alive_bonus_witness :
  exists v,
    @alive_bonus rational_math HalfCheetah 0.6 0.2 Example.cheetah
    = Ok (v, Example.cheetah)
    /\ (v = - (1) <->
        (1.0 <= Qabs 0.2
         \/ touching [1; 0; 0; 1; 0; 0] 1 \/ touching [1; 0; 0; 1; 0; 0] 2
         \/ touching [1; 0; 0; 1; 0; 0] 4 \/ touching [1; 0; 0; 1; 0; 0] 5)).
Proof.
  destruct (@halfcheetah_alive_bonus rational_math 0.6 0.2 Example.cheetah
              [1; 0; 0; 1; 0; 0] eq_refl eq_refl) as [v [Hrun [Hiff _]]].
  exists v. split; [exact Hrun | exact Hiff].
Defined.

Lemma atlas_alive_bonus_head_height_witness :
  exists v,
    @alive_bonus rational_math Atlas 0 0 Example.atlas_tall
    = Ok (v, Example.atlas_tall)
    /\ v = 4 - inject_Z (Z.of_nat 1).
Proof.
  destruct (@atlas_alive_bonus_head_height rational_math 0 0 Example.atlas_tall
              "head" (Example.part 0 0 1.5)
              (Example.joint "l_leg_kny" 0.99000001 0)
              (Example.joint "r_leg_kny" (- 0.99000004) 0)
              eq_refl eq_refl eq_refl eq_refl) as [v [Hrun [Hhigh _]]].
  exists v. split; [exact Hrun |].
  apply Hhigh. cbn. unfold Qlt. cbn. lia.
Defined.

(** The narrowing at work: run on the robot of the witness, the method
    counts the right knee, at 0.99000004 in magnitude, and not the left
    one, at 0.99000001, although both are above 0.99. *)
Lemma atlas_knee_narrowing :
  Atlas.alive_bonus 0 0 Example.atlas_tall = Ok (4 - inject_Z (Z.of_nat 1))
  /\ Np.float32 0.99000001 = Np.float32 0.99
  /\ Np.float32 0.99 = Fin (16609444 # 16777216)
  /\ Np.float32 0.99000004 = Fin (16609445 # 16777216).
Proof.
  split; [vm_compute; reflexivity |]. split; [vm_compute; reflexivity |].
  split; vm_compute; reflexivity.
Qed.

(** C8 as stated fails: the height passed is 2, above 1.3, yet the result
    is -1 and not 4 minus the number of pinned knees (one knee is pinned
    here), because the head is at height 1. *)
Lemma atlas_alive_bonus_ignores_argument :
  1.3 < 2
  /\ Atlas.alive_bonus 2 0 Example.atlas = Ok (- (1))
  /\ knees_pinned (Example.joint "l_leg_kny" 1 0)
       (Example.joint "r_leg_kny" 0 0) = 1%nat
  /\ ~ - (1) == 4 - inject_Z (Z.of_nat 1).
Proof.
  split; [reflexivity |]. split; [reflexivity |]. split; [reflexivity |].
  intros H. discriminate H.
Qed.

(** *** Construction *)

(** C10.  The constructor of [HumanoidFlagrunHarder] raises on every
    call: it calls [HumanoidFlagrun.__init__] without the instance, so no
    instance is obtained through [HumanoidFlagrunHarder()]. *)
Theorem harder_constructor_raises :
  (forall self, HumanoidFlagrunHarder.__init__ [self] = Raise TypeError)
  /\ (forall args, exists e, __init__ HumanoidFlagrunHarder args = Raise e)
  /\ construct HumanoidFlagrunHarder = Raise TypeError
  /\ forall self, construct HumanoidFlagrunHarder <> Ok self.
Proof.
  split; [reflexivity |]. split.
  - intros [| self [| self' args]]; exists TypeError; reflexivity.
  - split; [reflexivity |]. intros self H. discriminate H.
Qed.

(** Every other class constructs, with the dimensions and the power that
    its [__init__] passes on. *)
Lemma construct_other_classes (cls : Class) :
  cls <> HumanoidFlagrunHarder ->
  exists self,
    construct cls = Ok self
    /\ obs_dim self = listed_obs_dim cls
    /\ (8 + 2 * action_dim self + List.length (foot_list cls))%nat = obs_dim self.
Proof.
  intros Hcls. destruct cls; try contradiction;
    (eexists; split; [reflexivity | split; reflexivity]).
Qed.

(** *** [calc_state] *)

Lemma bind_ok {A B : Type} (c : result A) (k : A -> result B) (b : B) :
  bind c k = Ok b -> exists a, c = Ok a /\ k a = Ok b.
Proof.
  destruct c as [a | e]; cbn; intros H; [| discriminate].
  exists a. split; [reflexivity | exact H].
Qed.

Lemma joint_readings_length (joints : list Joint) :
  List.length
    (flat_map (fun j => let '(pos, vel) := current_relative_position j in
                        [pos; vel]) joints)
  = (2 * List.length joints)%nat.
Proof.
  induction joints as [| j joints IH]; [reflexivity |].
  cbn [flat_map]. rewrite length_app, IH.
  destruct (current_relative_position j). cbn. lia.
Qed.

Section CalcState.
Context {math : Np.Math}.

(** [WalkerBase.calc_state] returns as soon as [initial_z] and
    [feet_contact] are assigned.  It leaves the observation in [observed]
    and latches [initial_z]; the first entry of the state is the clipped
    height above [initial_z]. *)
Lemma walker_calc_state (self : Robot) (iz : option Q) (fc : list Q) :
  initial_z self = Bound iz ->
  feet_contact self = Bound fc ->
  exists s o,
    WalkerBase.calc_state self
    = Ok (s, set_observed (Bound o) (latch_initial_z iz self))
    /\ List.length s
       = (8 + 2 * List.length (ordered_joints self) + List.length fc)%nat
    /\ Forall (fun x => - (5) <= x <= 5) s
    /\ walk_target_dist o = current_dist self
    /\ snd (body_xyz o) = current_height self
    /\ nth_error s 0
       = Some (Np.clip (current_height self
                        - match iz with
                          | Some z0 => z0
                          | None => current_height self
                          end) (- (5)) 5).
Proof.
  intros Hiz Hfc. unfold WalkerBase.calc_state.
  rewrite Hiz. cbn [getattr bind].
  destruct (pose_rpy (robot_body self)) as [[r p] yaw].
  destruct iz as [z0 |]; cbn [latch_initial_z].
  - destruct (speed (robot_body self)) as [[sx sy] sz].
    cbn [initial_z set_observed feet_contact].
    rewrite Hiz, Hfc. cbn [getattr bind].
    eexists. eexists. split; [reflexivity |].
    split.
    { rewrite clip_array_length. cbn [List.length app].
      rewrite length_app, joint_readings_length. lia. }
    split; [apply clip_array_bounds; lra |].
    split; [reflexivity |]. split; reflexivity.
  - cbn [robot_body set_initial_z].
    destruct (speed (robot_body self)) as [[sx sy] sz].
    cbn [initial_z set_observed set_initial_z feet_contact].
    rewrite Hfc. cbn [getattr bind].
    eexists. eexists. split; [reflexivity |].
    split.
    { rewrite clip_array_length. cbn [List.length app].
      rewrite length_app, joint_readings_length. cbn [ordered_joints]. lia. }
    split; [apply clip_array_bounds; lra |].
    split; [reflexivity |]. split; reflexivity.
Qed.

End CalcState.

(** *** [HumanoidFlagrun]: repositioning the flag *)

(** What [flag_reposition] leaves untouched. *)
Lemma flag_reposition_frame (self : Robot) :
  initial_z (HumanoidFlagrun.flag_reposition self) = initial_z self
  /\ feet_contact (HumanoidFlagrun.flag_reposition self) = feet_contact self
  /\ harder (HumanoidFlagrun.flag_reposition self) = harder self
  /\ ordered_joints (HumanoidFlagrun.flag_reposition self) = ordered_joints self
  /\ robot_body (HumanoidFlagrun.flag_reposition self) = robot_body self
  /\ scene (HumanoidFlagrun.flag_reposition self) = scene self.
Proof. repeat split; reflexivity. Qed.

Lemma uniform_range (low high u : Q) :
  low <= high -> 0 <= u -> u < 1 ->
  low <= low + (high - low) * u /\ low + (high - low) * u <= high.
Proof.
  intros Hlh Hu0 Hu1.
  assert (H0 : 0 <= (high - low) * u) by (apply Qmult_le_0_compat; lra).
  assert (H1 : (high - low) * u <= (high - low) * 1).
  { rewrite !(Qmult_comm (high - low)). apply Qmult_le_compat_r; lra. }
  lra.
Qed.

(** The new target lies in the middle half of the stadium, and the flag
    gets 200 ticks. *)
Lemma flag_reposition_target (self : Robot) :
  Np.well_formed (np_random self) ->
  0 <= stadium_halflen (scene self) ->
  0 <= stadium_halfwidth (scene self) ->
  let self' := HumanoidFlagrun.flag_reposition self in
  (- (0.5 * stadium_halflen (scene self)) <= walk_target_x self'
   /\ walk_target_x self' <= 0.5 * stadium_halflen (scene self))
  /\ (- (0.5 * stadium_halfwidth (scene self)) <= walk_target_y self'
      /\ walk_target_y self' <= 0.5 * stadium_halfwidth (scene self))
  /\ flagrun self'
     = Bound {| flag := Some (get_sphere (walk_target_x self')
                                (walk_target_y self') 0.2);
                flag_timeout := 200 |}.
Proof.
  intros Hrs Hlen Hwid self'.
  destruct (Hrs (Np.consumed (np_random self))) as [Hx0 Hx1].
  destruct (Hrs (S (Np.consumed (np_random self)))) as [Hy0 Hy1].
  pose proof (uniform_range (- stadium_halflen (scene self))
                (stadium_halflen (scene self)) _ ltac:(lra) Hx0 Hx1) as Hx.
  pose proof (uniform_range (- stadium_halfwidth (scene self))
                (stadium_halfwidth (scene self)) _ ltac:(lra) Hy0 Hy1) as Hy.
  subst self'. unfold HumanoidFlagrun.flag_reposition, Np.uniform.
  cbn [walk_target_x walk_target_y set_walk_target_x set_walk_target_y
       set_np_random set_flagrun flagrun np_random scene Np.samples
       Np.consumed].
  split; [lra |]. split; [lra | reflexivity].
Qed.

(** [HumanoidFlagrunHarder.calc_potential] returns once the robot has been
    observed, and only touches the crawl attributes. *)
Lemma harder_calc_potential_frame (self : Robot) (o : Observed) (h : Harder) :
  observed self = Bound o ->
  harder self = Bound h ->
  exists p h',
    HumanoidFlagrunHarder.calc_potential self
    = Ok (p, set_harder (Bound h') self).
Proof.
  intros Ho Hh.
  unfold HumanoidFlagrunHarder.calc_potential,
    HumanoidFlagrunHarder.flag_running_progress, WalkerBase.calc_potential.
  rewrite Ho, Hh. cbn [getattr bind].
  destruct (ltb (snd (body_xyz o)) 0.8).
  - destruct (crawl_start_potential h) as [c |] eqn:Estart.
    + rewrite Estart. cbn [bind].
      rewrite (potential_leak_value _ o) by exact Ho.
      eexists. eexists. reflexivity.
    + cbn [HumanoidFlagrunHarder.set_crawl_start_potential
             crawl_start_potential bind].
      rewrite (potential_leak_value _ o) by exact Ho.
      eexists. eexists. reflexivity.
  - cbn [bind]. rewrite (potential_leak_value _ o) by exact Ho.
    eexists. eexists. reflexivity.
Qed.

Lemma latch_frame (iz : option Q) (self : Robot) :
  initial_z (latch_initial_z iz self)
  = match iz with
    | Some _ => initial_z self
    | None => Bound (Some (current_height self))
    end
  /\ feet_contact (latch_initial_z iz self) = feet_contact self
  /\ flagrun (latch_initial_z iz self) = flagrun self
  /\ harder (latch_initial_z iz self) = harder self
  /\ ordered_joints (latch_initial_z iz self) = ordered_joints self
  /\ robot_body (latch_initial_z iz self) = robot_body self
  /\ scene (latch_initial_z iz self) = scene self
  /\ np_random (latch_initial_z iz self) = np_random self.
Proof. destruct iz; repeat split; reflexivity. Qed.

(** Reading a field of an instance after assignments to it. *)
Ltac fields :=
  cbn [model_file robot_name action_dim obs_dim ordered_joints robot_body
       limbs scene np_random frame power camera_x start_pos walk_target_x
       walk_target_y feet feet_contact initial_z observed motors flagrun
       potential harder head
       set_ordered_joints set_robot_body set_scene set_np_random
       set_walk_target_x set_walk_target_y set_feet set_feet_contact
       set_initial_z set_observed set_motors set_flagrun set_potential
       set_harder set_head observe].

Section FlagrunCalcState.
Context {math : Np.Math}.

(** The second half of [HumanoidFlagrun.calc_state], run once the flag
    has been moved: the state is computed again and the potential is
    refreshed by the [calc_potential] of the instance's class. *)
Lemma flagrun_recompute (cls : Class) (self : Robot) (z0 : Q) (fc : list Q) :
  is_flagrun cls = true ->
  initial_z self = Bound (Some z0) ->
  feet_contact self = Bound fc ->
  (cls = HumanoidFlagrunHarder -> exists h, harder self = Bound h) ->
  exists s self' o p,
    ('(state, self1) <- WalkerBase.calc_state self ;;
     '(potential', self2) <- calc_potential cls self1 ;;
     Ok (state, set_potential (Bound potential') self2)) = Ok (s, self')
    /\ WalkerBase.calc_state self = Ok (s, set_observed (Bound o) self)
    /\ List.length s
       = (8 + 2 * List.length (ordered_joints self) + List.length fc)%nat
    /\ Forall (fun x => - (5) <= x <= 5) s
    /\ nth_error s 0 = Some (Np.clip (current_height self - z0) (- (5)) 5)
    /\ initial_z self' = Bound (Some z0)
    /\ observed self' = Bound o
    /\ walk_target_dist o = current_dist self
    /\ walk_target_x self' = walk_target_x self
    /\ walk_target_y self' = walk_target_y self
    /\ flagrun self' = flagrun self
    /\ potential self' = Bound p
    /\ (cls = HumanoidFlagrun -> p = - walk_target_dist o / dt (scene self)).
Proof.
  intros Hcls Hiz Hfc Hh.
  destruct (walker_calc_state self (Some z0) fc Hiz Hfc)
    as [s [o [Hrun [Hlen [Hb [Hd [Hz Hn]]]]]]].
  cbn [latch_initial_z] in Hrun. rewrite Hrun. cbn [bind].
  destruct cls; try discriminate Hcls.
  - cbn [calc_potential]. unfold WalkerBase.calc_potential.
    cbn [observed set_observed getattr bind].
    eexists. eexists. exists o. eexists. split; [reflexivity |]. fields.
    repeat (split; [first [assumption | reflexivity] |]).
    intros _. reflexivity.
  - destruct (Hh eq_refl) as [h Hharder].
    destruct (harder_calc_potential_frame (set_observed (Bound o) self)
                o h eq_refl Hharder) as [p [h' Hpot]].
    cbn [calc_potential]. rewrite Hpot. cbn [bind].
    eexists. eexists. exists o, p. split; [reflexivity |]. fields.
    repeat (split; [first [assumption | reflexivity] |]).
    intros Habs. discriminate Habs.
Qed.

End FlagrunCalcState.

Section FlagrunCalcStateMain.
Context {math : Np.Math}.

(** [HumanoidFlagrun.calc_state], for both classes that use it.  The test
    that decides on a new flag reads the distance computed by this very
    call, [current_dist self]. *)
Lemma flagrun_calc_state (cls : Class) (self : Robot) (iz : option Q)
  (fc : list Q) (f : Flagrun) :
  is_flagrun cls = true ->
  initial_z self = Bound iz ->
  feet_contact self = Bound fc ->
  flagrun self = Bound f ->
  (cls = HumanoidFlagrunHarder -> exists h, harder self = Bound h) ->
  let z0 := match iz with
            | Some z0 => z0
            | None => current_height self
            end in
  exists s self' o1,
    calc_state cls self = Ok (s, self')
    /\ List.length s
       = (8 + 2 * List.length (ordered_joints self) + List.length fc)%nat
    /\ Forall (fun x => - (5) <= x <= 5) s
    /\ nth_error s 0 = Some (Np.clip (current_height self - z0) (- (5)) 5)
    /\ initial_z self' = Bound (Some z0)
    /\ let self1 :=
         set_observed (Bound o1)
           (latch_initial_z iz
              (set_flagrun (Bound {| flag := flag f;
                                     flag_timeout := flag_timeout f - 1 |})
                 self)) in
       (ltb (current_dist self) 1 || (flag_timeout f - 1 <=? 0)%Z = false ->
        self' = self1)
       /\ (ltb (current_dist self) 1 || (flag_timeout f - 1 <=? 0)%Z = true ->
           exists o2 p,
             observed self' = Bound o2
             /\ WalkerBase.calc_state (HumanoidFlagrun.flag_reposition self1)
                = Ok (s, set_observed (Bound o2)
                           (HumanoidFlagrun.flag_reposition self1))
             /\ walk_target_dist o2
                = current_dist (HumanoidFlagrun.flag_reposition self1)
             /\ walk_target_x self'
                = walk_target_x (HumanoidFlagrun.flag_reposition self1)
             /\ walk_target_y self'
                = walk_target_y (HumanoidFlagrun.flag_reposition self1)
             /\ flagrun self' = flagrun (HumanoidFlagrun.flag_reposition self1)
             /\ potential self' = Bound p
             /\ (cls = HumanoidFlagrun ->
                 p = - walk_target_dist o2 / dt (scene self))).
Proof.
  intros Hcls Hiz Hfc Hf Hh z0.
  assert (Hrun : calc_state cls self
                 = HumanoidFlagrun.calc_state (calc_potential cls) self)
    by (destruct cls; try discriminate; reflexivity).
  rewrite Hrun. unfold HumanoidFlagrun.calc_state.
  rewrite Hf. cbn [getattr bind].
  remember (set_flagrun (Bound {| flag := flag f;
                                  flag_timeout := flag_timeout f - 1 |}) self)
    as self0 eqn:E0.
  assert (F0 : initial_z self0 = Bound iz /\ feet_contact self0 = Bound fc
               /\ harder self0 = harder self
               /\ ordered_joints self0 = ordered_joints self
               /\ robot_body self0 = robot_body self
               /\ scene self0 = scene self
               /\ current_dist self0 = current_dist self
               /\ current_height self0 = current_height self
               /\ flagrun self0
                  = Bound {| flag := flag f;
                             flag_timeout := flag_timeout f - 1 |}).
  { subst self0. repeat split; assumption || reflexivity. }
  destruct F0 as [Hiz0 [Hfc0 [Hh0 [Hj0 [Hb0 [Hs0 [Hd0 [Hc0 Hf0]]]]]]]].
  destruct (walker_calc_state self0 iz fc Hiz0 Hfc0)
    as [s1 [o1 [Hrun1 [Hlen1 [Hb1 [Hd1 [Hz1 Hn1]]]]]]].
  rewrite Hrun1. cbn [bind observed set_observed getattr flagrun].
  destruct (latch_frame iz self0) as [Li [Lf [Lg [Lh [Lj [Lb [Ls Lr]]]]]]].
  rewrite Lg, Hf0. cbn [getattr bind flag_timeout]. rewrite Hd1, Hd0.
  remember (set_observed (Bound o1) (latch_initial_z iz self0)) as self1 eqn:E1.
  assert (F1 : initial_z self1 = Bound (Some z0)
               /\ feet_contact self1 = Bound fc
               /\ harder self1 = harder self
               /\ ordered_joints self1 = ordered_joints self
               /\ robot_body self1 = robot_body self
               /\ scene self1 = scene self).
  { subst self1. fields. rewrite Li, Lf, Lh, Lj, Lb, Ls.
    repeat split; try assumption.
    subst z0. destruct iz; [exact Hiz0 | rewrite Hc0; reflexivity]. }
  destruct F1 as [Hiz1 [Hfc1 [Hh1 [Hj1 [Hb1' Hs1]]]]].
  rewrite Hj0 in Hlen1. rewrite Hc0 in Hn1.
  destruct (ltb (current_dist self) 1 || (flag_timeout f - 1 <=? 0)%Z) eqn:Et.
  - (* a new flag *)
    cbv zeta.
    destruct (flag_reposition_frame self1) as [Fi [Ff [Fh [Fj [Fb Fs]]]]].
    destruct (flagrun_recompute cls (HumanoidFlagrun.flag_reposition self1)
                z0 fc Hcls (eq_trans Fi Hiz1) (eq_trans Ff Hfc1))
      as [s2 [self' [o2 [p H2]]]].
    { intros Hc. destruct (Hh Hc) as [h Hharder]. exists h.
      rewrite Fh, Hh1. exact Hharder. }
    destruct H2 as [Hrun2 [Hw2 [Hlen2 [Hb2 [Hn2 [Hiz2 [Ho2 H2]]]]]]].
    destruct H2 as [Hd2 [Hx2 [Hy2 [Hf2 [Hp2 Hpot]]]]].
    rewrite Hrun2.
    exists s2, self', o1. split; [reflexivity |].
    split; [rewrite Hlen2, Fj, Hj1; reflexivity |].
    split; [exact Hb2 |].
    split.
    { rewrite Hn2. unfold current_height. rewrite Fb, Hb1'. reflexivity. }
    split; [exact Hiz2 |].
    subst self0. subst self1.
    split; [intros Habs; discriminate Habs |].
    intros _. exists o2, p.
    split; [exact Ho2 |]. split; [exact Hw2 |].
    split; [exact Hd2 |]. split; [exact Hx2 |].
    split; [exact Hy2 |]. split; [exact Hf2 |]. split; [exact Hp2 |].
    intros Hc. rewrite (Hpot Hc), Fs, Hs1. reflexivity.
  - (* the flag stays *)
    exists s1, self1, o1. split; [reflexivity |].
    split; [exact Hlen1 |]. split; [exact Hb1 |]. split; [exact Hn1 |].
    split; [exact Hiz1 |]. subst self0. subst self1.
    split; [intros _; reflexivity |]. intros Habs. discriminate Habs.
Qed.

End FlagrunCalcStateMain.

(** *** [robot_specific_reset] *)

Ltac invert_binds :=
  repeat match goal with
         | H : bind _ _ = Ok _ |- _ =>
             let a := fresh "a" in
             let E := fresh "E" in
             apply bind_ok in H; destruct H as [a [E H]]
         end.

(** A comprehension that only checks its elements returns them. *)
Lemma comprehension_check {A B : Type} (g : A -> result B) (l a : list A) :
  comprehension (fun x => _ <- g x ;; Ok x) l = Ok a ->
  a = l /\ forall x, In x l -> exists y, g x = Ok y.
Proof.
  revert a. induction l as [| x l IH]; intros a H.
  - injection H as <-. split; [reflexivity |]. intros x [].
  - cbn [comprehension] in H.
    apply bind_ok in H. destruct H as [x' [Hx H]].
    apply bind_ok in H. destruct H as [l' [Hl H]].
    apply bind_ok in Hx. destruct Hx as [y [Hy Hx]].
    injection H as <-. injection Hx as <-.
    destruct (IH _ Hl) as [-> Hall].
    split; [reflexivity |].
    intros x' [<- | Hin]; [exists y; exact Hy | exact (Hall x' Hin)].
Qed.

Lemma reset_joints_length (joints : list Joint) (rs : Np.RandomState) :
  List.length (fst (WalkerBase.reset_joints joints rs)) = List.length joints.
Proof.
  revert rs. induction joints as [| j joints IH]; intros rs; [reflexivity |].
  cbn [WalkerBase.reset_joints Np.uniform].
  specialize (IH {| Np.samples := Np.samples rs;
                    Np.consumed := S (Np.consumed rs) |}).
  destruct (WalkerBase.reset_joints joints _) as [joints' rs'].
  cbn [fst List.length] in *. congruence.
Qed.

(** What [WalkerBase.robot_specific_reset] leaves behind when it returns. *)
Lemma walker_reset (cls : Class) (self self1 : Robot) :
  WalkerBase.robot_specific_reset cls self = Ok self1 ->
  initial_z self1 = Bound None
  /\ feet_contact self1 = Bound (map (fun _ => 0) (foot_list cls))
  /\ feet self1 = Bound (foot_list cls)
  /\ flagrun self1 = flagrun self
  /\ harder self1 = harder self
  /\ robot_body self1 = robot_body self
  /\ limbs self1 = limbs self
  /\ robot_name self1 = robot_name self
  /\ start_pos self1 = start_pos self
  /\ List.length (ordered_joints self1) = List.length (ordered_joints self)
  /\ actors_introduced (scene self1) = S (actors_introduced (scene self)).
Proof.
  unfold WalkerBase.robot_specific_reset. intros H.
  pose proof (reset_joints_length (ordered_joints self) (np_random self)) as Hl.
  destruct (WalkerBase.reset_joints (ordered_joints self) (np_random self))
    as [joints rs] eqn:Ej.
  invert_binds. injection H as <-. fields.
  destruct (comprehension_check _ _ _ E) as [-> _].
  repeat split. exact Hl.
Qed.

Lemma jdict_update_length (g : Joint -> Joint) (joints joints' : list Joint)
  (n : string) :
  jdict_update g joints n = Ok joints' ->
  List.length joints' = List.length joints.
Proof.
  revert joints'. induction joints as [| j joints IH]; intros joints' H.
  - discriminate H.
  - cbn [jdict_update] in H. destruct (String.eqb (joint_name j) n).
    + injection H as <-. reflexivity.
    + invert_binds. injection H as <-. cbn. rewrite (IH _ E). reflexivity.
Qed.

Lemma set_power_coefs_length (c : Q) (names : list string) :
  forall joints joints' : list Joint,
    Walker2D.set_power_coefs c names joints = Ok joints' ->
    List.length joints' = List.length joints.
Proof.
  induction names as [| n names IH]; intros joints joints' H.
  - injection H as <-. reflexivity.
  - cbn [Walker2D.set_power_coefs] in H. invert_binds.
    rewrite (IH _ _ H). exact (jdict_update_length _ _ _ _ E).
Qed.

Lemma walker_reset_like (cls : Class) (self self1 : Robot) :
  WalkerBase.robot_specific_reset cls self = Ok self1 ->
  initial_z self1 = Bound None /\ reset_like_walker cls self self1.
Proof.
  intros H. destruct (walker_reset cls self self1 H)
    as [Hi [Hf [_ [Hg [Hh [Hb [_ [_ [Hs [Hl _]]]]]]]]]].
  split; [exact Hi |]. repeat split; assumption.
Qed.

Lemma walker2d_reset (cls : Class) (self self1 : Robot) :
  Walker2D.robot_specific_reset cls self = Ok self1 ->
  initial_z self1 = Bound None /\ reset_like_walker cls self self1.
Proof.
  unfold Walker2D.robot_specific_reset. intros H. invert_binds.
  injection H as <-.
  destruct (walker_reset_like cls self a E) as [Hi [Hf [Hg [Hh [Hb [Hs Hl]]]]]].
  split; [exact Hi |]. unfold reset_like_walker. fields.
  repeat split; try assumption.
  rewrite (set_power_coefs_length _ _ _ _ E0). exact Hl.
Qed.

Lemma halfcheetah_reset (cls : Class) (self self1 : Robot) :
  HalfCheetah.robot_specific_reset cls self = Ok self1 ->
  initial_z self1 = Bound None /\ reset_like_walker cls self self1.
Proof.
  unfold HalfCheetah.robot_specific_reset. intros H. invert_binds.
  injection H as <-.
  destruct (walker_reset_like cls self a E) as [Hi [Hf [Hg [Hh [Hb [Hs Hl]]]]]].
  split; [exact Hi |]. unfold reset_like_walker. fields.
  repeat split; try assumption.
  repeat match goal with
         | Hu : jdict_update _ _ _ = Ok _ |- _ =>
             apply jdict_update_length in Hu
         end.
  congruence.
Qed.

Lemma humanoid_reset (cls : Class) (self self1 : Robot) :
  Humanoid.robot_specific_reset cls self = Ok self1 ->
  initial_z self1 = Bound (Some 0.8) /\ reset_like_walker cls self self1.
Proof.
  unfold Humanoid.robot_specific_reset. intros H. invert_binds.
  injection H as <-.
  destruct (walker_reset_like cls self a E) as [Hi [Hf [Hg [Hh [Hb [Hs Hl]]]]]].
  split; [reflexivity |]. unfold reset_like_walker. fields.
  repeat split; assumption.
Qed.

Lemma flagrun_reset (cls : Class) (self self1 : Robot) :
  HumanoidFlagrun.robot_specific_reset cls self = Ok self1 ->
  initial_z self1 = Bound (Some 0.8)
  /\ feet_contact self1 = Bound (map (fun _ => 0) (foot_list cls))
  /\ harder self1 = harder self
  /\ robot_body self1 = robot_body self
  /\ exists f, flagrun self1 = Bound f /\ flag_timeout f = 200%Z.
Proof.
  unfold HumanoidFlagrun.robot_specific_reset. intros H. invert_binds.
  injection H as <-.
  destruct (humanoid_reset cls self a E) as [Hi [Hf [Hg [Hh [Hb [Hs Hl]]]]]].
  destruct (flag_reposition_frame a) as [Fi [Ff [Fh [Fj [Fb Fs]]]]].
  rewrite Fi, Ff, Fh, Fb.
  split; [exact Hi |]. split; [exact Hf |]. split; [exact Hh |].
  split; [exact Hb |].
  eexists. split; reflexivity.
Qed.

Lemma harder_reset (cls : Class) (self self1 : Robot) :
  HumanoidFlagrunHarder.robot_specific_reset cls self = Ok self1 ->
  initial_z self1 = Bound (Some 0.8)
  /\ feet_contact self1 = Bound (map (fun _ => 0) (foot_list cls))
  /\ robot_body self1 = robot_body self
  /\ (exists f, flagrun self1 = Bound f /\ flag_timeout f = 200%Z)
  /\ harder self1
     = Bound {| aggressive_cube := get_cube (- 1.5) 0 0.05;
                on_ground_frame_counter := 0;
                crawl_start_potential := None;
                crawl_ignored_potential := 0.0 |}.
Proof.
  unfold HumanoidFlagrunHarder.robot_specific_reset. intros H. invert_binds.
  injection H as <-.
  destruct (flagrun_reset cls self a E) as [Hi [Hf [Hh [Hb Hg]]]].
  fields. split; [reflexivity |]. split; [exact Hf |]. split; [exact Hb |].
  split; [exact Hg | reflexivity].
Qed.

Lemma atlas_reset (cls : Class) (self self1 : Robot) :
  Atlas.robot_specific_reset cls self = Ok self1 ->
  initial_z self1 = Bound (Some 1.5)
  /\ feet_contact self1 = Bound (map (fun _ => 0) (foot_list cls))
  /\ head self1 = Bound "head"%string
  /\ (exists head_part, lookup (parts self1) "head" = Some head_part)
  /\ pose_xyz (robot_body self1)
     = (fst (fst (start_pos self)), snd (fst (start_pos self)),
        snd (start_pos self) + 1.0)
  /\ pose_rpy (robot_body self1) = (0, 0, 0).
Proof.
  unfold Atlas.robot_specific_reset. intros H. invert_binds.
  injection H as <-.
  destruct (walker_reset_like cls self a E) as [Hi [Hf [Hg [Hh [Hb [Hs Hl]]]]]].
  unfold getitem in E0.
  destruct (lookup (parts (Atlas.set_initial_orientation cls 0 Np.pi a)) "head")
    as [head_part |] eqn:Ehead; [| discriminate E0].
  revert Ehead. unfold Atlas.set_initial_orientation, parts.
  cbn [random_yaw negb]. rewrite Hs.
  destruct (start_pos self) as [[sx sy] sz]. fields. intros Ehead.
  split; [reflexivity |]. split; [exact Hf |]. split; [reflexivity |].
  split; [exists head_part; exact Ehead |]. split; reflexivity.
Qed.

(** After its reset, a robot of any class has what its [calc_state]
    reads, and [initial_z] is as its class sets it. *)
Lemma reset_ready (cls : Class) (self self1 : Robot) :
  robot_specific_reset cls self = Ok self1 ->
  ready cls self1 /\ initial_z self1 = Bound (initial_z_after_reset cls).
Proof.
  intros H.
  assert (Hcore : initial_z self1 = Bound (initial_z_after_reset cls)
                  /\ feet_contact self1 = Bound (map (fun _ => 0) (foot_list cls))
                  /\ (is_flagrun cls = true -> exists f, flagrun self1 = Bound f)
                  /\ (cls = HumanoidFlagrunHarder ->
                      exists h, harder self1 = Bound h)).
  { destruct cls; cbn [robot_specific_reset] in H.
    - destruct (walker_reset_like _ _ _ H) as [Hi [Hf _]].
      repeat split; try assumption; intros Habs; discriminate Habs.
    - destruct (walker2d_reset _ _ _ H) as [Hi [Hf _]].
      repeat split; try assumption; intros Habs; discriminate Habs.
    - destruct (halfcheetah_reset _ _ _ H) as [Hi [Hf _]].
      repeat split; try assumption; intros Habs; discriminate Habs.
    - destruct (walker_reset_like _ _ _ H) as [Hi [Hf _]].
      repeat split; try assumption; intros Habs; discriminate Habs.
    - destruct (humanoid_reset _ _ _ H) as [Hi [Hf _]].
      repeat split; try assumption; intros Habs; discriminate Habs.
    - destruct (flagrun_reset _ _ _ H) as [Hi [Hf [_ [_ [f [Hg _]]]]]].
      repeat split; try assumption; [eauto | intros Habs; discriminate Habs].
    - destruct (harder_reset _ _ _ H) as [Hi [Hf [_ [[f [Hg _]] Hh]]]].
      repeat split; try assumption; eauto.
    - destruct (atlas_reset _ _ _ H) as [Hi [Hf _]].
      repeat split; try assumption; intros Habs; discriminate Habs. }
  destruct Hcore as [Hi [Hf [Hg Hh]]].
  split; [| exact Hi]. unfold ready.
  split; [eauto |]. split; [| split; assumption].
  eexists. split; [exact Hf | apply length_map].
Qed.

(** *** The observation *)

Section Observation.
Context {math : Np.Math}.

(** [calc_state] of any class returns on a robot that is ready, with
    eight entries, two per joint and one per foot, all within [[-5, 5]];
    the first entry is the clipped height above [initial_z], and
    [initial_z] is latched. *)
Lemma calc_state_shape (cls : Class) (self : Robot) (iz : option Q) :
  ready cls self ->
  initial_z self = Bound iz ->
  let z0 := match iz with
            | Some z0 => z0
            | None => current_height self
            end in
  exists s self',
    calc_state cls self = Ok (s, self')
    /\ List.length s
       = (8 + 2 * List.length (ordered_joints self)
          + List.length (foot_list cls))%nat
    /\ Forall (fun x => - (5) <= x <= 5) s
    /\ nth_error s 0 = Some (Np.clip (current_height self - z0) (- (5)) 5)
    /\ initial_z self' = Bound (Some z0).
Proof.
  intros [_ [[fc [Hfc Hlen]] [Hflag Hharder]]] Hiz z0.
  destruct (is_flagrun cls) eqn:Ecls.
  - destruct (Hflag eq_refl) as [f Hf].
    destruct (flagrun_calc_state cls self iz fc f Ecls Hiz Hfc Hf Hharder)
      as [s [self' [o1 [Hrun [Hl [Hb [Hn [Hi _]]]]]]]].
    exists s, self'. rewrite <- Hlen. auto.
  - assert (Hrun : calc_state cls = WalkerBase.calc_state)
      by (destruct cls; try discriminate Ecls; reflexivity).
    rewrite Hrun.
    destruct (walker_calc_state self iz fc Hiz Hfc)
      as [s [o [Hrun1 [Hl [Hb [Hd [Hz Hn]]]]]]].
    rewrite Hrun1. eexists. eexists. split; [reflexivity |].
    rewrite <- Hlen. split; [exact Hl |]. split; [exact Hb |].
    split; [exact Hn |]. fields.
    destruct (latch_frame iz self) as [Li _]. rewrite Li.
    subst z0. destruct iz; [exact Hiz | reflexivity].
Qed.

(** C3.  On a robot that carries the dimensions its constructor declares
    and one joint per action, [calc_state()] returns a vector whose length
    is the declared [obs_dim] (15 for Hopper, 22 for Walker2D, 26 for
    HalfCheetah, 28 for Ant, 44 for the humanoids, 70 for Atlas), and
    every entry of it lies in [[-5, 5]]. *)
Theorem calc_state_obs_dim (cls : Class) (self : Robot) :
  ready cls self ->
  constructed cls self ->
  exists s self',
    calc_state cls self = Ok (s, self')
    /\ List.length s = obs_dim self
    /\ obs_dim self = listed_obs_dim cls
    /\ Forall (fun x => - (5) <= x <= 5) s.
Proof.
  intros Hready [[self0 [r [Hinit [Ha Ho]]]] Hj].
  destruct (proj1 Hready) as [iz Hiz].
  destruct (calc_state_shape cls self iz Hready Hiz)
    as [s [self' [Hrun [Hlen [Hb _]]]]].
  exists s, self'. split; [exact Hrun |].
  rewrite Hlen, Hj, Ha, Ho.
  destruct cls; cbn in Hinit; try discriminate Hinit;
    injection Hinit as <-; repeat split; try reflexivity; exact Hb.
Qed.

(** C5, amended.  When the distance to the target that a call of
    [calc_state()] computes first, from the current position and the
    current target, is below 1, or the decremented [flag_timeout] is 0 or
    less, that call moves the flag: the new target lies within half the
    stadium's half extents, [flag_timeout] is 200, the state returned is
    the one computed against the new target, and [potential] is
    [calc_potential()] for the new target. *)
Theorem flagrun_calc_state_retargets (self : Robot) (iz : option Q)
  (fc : list Q) (f : Flagrun) :
  initial_z self = Bound iz ->
  feet_contact self = Bound fc ->
  flagrun self = Bound f ->
  Np.well_formed (np_random self) ->
  0 <= stadium_halflen (scene self) ->
  0 <= stadium_halfwidth (scene self) ->
  current_dist self < 1 \/ (flag_timeout f - 1 <= 0)%Z ->
  exists s self' retargeted f' o p,
    calc_state HumanoidFlagrun self = Ok (s, self')
    /\ - (0.5 * stadium_halflen (scene self)) <= walk_target_x self'
    /\ walk_target_x self' <= 0.5 * stadium_halflen (scene self)
    /\ - (0.5 * stadium_halfwidth (scene self)) <= walk_target_y self'
    /\ walk_target_y self' <= 0.5 * stadium_halfwidth (scene self)
    /\ flagrun self' = Bound f'
    /\ flag_timeout f' = 200%Z
    /\ walk_target_x retargeted = walk_target_x self'
    /\ walk_target_y retargeted = walk_target_y self'
    /\ parts retargeted = parts self
    /\ WalkerBase.calc_state retargeted
       = Ok (s, set_observed (Bound o) retargeted)
    /\ observed self' = Bound o
    /\ walk_target_dist o
       = Np.linalg_norm [walk_target_y self' - snd (current_xy self);
                         walk_target_x self' - fst (current_xy self)]
    /\ potential self' = Bound p
    /\ p = - walk_target_dist o / dt (scene self).
Proof.
  intros Hiz Hfc Hf Hrs Hlen Hwid Htrig.
  assert (Hharder : HumanoidFlagrun = HumanoidFlagrunHarder ->
                    exists h, harder self = Bound h)
    by (intros Habs; discriminate Habs).
  destruct (flagrun_calc_state HumanoidFlagrun self iz fc f eq_refl
              Hiz Hfc Hf Hharder)
    as [s [self' [o1 [Hrun [_ [_ [_ [_ [_ Hmove]]]]]]]]].
  assert (Et : ltb (current_dist self) 1 || (flag_timeout f - 1 <=? 0)%Z = true).
  { apply orb_true_iff. destruct Htrig as [Hd | Ht].
    - left. apply ltb_lt. exact Hd.
    - right. apply Z.leb_le. exact Ht. }
  destruct (Hmove Et) as [o2 [p [Ho2 [Hw2 [Hd2 [Hx2 [Hy2 [Hf2 [Hp2 Hpot]]]]]]]]].
  set (self1 := set_observed (Bound o1)
                  (latch_initial_z iz
                     (set_flagrun
                        (Bound {| flag := flag f;
                                  flag_timeout := flag_timeout f - 1 |})
                        self))) in *.
  destruct (latch_frame iz
              (set_flagrun (Bound {| flag := flag f;
                                     flag_timeout := flag_timeout f - 1 |})
                 self)) as [_ [_ [_ [_ [_ [Lb [Ls Lr]]]]]]].
  assert (Hrs1 : np_random self1 = np_random self) by exact Lr.
  assert (Hsc1 : scene self1 = scene self) by exact Ls.
  assert (Hparts : parts (HumanoidFlagrun.flag_reposition self1) = parts self).
  { transitivity (parts self1); [reflexivity |].
    unfold parts, self1. fields. destruct iz; reflexivity. }
  destruct (flag_reposition_target self1) as [[Hxl Hxh] [[Hyl Hyh] Hflag]].
  { rewrite Hrs1. exact Hrs. }
  { rewrite Hsc1. exact Hlen. }
  { rewrite Hsc1. exact Hwid. }
  rewrite Hsc1 in Hxl, Hxh, Hyl, Hyh.
  rewrite <- Hx2 in Hxl, Hxh. rewrite <- Hy2 in Hyl, Hyh.
  exists s, self', (HumanoidFlagrun.flag_reposition self1).
  eexists. exists o2, p.
  split; [exact Hrun |].
  split; [exact Hxl |]. split; [exact Hxh |].
  split; [exact Hyl |]. split; [exact Hyh |].
  split; [rewrite Hf2; exact Hflag |]. split; [reflexivity |].
  split; [symmetry; exact Hx2 |]. split; [symmetry; exact Hy2 |].
  split; [exact Hparts |]. split; [exact Hw2 |]. split; [exact Ho2 |].
  split.
  { rewrite Hd2. unfold current_dist, current_xy.
    rewrite Hparts, Hx2, Hy2. reflexivity. }
  split; [exact Hp2 | exact (Hpot eq_refl)].
Qed.

(** C9, amended.  When [robot_specific_reset()] returns, [initial_z] is
    unset for Hopper, Walker2D, HalfCheetah and Ant, 0.8 for the
    humanoids and 1.5 for Atlas.  The first [calc_state()] after it does
    not raise.  Where [initial_z] was unset it becomes the current height
    and the first entry of the observation is zero; elsewhere [initial_z]
    stays and the first entry is the height above it, clipped. *)
Theorem first_calc_state_after_reset (cls : Class) (self self1 : Robot) :
  robot_specific_reset cls self = Ok self1 ->
  initial_z self1 = Bound (initial_z_after_reset cls)
  /\ exists s self2 d,
       calc_state cls self1 = Ok (s, self2)
       /\ nth_error s 0 = Some d
       /\ match initial_z_after_reset cls with
          | None =>
              initial_z self2 = Bound (Some (current_height self1)) /\ d == 0
          | Some z0 =>
              initial_z self2 = Bound (Some z0)
              /\ d = Np.clip (current_height self1 - z0) (- (5)) 5
          end.
Proof.
  intros H. destruct (reset_ready cls self self1 H) as [Hready Hiz].
  split; [exact Hiz |].
  destruct (calc_state_shape cls self1 _ Hready Hiz)
    as [s [self2 [Hrun [_ [_ [Hn Hi]]]]]].
  exists s, self2. eexists. split; [exact Hrun |]. split; [exact Hn |].
  destruct (initial_z_after_reset cls) as [z0 |].
  - split; [exact Hi | reflexivity].
  - split; [exact Hi |].
    destruct (clip_cases (current_height self1 - current_height self1)
                (- (5)) 5 ltac:(lra)) as [[Hc E] | [[Hc E] | [Hc E]]];
      rewrite E; lra.
Qed.

End Observation.

Lemma example_rng_well_formed (k : nat) :
  Np.well_formed {| Np.samples := Np.samples Example.rng; Np.consumed := k |}.
Proof.
  intros n. cbn. unfold Qle, Qlt. cbn. split; lia.
Qed.

Lemma calc_state_obs_dim_witness :
  exists s self',
    @calc_state rational_math Hopper Example.hopper_reset = Ok (s, self')
    /\ List.length s = 15%nat
    /\ Forall (fun x => - (5) <= x <= 5) s.
Proof.
  assert (Hready : ready Hopper Example.hopper_reset).
  { split; [eexists; reflexivity |].
    split; [eexists; split; reflexivity |].
    split; intros Habs; discriminate Habs. }
  assert (Hcons : constructed Hopper Example.hopper_reset).
  { split; [| reflexivity].
    exists bare. eexists. split; [reflexivity |]. split; reflexivity. }
  destruct (@calc_state_obs_dim rational_math Hopper Example.hopper_reset
              Hready Hcons) as [s [self' [Hrun [Hlen [_ Hb]]]]].
  exists s, self'. split; [exact Hrun |]. split; [exact Hlen | exact Hb].
Defined.

Lemma flagrun_calc_state_retargets_witness :
  exists s self' f',
    @calc_state rational_math HumanoidFlagrun Example.flagrunner_late
    = Ok (s, self')
    /\ - (0.5 * 52.5) <= walk_target_x self'
    /\ walk_target_x self' <= 0.5 * 52.5
    /\ flagrun self' = Bound f'
    /\ flag_timeout f' = 200%Z.
Proof.
  assert (Hrs : Np.well_formed (np_random Example.flagrunner_late)).
  { exact (example_rng_well_formed 19). }
  assert (Hlen : 0 <= stadium_halflen (scene Example.flagrunner_late)).
  { cbn. unfold Qle. cbn. lia. }
  assert (Hwid : 0 <= stadium_halfwidth (scene Example.flagrunner_late)).
  { cbn. unfold Qle. cbn. lia. }
  destruct (@flagrun_calc_state_retargets rational_math
              Example.flagrunner_late (Some 0.8) [0; 0]
              {| flag := None; flag_timeout := 1 |}
              eq_refl eq_refl eq_refl Hrs Hlen Hwid
              (or_intror (Z.le_refl 0)))
    as [s [self' [r [f' [o [p H]]]]]].
  destruct H as [Hrun [Hxl [Hxh [_ [_ [Hf [Ht _]]]]]]].
  exists s, self', f'. split; [exact Hrun |]. split; [exact Hxl |].
  split; [exact Hxh |]. split; [exact Hf | exact Ht].
Defined.

(** C5 as stated fails: the distance left by the previous call is 0.5,
    below 1, and 99 ticks remain after the decrement; the call computes
    the distance anew, finds 3, and leaves the flag, its timer and the
    potential alone. *)
Lemma flagrun_stale_distance_keeps_flag :
  exists o f s self' f',
    observed Example.flagrunner = Bound o
    /\ walk_target_dist o < 1
    /\ flagrun Example.flagrunner = Bound f
    /\ (0 < flag_timeout f - 1)%Z
    /\ @calc_state rational_math HumanoidFlagrun Example.flagrunner
       = Ok (s, self')
    /\ flagrun self' = Bound f'
    /\ flag_timeout f' = 99%Z
    /\ walk_target_x self' = 3
    /\ walk_target_y self' = 0
    /\ potential self' = Unbound.
Proof.
  vm_compute. eexists. eexists. eexists. eexists. eexists.
  repeat split; reflexivity.
Qed.

Lemma first_calc_state_after_reset_witness :
  initial_z Example.hopper_reset = Bound None
  /\ exists s self2 d,
       @calc_state rational_math Hopper Example.hopper_reset = Ok (s, self2)
       /\ nth_error s 0 = Some d
       /\ initial_z self2 = Bound (Some 1.25)
       /\ d == 0.
Proof.
  destruct (@first_calc_state_after_reset rational_math Hopper Example.hopper
              Example.hopper_reset eq_refl)
    as [Hi [s [self2 [d [Hrun [Hn [Hz Hd]]]]]]].
  split; [exact Hi |]. exists s, self2, d.
  split; [exact Hrun |]. split; [exact Hn |]. split; [exact Hz | exact Hd].
Defined.

(** C9 as stated fails: the reset of a humanoid leaves [initial_z] at 0.8;
    the first [calc_state()] keeps it there although the robot stands at
    1.4, and the first entry of the observation is 0.6, not zero. *)
Lemma humanoid_reset_sets_initial_z :
  robot_specific_reset Humanoid Example.humanoid = Ok Example.humanoid_reset
  /\ initial_z Example.humanoid_reset = Bound (Some 0.8)
  /\ current_height Example.humanoid_reset = 1.4
  /\ exists s self2 d,
       @calc_state rational_math Humanoid Example.humanoid_reset = Ok (s, self2)
       /\ initial_z self2 = Bound (Some 0.8)
       /\ nth_error s 0 = Some d
       /\ d == 0.6
       /\ ~ d == 0.
Proof.
  assert (Hreset : robot_specific_reset Humanoid Example.humanoid
                   = Ok Example.humanoid_reset) by (vm_compute; reflexivity).
  destruct (reset_ready Humanoid _ _ Hreset) as [Hready Hiz].
  destruct (@calc_state_shape rational_math Humanoid Example.humanoid_reset
              (Some 0.8) Hready Hiz) as [s [self2 [Hrun [_ [_ [Hn Hi]]]]]].
  split; [exact Hreset |]. split; [exact Hiz |]. split; [reflexivity |].
  exists s, self2. eexists.
  split; [exact Hrun |]. split; [exact Hi |]. split; [exact Hn |].
  split; [vm_compute; reflexivity |].
  vm_compute. intros H. discriminate H.
Qed.

(* ================================================================== *)
(** ** Further properties of the code *)
(* ================================================================== *)

(** *** [WalkerBase.robot_specific_reset] *)

Lemma comprehension_all {A B : Type} (g : A -> result B) (l : list A) :
  (forall x, In x l -> exists y, g x = Ok y) ->
  comprehension (fun x => _ <- g x ;; Ok x) l = Ok l.
Proof.
  induction l as [| x l IH]; intros Hall; [reflexivity |].
  cbn [comprehension]. destruct (Hall x (or_introl eq_refl)) as [y Hy].
  rewrite Hy. cbn [bind]. rewrite IH; [reflexivity |].
  intros x' Hin. apply Hall. right. exact Hin.
Qed.

Lemma comprehension_raises {A B : Type} (g : A -> result B) (l : list A)
  (e : exn) :
  (forall x, In x l -> (exists y, g x = Ok y) \/ g x = Raise e) ->
  (exists x, In x l /\ g x = Raise e) ->
  comprehension (fun x => _ <- g x ;; Ok x) l = Raise e.
Proof.
  induction l as [| x l IH]; intros Hall [x0 [Hin Hx0]]; [destruct Hin |].
  cbn [comprehension].
  destruct (Hall x (or_introl eq_refl)) as [[y Hy] | Hy].
  - rewrite Hy. cbn [bind]. rewrite IH; [reflexivity | |].
    + intros x' Hin'. apply Hall. right. exact Hin'.
    + destruct Hin as [<- | Hin]; [congruence |]. exists x0. auto.
  - rewrite Hy. reflexivity.
Qed.

Lemma getitem_cases {A : Type} (d : dict A) (k : string) :
  (exists a, getitem d k = Ok a /\ lookup d k = Some a)
  \/ (getitem d k = Raise KeyError /\ lookup d k = None).
Proof.
  unfold getitem. destruct (lookup d k) as [a |]; [left; eauto | right; auto].
Qed.

(** [WalkerBase.robot_specific_reset] returns exactly when every name of
    [foot_list] is a part of the robot, and raises [KeyError] otherwise.
    When it returns, [feet_contact] is one zero per foot, [initial_z] is
    unset and the scene has been told of the robot once. *)
Theorem walker_reset_needs_feet (cls : Class) (self : Robot) :
  ((forall f, In f (foot_list cls) -> lookup (parts self) f <> None) ->
   exists self1,
     WalkerBase.robot_specific_reset cls self = Ok self1
     /\ feet self1 = Bound (foot_list cls)
     /\ feet_contact self1 = Bound (repeat 0 (List.length (foot_list cls)))
     /\ initial_z self1 = Bound None
     /\ actors_introduced (scene self1) = S (actors_introduced (scene self)))
  /\ ((exists f, In f (foot_list cls) /\ lookup (parts self) f = None) ->
      WalkerBase.robot_specific_reset cls self = Raise KeyError).
Proof.
  unfold WalkerBase.robot_specific_reset.
  destruct (WalkerBase.reset_joints (ordered_joints self) (np_random self))
    as [joints rs].
  assert (Hparts : parts (set_np_random rs (set_ordered_joints joints self))
                   = parts self) by reflexivity.
  rewrite Hparts. split.
  - intros Hall. rewrite comprehension_all.
    + cbn [bind]. eexists. split; [reflexivity |]. fields.
      split; [reflexivity |]. split; [| split; reflexivity].
      f_equal. clear Hall. induction (foot_list cls) as [| f l IH];
        [reflexivity |].
      cbn. f_equal. exact IH.
    + intros f Hin. destruct (getitem_cases (parts self) f) as [[a [E _]] | [_ E]].
      * exists a. exact E.
      * exfalso. exact (Hall f Hin E).
  - intros [f [Hin Hf]]. rewrite (comprehension_raises _ _ KeyError).
    + reflexivity.
    + intros f' _. destruct (getitem_cases (parts self) f') as [[a [E _]] | [E _]];
        [left; exists a; exact E | right; exact E].
    + exists f. split; [exact Hin |].
      unfold getitem. rewrite Hf. reflexivity.
Qed.

Lemma walker_reset_needs_feet_witness :
  (exists self1,
     WalkerBase.robot_specific_reset Hopper Example.hopper = Ok self1
     /\ feet_contact self1 = Bound [0])
  /\ WalkerBase.robot_specific_reset Ant Example.hopper = Raise KeyError.
Proof.
  destruct (walker_reset_needs_feet Hopper Example.hopper) as [Hok _].
  destruct (walker_reset_needs_feet Ant Example.hopper) as [_ Hbad].
  split.
  - destruct Hok as [self1 [Hrun [_ [Hfc _]]]].
    + intros f [<- | []]. discriminate.
    + exists self1. split; [exact Hrun | exact Hfc].
  - apply Hbad. exists "front_left_foot"%string.
    split; [left; reflexivity | reflexivity].
Defined.

(** The joints after [WalkerBase.reset_joints]: one sample drawn per
    joint, the position within [[-0.1, 0.1]], the velocity zero, and the
    rest of the joint as it was. *)
Lemma reset_joints_each (joints : list Joint) :
  forall rs : Np.RandomState,
    Np.well_formed rs ->
    Np.samples (snd (WalkerBase.reset_joints joints rs)) = Np.samples rs
    /\ Np.consumed (snd (WalkerBase.reset_joints joints rs))
       = (Np.consumed rs + List.length joints)%nat
    /\ Forall2
         (fun j j' =>
            exists u, - 0.1 <= u /\ u <= 0.1
                      /\ j' = reset_current_position u 0 j)
         joints (fst (WalkerBase.reset_joints joints rs)).
Proof.
  induction joints as [| j joints IH]; intros rs Hrs.
  - cbn. split; [reflexivity |]. split; [lia | constructor].
  - cbn [WalkerBase.reset_joints Np.uniform].
    set (rs1 := {| Np.samples := Np.samples rs;
                   Np.consumed := S (Np.consumed rs) |}).
    assert (Hrs1 : Np.well_formed rs1) by exact Hrs.
    destruct (IH rs1 Hrs1) as [Hs [Hc Hall]].
    destruct (WalkerBase.reset_joints joints rs1) as [joints' rs'].
    cbn [fst snd] in *. split; [exact Hs |].
    split; [rewrite Hc; cbn; lia |].
    constructor; [| exact Hall].
    destruct (Hrs (Np.consumed rs)) as [H0 H1].
    destruct (uniform_range (- 0.1) 0.1 (Np.samples rs (Np.consumed rs))
                ltac:(lra) H0 H1) as [Hlo Hhi].
    eexists. split; [exact Hlo |]. split; [exact Hhi | reflexivity].
Qed.

Lemma Forall2_nth_left {A B : Type} (R : A -> B -> Prop) (l : list A)
  (l' : list B) (n : nat) (x : A) :
  Forall2 R l l' -> nth_error l n = Some x ->
  exists y, nth_error l' n = Some y /\ R x y.
Proof.
  intros H. revert n. induction H as [| a b l l' Hab _ IH]; intros n Hn.
  - destruct n; discriminate Hn.
  - destruct n as [| n]; cbn in *.
    + injection Hn as <-. eauto.
    + exact (IH n Hn).
Qed.

(** A reset that returns has drawn one random number per joint and put
    every joint at a position within [[-0.1, 0.1]] with velocity zero;
    names, torque coefficients and commanded torques are untouched. *)
Theorem walker_reset_randomizes_joints (cls : Class) (self self1 : Robot) :
  Np.well_formed (np_random self) ->
  WalkerBase.robot_specific_reset cls self = Ok self1 ->
  Np.consumed (np_random self1)
  = (Np.consumed (np_random self) + List.length (ordered_joints self))%nat
  /\ forall n j,
       nth_error (ordered_joints self) n = Some j ->
       exists j',
         nth_error (ordered_joints self1) n = Some j'
         /\ joint_name j' = joint_name j
         /\ power_coef j' = power_coef j
         /\ motor_torque j' = motor_torque j
         /\ - 0.1 <= fst (joint_state j') /\ fst (joint_state j') <= 0.1
         /\ snd (joint_state j') = 0.
Proof.
  intros Hrs H. unfold WalkerBase.robot_specific_reset in H.
  destruct (reset_joints_each (ordered_joints self) (np_random self) Hrs)
    as [_ [Hc Hall]].
  destruct (WalkerBase.reset_joints (ordered_joints self) (np_random self))
    as [joints rs].
  cbn [fst snd] in *. invert_binds. injection H as <-. fields.
  split; [exact Hc |].
  intros n j Hj.
  destruct (Forall2_nth_left _ _ _ n j Hall Hj) as [j' [Hj' [u [Hlo [Hhi ->]]]]].
  exists (reset_current_position u 0 j). split; [exact Hj' |].
  cbn. repeat split; assumption.
Qed.

Lemma walker_reset_randomizes_joints_witness :
  Np.consumed (np_random Example.hopper_reset) = 3%nat
  /\ exists j',
       nth_error (ordered_joints Example.hopper_reset) 0 = Some j'
       /\ - 0.1 <= fst (joint_state j') /\ fst (joint_state j') <= 0.1.
Proof.
  destruct (walker_reset_randomizes_joints Hopper Example.hopper
              Example.hopper_reset (example_rng_well_formed 0) eq_refl)
    as [Hc Hall].
  split; [exact Hc |].
  destruct (Hall 0%nat (Example.joint "thigh_joint" 0 0) eq_refl)
    as [j' [Hj' [_ [_ [_ [Hlo [Hhi _]]]]]]].
  exists j'. split; [exact Hj' |]. split; [exact Hlo | exact Hhi].
Defined.

(** *** [WalkerBase.apply_action]: the other outcomes *)

Lemma apply_action_loop_short (pw : Q) (a : list npfloat) :
  forall (joints : list Joint) (n : nat),
    (n <= List.length a)%nat ->
    (List.length a < n + List.length joints)%nat ->
    (forall x, In x a -> Np.isfinite x = true) ->
    WalkerBase.apply_action_loop pw a n joints = Raise IndexError.
Proof.
  induction joints as [| j joints IH]; intros n Hn Hlen Hfin.
  - cbn in Hlen. lia.
  - cbn [WalkerBase.apply_action_loop]. unfold index.
    destruct (nth_error a n) as [an |] eqn:E; [| reflexivity].
    assert (Hlt : (n < List.length a)%nat)
      by (apply nth_error_Some; congruence).
    cbn [bind]. rewrite IH; [reflexivity | lia | | exact Hfin].
    cbn [List.length] in Hlen. lia.
Qed.

(** A finite action vector with fewer entries than the robot has joints
    passes the assertion and then raises [IndexError]. *)
Theorem apply_action_index_error (cls : Class) (a : list npfloat)
  (self : Robot) :
  inherits_apply_action cls = true ->
  (forall x, In x a -> Np.isfinite x = true) ->
  (List.length a < List.length (ordered_joints self))%nat ->
  apply_action cls a self = Raise IndexError.
Proof.
  intros Hcls Hfin Hlen.
  assert (Hdispatch : apply_action cls = WalkerBase.apply_action)
    by (destruct cls; try discriminate; reflexivity).
  rewrite Hdispatch. unfold WalkerBase.apply_action.
  rewrite (proj2 (isfinite_all_true a) Hfin).
  rewrite apply_action_loop_short;
    [reflexivity | apply Nat.le_0_l | exact Hlen | exact Hfin].
Qed.

Lemma apply_action_index_error_witness :
  apply_action Ant [Fin 1] Example.hopper = Raise IndexError.
Proof.
  apply apply_action_index_error; [reflexivity | | cbn; lia].
  intros x [<- | []]. reflexivity.
Defined.

Lemma clipped_torque_bound (k q : Q) :
  Qabs (k * Np.clip q (- (1)) 1) <= Qabs k.
Proof.
  rewrite Qabs_Qmult.
  assert (Hc : Qabs (Np.clip q (- (1)) 1) <= 1).
  { apply Qabs_Qle_condition. apply clip_bounds. lra. }
  assert (Hk : 0 <= Qabs k) by apply Qabs_nonneg.
  setoid_replace (Qabs k) with (Qabs k * 1) at 2 by ring.
  rewrite !(Qmult_comm (Qabs k)). apply Qmult_le_compat_r; assumption.
Qed.

Lemma apply_action_loop_frame (pw : Q) (a : list npfloat) :
  (forall x, In x a -> Np.isfinite x = true) ->
  forall (joints joints' : list Joint) (n : nat),
    WalkerBase.apply_action_loop pw a n joints = Ok joints' ->
    Forall2
      (fun j j' =>
         joint_name j' = joint_name j
         /\ power_coef j' = power_coef j
         /\ joint_state j' = joint_state j
         /\ exists t, motor_torque j' = Some (Fin t)
                      /\ Qabs t <= Qabs (pw * power_coef j))
      joints joints'.
Proof.
  intros Hfin. induction joints as [| j joints IH]; intros joints' n H.
  - injection H as <-. constructor.
  - cbn [WalkerBase.apply_action_loop] in H.
    apply bind_ok in H. destruct H as [an [Han H]].
    apply bind_ok in H. destruct H as [joints'' [Hrest H]].
    injection H as <-.
    unfold index in Han. destruct (nth_error a n) as [x |] eqn:E;
      [| discriminate Han].
    injection Han as <-. pose proof (Hfin x (nth_error_In a n E)) as Hx.
    destruct x as [q | | |]; try discriminate Hx.
    constructor; [| exact (IH _ _ Hrest)].
    cbn. repeat split. eexists. split; [reflexivity |].
    apply clipped_torque_bound.
Qed.

(** When [apply_action] of a [WalkerBase] class returns, the only thing
    that changed is the torque commanded to each joint, and no torque
    exceeds [power * power_coef] of its joint in magnitude. *)
Theorem apply_action_torque_bounded (cls : Class) (a : list npfloat)
  (self self' : Robot) :
  inherits_apply_action cls = true ->
  apply_action cls a self = Ok self' ->
  self' = set_ordered_joints (ordered_joints self') self
  /\ Forall2
       (fun j j' =>
          joint_name j' = joint_name j
          /\ power_coef j' = power_coef j
          /\ joint_state j' = joint_state j
          /\ exists t, motor_torque j' = Some (Fin t)
                       /\ Qabs t <= Qabs (power self * power_coef j))
       (ordered_joints self) (ordered_joints self').
Proof.
  intros Hcls H.
  assert (Hdispatch : apply_action cls = WalkerBase.apply_action)
    by (destruct cls; try discriminate; reflexivity).
  rewrite Hdispatch in H. unfold WalkerBase.apply_action in H.
  destruct (Np.isfinite_all a) eqn:Efin; [| discriminate H].
  apply bind_ok in H. destruct H as [joints' [Hloop H]].
  injection H as <-. fields. split; [reflexivity |].
  apply (apply_action_loop_frame (power self) a
           (proj1 (isfinite_all_true a) Efin) _ _ 0%nat Hloop).
Qed.

Lemma apply_action_torque_bounded_witness :
  exists self',
    apply_action Hopper [Fin 2; Fin (- (1)); Fin 0.5] Example.hopper = Ok self'
    /\ Forall2
         (fun j j' =>
            joint_name j' = joint_name j
            /\ power_coef j' = power_coef j
            /\ joint_state j' = joint_state j
            /\ exists t, motor_torque j' = Some (Fin t)
                         /\ Qabs t <= Qabs (power Example.hopper * power_coef j))
         (ordered_joints Example.hopper) (ordered_joints self').
Proof.
  eexists. split; [reflexivity |].
  exact (proj2 (apply_action_torque_bounded Hopper
                  [Fin 2; Fin (- (1)); Fin 0.5] Example.hopper _
                  eq_refl eq_refl)).
Defined.

(** *** The joint store seen by name *)

Lemma jdict_get_cases (joints : list Joint) (n : string) :
  (exists j, jdict_get joints n = Ok j /\ joint_name j = n)
  \/ jdict_get joints n = Raise KeyError.
Proof.
  unfold jdict_get.
  destruct (find (fun j => String.eqb (joint_name j) n) joints) as [j |] eqn:E;
    [left | right; reflexivity].
  exists j. split; [reflexivity |].
  apply find_some in E. apply String.eqb_eq. exact (proj2 E).
Qed.

(** Assigning through [self.jdict[n]] changes the joint found under [n]
    and no other; it raises [KeyError] exactly when there is none. *)
Lemma jdict_update_get (g : Joint -> Joint) (joints : list Joint) (n : string) :
  (forall j, joint_name (g j) = joint_name j) ->
  (forall j,
     jdict_get joints n = Ok j ->
     exists joints',
       jdict_update g joints n = Ok joints'
       /\ List.length joints' = List.length joints
       /\ jdict_get joints' n = Ok (g j)
       /\ forall n', n' <> n -> jdict_get joints' n' = jdict_get joints n')
  /\ (jdict_get joints n = Raise KeyError ->
      jdict_update g joints n = Raise KeyError).
Proof.
  intros Hname. unfold jdict_get.
  induction joints as [| j0 joints [IHok IHbad]].
  - split; [intros j H; discriminate H | reflexivity].
  - cbn [jdict_update find].
    destruct (String.eqb (joint_name j0) n) eqn:E0.
    + split; [| intros H; discriminate H].
      intros j H. injection H as <-.
      eexists. split; [reflexivity |]. split; [reflexivity |].
      cbn [find]. rewrite Hname, E0. split; [reflexivity |].
      intros n' Hn'.
      apply String.eqb_eq in E0. rewrite E0.
      destruct (String.eqb n n') eqn:E1; [| reflexivity].
      apply String.eqb_eq in E1. congruence.
    + split.
      * intros j H. destruct (IHok j H) as [joints' [Hup [Hlen [Hget Hother]]]].
        rewrite Hup. cbn [bind]. eexists. split; [reflexivity |].
        split; [cbn; congruence |]. cbn [find]. rewrite E0.
        split; [exact Hget |].
        intros n' Hn'. destruct (String.eqb (joint_name j0) n'); [reflexivity |].
        exact (Hother n' Hn').
      * intros H. rewrite (IHbad H). reflexivity.
Qed.

Lemma jdict_get_Forall2 (R : Joint -> Joint -> Prop)
  (joints joints' : list Joint) (n : string) :
  Forall2 (fun j j' => joint_name j' = joint_name j /\ R j j') joints joints' ->
  (forall j, jdict_get joints n = Ok j ->
             exists j', jdict_get joints' n = Ok j' /\ R j j')
  /\ (jdict_get joints n = Raise KeyError ->
      jdict_get joints' n = Raise KeyError).
Proof.
  unfold jdict_get. induction 1 as [| j j' joints joints' [Hn HR] _ [IHok IHbad]].
  - split; [intros j H; discriminate H | reflexivity].
  - cbn [find]. rewrite Hn.
    destruct (String.eqb (joint_name j) n).
    + split; [| intros H; discriminate H].
      intros j0 H. injection H as <-. exists j'. auto.
    + split; assumption.
Qed.

(** *** Torque coefficients set at reset *)

Lemma set_power_coef_table_spec (table : list (string * Q)) :
  NoDup (map fst table) ->
  forall joints joints' : list Joint,
    set_power_coef_table table joints = Ok joints' ->
    List.length joints' = List.length joints
    /\ (forall n c, lookup table n = Some c ->
                    exists j, jdict_get joints n = Ok j
                              /\ jdict_get joints' n = Ok (set_power_coef c j))
    /\ (forall n, lookup table n = None ->
                  jdict_get joints' n = jdict_get joints n).
Proof.
  induction table as [| [n0 c0] table IH]; intros Hnd joints joints' H.
  - injection H as <-. split; [reflexivity |].
    split; [intros n c Hl; discriminate Hl | reflexivity].
  - cbn [set_power_coef_table] in H.
    apply bind_ok in H. destruct H as [joints1 [Hup H]].
    inversion Hnd as [| x l Hnotin Hnd']; subst.
    destruct (IH Hnd' _ _ H) as [Hlen [Hin Hout]].
    destruct (jdict_update_get (set_power_coef c0) joints n0 (fun j => eq_refl))
      as [Hok Hbad].
    destruct (jdict_get_cases joints n0) as [[j0 [Hj0 _]] | Hmiss];
      [| rewrite (Hbad Hmiss) in Hup; discriminate Hup].
    destruct (Hok j0 Hj0) as [joints1' [Hup' [Hlen1 [Hget1 Hother1]]]].
    rewrite Hup in Hup'. injection Hup' as <-.
    assert (Hnone : lookup table n0 = None).
    { clear - Hnotin. induction table as [| [k v] table IH]; [reflexivity |].
      cbn in *. destruct (String.eqb k n0) eqn:E.
      - apply String.eqb_eq in E. exfalso. apply Hnotin. left. exact E.
      - apply IH. intros Hin. apply Hnotin. right. exact Hin. }
    split; [congruence |]. split.
    + intros n c Hl. cbn [lookup] in Hl.
      destruct (String.eqb n0 n) eqn:E.
      * apply String.eqb_eq in E. subst n. injection Hl as <-.
        exists j0. split; [exact Hj0 |].
        rewrite (Hout n0 Hnone). exact Hget1.
      * destruct (Hin n c Hl) as [j [Hj Hj']].
        exists j. split; [| exact Hj'].
        rewrite <- Hj. symmetry. apply Hother1.
        intros ->. rewrite String.eqb_refl in E. discriminate E.
    + intros n Hl. cbn [lookup] in Hl.
      destruct (String.eqb n0 n) eqn:E; [discriminate Hl |].
      rewrite (Hout n Hl). apply Hother1.
      intros ->. rewrite String.eqb_refl in E. discriminate E.
Qed.

Lemma reset_joints_names (cls : Class) (self self1 : Robot) :
  WalkerBase.robot_specific_reset cls self = Ok self1 ->
  Forall2 (fun j j' => joint_name j' = joint_name j
                       /\ power_coef j' = power_coef j)
    (ordered_joints self) (ordered_joints self1).
Proof.
  intros H. unfold WalkerBase.robot_specific_reset in H.
  assert (Hall : forall joints rs,
             Forall2 (fun j j' => joint_name j' = joint_name j
                                  /\ power_coef j' = power_coef j)
               joints (fst (WalkerBase.reset_joints joints rs))).
  { induction joints as [| j joints IH]; intros rs; [constructor |].
    cbn [WalkerBase.reset_joints Np.uniform].
    specialize (IH {| Np.samples := Np.samples rs;
                      Np.consumed := S (Np.consumed rs) |}).
    destruct (WalkerBase.reset_joints joints _) as [joints' rs'].
    cbn [fst] in *. constructor; [split; reflexivity | exact IH]. }
  specialize (Hall (ordered_joints self) (np_random self)).
  destruct (WalkerBase.reset_joints (ordered_joints self) (np_random self))
    as [joints rs].
  invert_binds. injection H as <-. exact Hall.
Qed.

(** After the reset of a [Walker2D] or of a [HalfCheetah] the joints
    named in the class's table carry the coefficient listed there (30 for
    the two foot joints of the walker; 120, 90, 60, 140, 60, 30 for
    bthigh, bshin, bfoot, fthigh, fshin, ffoot of the cheetah), and every
    other joint keeps the coefficient it had. *)
Theorem reset_power_coef (cls : Class) (self self1 : Robot) :
  cls = Walker2D \/ cls = HalfCheetah ->
  robot_specific_reset cls self = Ok self1 ->
  forall n j1,
    jdict_get (ordered_joints self1) n = Ok j1 ->
    exists j,
      jdict_get (ordered_joints self) n = Ok j
      /\ power_coef j1 = match lookup (power_coef_table cls) n with
                         | Some c => c
                         | None => power_coef j
                         end.
Proof.
  intros Hcls H n j1 Hj1.
  assert (Hsplit : exists self0 joints',
             WalkerBase.robot_specific_reset cls self = Ok self0
             /\ set_power_coef_table (power_coef_table cls)
                  (ordered_joints self0) = Ok joints'
             /\ ordered_joints self1 = joints').
  { destruct Hcls as [-> | ->]; cbn [robot_specific_reset] in H.
    - unfold Walker2D.robot_specific_reset in H.
      apply bind_ok in H. destruct H as [self0 [H0 H]].
      apply bind_ok in H. destruct H as [joints' [Ht H]].
      injection H as <-. exists self0, joints'.
      split; [exact H0 |]. split; [| reflexivity].
      cbn [power_coef_table set_power_coef_table Walker2D.set_power_coefs] in *.
      exact Ht.
    - unfold HalfCheetah.robot_specific_reset in H.
      apply bind_ok in H. destruct H as [self0 [H0 H]].
      invert_binds. injection H as <-. exists self0. eexists.
      split; [exact H0 |]. split; [| reflexivity].
      cbn [power_coef_table set_power_coef_table bind].
      rewrite E. cbn [bind]. rewrite E0. cbn [bind]. rewrite E1. cbn [bind].
      rewrite E2. cbn [bind]. rewrite E3. cbn [bind]. rewrite E4. reflexivity. }
  destruct Hsplit as [self0 [joints' [H0 [Ht Hj]]]].
  rewrite Hj in Hj1.
  assert (Hnd : NoDup (map fst (power_coef_table cls))).
  { destruct Hcls as [-> | ->]; cbn;
      repeat (constructor; [cbn; intuition discriminate |]); constructor. }
  destruct (set_power_coef_table_spec _ Hnd _ _ Ht) as [_ [Hin Hout]].
  pose proof (reset_joints_names cls self self0 H0) as Hnames.
  pose proof (jdict_get_Forall2
                (fun j j' => power_coef j' = power_coef j)
                (ordered_joints self) (ordered_joints self0) n Hnames)
    as [Hfwd Hmiss].
  destruct (jdict_get_cases (ordered_joints self) n) as [[j [Hj0 _]] | Hnone].
  - exists j. split; [exact Hj0 |].
    destruct (Hfwd j Hj0) as [j0 [Hget0 Hc0]].
    destruct (lookup (power_coef_table cls) n) as [c |] eqn:El.
    + destruct (Hin n c El) as [j0' [Hget0' Hget1]].
      rewrite Hget1 in Hj1. injection Hj1 as <-. reflexivity.
    + rewrite (Hout n El), Hget0 in Hj1. injection Hj1 as <-. exact Hc0.
  - exfalso. specialize (Hmiss Hnone).
    destruct (lookup (power_coef_table cls) n) as [c |] eqn:El.
    + destruct (Hin n c El) as [j0' [Hget0' _]]. congruence.
    + rewrite (Hout n El) in Hj1. congruence.
Qed.

Lemma reset_power_coef_witness :
  exists j1 j,
    jdict_get (ordered_joints Example.walker2d_reset) "foot_joint" = Ok j1
    /\ jdict_get (ordered_joints Example.walker2d) "foot_joint" = Ok j
    /\ power_coef j = 1
    /\ power_coef j1 = 30.0.
Proof.
  destruct (jdict_get (ordered_joints Example.walker2d_reset) "foot_joint")
    as [j1 | e] eqn:E1; [| vm_compute in E1; discriminate E1].
  destruct (reset_power_coef Walker2D Example.walker2d Example.walker2d_reset
              (or_introl eq_refl) ltac:(vm_compute; reflexivity)
              "foot_joint"%string j1 E1) as [j [Hj Hc]].
  exists j1, j. split; [reflexivity |]. split; [exact Hj |].
  split; [| exact Hc].
  vm_compute in Hj. injection Hj as <-. reflexivity.
Defined.

(** *** [Humanoid]: motors and torques *)

Lemma humanoid_motors_after_reset (cls : Class) (self self1 : Robot) :
  Humanoid.robot_specific_reset cls self = Ok self1 ->
  motors self1
  = Bound {| motor_names := map fst humanoid_motor_table;
             motor_power := map snd humanoid_motor_table;
             motor_joints := map fst humanoid_motor_table |}
  /\ List.length humanoid_motor_table = 17%nat
  /\ (forall m, In m (map fst humanoid_motor_table) ->
                exists j, jdict_get (ordered_joints self1) m = Ok j)
  /\ power self1 = power self
  /\ initial_z self1 = Bound (Some 0.8).
Proof.
  unfold Humanoid.robot_specific_reset. intros H.
  apply bind_ok in H. destruct H as [self0 [H0 H]].
  apply bind_ok in H. destruct H as [ms [Hms H]].
  injection H as <-.
  destruct (comprehension_check _ _ _ Hms) as [-> Hall].
  fields. split; [reflexivity |]. split; [reflexivity |].
  split; [exact Hall |]. split; [| reflexivity].
  unfold WalkerBase.robot_specific_reset in H0.
  destruct (WalkerBase.reset_joints (ordered_joints self) (np_random self)).
  invert_binds. injection H0 as <-. reflexivity.
Qed.

(** When [Humanoid.robot_specific_reset] returns, [motors] are the
    seventeen joints of the table, each found in the joint store, with
    the powers of the table, and [initial_z] is 0.8. *)
Theorem humanoid_reset_motors (cls : Class) (self self1 : Robot) :
  Humanoid.robot_specific_reset cls self = Ok self1 ->
  motors self1
  = Bound {| motor_names := map fst humanoid_motor_table;
             motor_power := map snd humanoid_motor_table;
             motor_joints := map fst humanoid_motor_table |}
  /\ List.length humanoid_motor_table = 17%nat
  /\ (forall m, In m (map fst humanoid_motor_table) ->
                exists j, jdict_get (ordered_joints self1) m = Ok j)
  /\ power self1 = power self
  /\ initial_z self1 = Bound (Some 0.8).
Proof. exact (humanoid_motors_after_reset cls self self1). Qed.

Lemma humanoid_reset_motors_witness :
  motors Example.humanoid_reset
  = Bound {| motor_names := map fst humanoid_motor_table;
             motor_power := map snd humanoid_motor_table;
             motor_joints := map fst humanoid_motor_table |}
  /\ initial_z Example.humanoid_reset = Bound (Some 0.8).
Proof.
  destruct (humanoid_reset_motors Humanoid Example.humanoid
              Example.humanoid_reset ltac:(vm_compute; reflexivity))
    as [Hm [_ [_ [_ Hz]]]].
  split; [exact Hm | exact Hz].
Defined.

Lemma humanoid_loop_spec (fg pw : Q) (a : list npfloat) :
  forall (zipped : list (nat * (string * Q))) (joints : list Joint),
    NoDup (map (fun z => fst (snd z)) zipped) ->
    (forall i m p, In (i, (m, p)) zipped ->
                   exists q, nth_error a i = Some (Fin q)) ->
    (forall i m p, In (i, (m, p)) zipped ->
                   exists j, jdict_get joints m = Ok j) ->
    exists joints',
      Humanoid.apply_action_loop fg pw a zipped joints = Ok joints'
      /\ (forall i m p q,
            In (i, (m, p)) zipped -> nth_error a i = Some (Fin q) ->
            exists j,
              jdict_get joints m = Ok j
              /\ jdict_get joints' m
                 = Ok (set_motor_torque
                         (Np.mul (Np.mul (Np.mul (Fin fg) (Fin p)) (Fin pw))
                            (Fin q)) j))
      /\ (forall n, ~ In n (map (fun z => fst (snd z)) zipped) ->
                    jdict_get joints' n = jdict_get joints n).
Proof.
  induction zipped as [| [i0 [m0 p0]] zipped IH]; intros joints Hnd Ha Hj.
  - exists joints. split; [reflexivity |].
    split; [intros i m p q [] | reflexivity].
  - inversion Hnd as [| x l Hnotin Hnd']; subst.
    destruct (Ha i0 m0 p0 (or_introl eq_refl)) as [q0 Hq0].
    destruct (Hj i0 m0 p0 (or_introl eq_refl)) as [j0 Hj0].
    destruct (jdict_update_get
                (set_motor_torque
                   (Np.mul (Np.mul (Np.mul (Fin fg) (Fin p0)) (Fin pw)) (Fin q0)))
                joints m0 (fun j => eq_refl)) as [Hok _].
    destruct (Hok j0 Hj0) as [joints1 [Hup [_ [Hget1 Hother1]]]].
    destruct (IH joints1 Hnd') as [joints' [Hrun [Hin Hout]]].
    { intros i m p Hin. apply (Ha i m p). right. exact Hin. }
    { intros i m p Hin. destruct (Hj i m p (or_intror Hin)) as [j Hjm].
      destruct (string_dec m m0) as [-> | Hne].
      - eexists. exact Hget1.
      - exists j. rewrite (Hother1 m Hne). exact Hjm. }
    exists joints'. cbn [Humanoid.apply_action_loop]. unfold index.
    rewrite Hq0. cbn [bind]. rewrite Hup. cbn [bind].
    split; [exact Hrun |]. split.
    + intros i m p q [E | Hin'] Hq.
      * injection E as <- <- <-. rewrite Hq0 in Hq. injection Hq as <-.
        exists j0. split; [exact Hj0 |].
        rewrite (Hout m0 Hnotin). exact Hget1.
      * destruct (Hin i m p q Hin' Hq) as [j [Hjm Hjm']].
        assert (Hne : m <> m0).
        { intros ->. apply Hnotin.
          apply (in_map (fun z => fst (snd z)) _ _ Hin'). }
        exists j. split; [| exact Hjm'].
        rewrite <- Hjm. symmetry. exact (Hother1 m Hne).
    + intros n Hn. cbn [map fst snd] in Hn.
      rewrite Hout; [| intros Hin'; apply Hn; right; exact Hin'].
      apply Hother1. intros ->. apply Hn. left. reflexivity.
Qed.

Lemma humanoid_motor_power_bound (i : nat) (m : string) (p : Q) :
  nth_error humanoid_motor_table i = Some (m, p) -> Qabs p <= 2 ^ 300.
Proof.
  intros Hn.
  do 17 (destruct i as [| i];
         [cbn in Hn; injection Hn as _ <-; apply Qle_bool_iff; vm_compute;
          reflexivity |]).
  cbn in Hn. destruct i; discriminate Hn.
Qed.

(** [Humanoid.apply_action] on a robot that has been reset, with a
    finite action vector of at least seventeen entries: it returns, and
    motor [i] of the table is commanded the product of doubles
    [force_gain * motor_power[i] * power * a[i]], with [force_gain = 1]
    and the action not clipped.  While the power of the robot and the
    action are at most [2^300] in magnitude, that torque is finite and
    within a relative error of [2^-51] of the exact product (up to
    [2^-400]); when the exact product is [2^1025] or more in magnitude,
    the torque is an infinity. *)
Theorem humanoid_apply_action_unclamped (a : list npfloat) (self : Robot) :
  motors self
  = Bound {| motor_names := map fst humanoid_motor_table;
             motor_power := map snd humanoid_motor_table;
             motor_joints := map fst humanoid_motor_table |} ->
  (forall m, In m (map fst humanoid_motor_table) ->
             exists j, jdict_get (ordered_joints self) m = Ok j) ->
  (forall x, In x a -> Np.isfinite x = true) ->
  (17 <= List.length a)%nat ->
  exists self',
    Humanoid.apply_action a self = Ok self'
    /\ forall i m p q,
         nth_error humanoid_motor_table i = Some (m, p) ->
         nth_error a i = Some (Fin q) ->
         exists j torque,
           jdict_get (ordered_joints self) m = Ok j
           /\ jdict_get (ordered_joints self') m = Ok (set_motor_torque torque j)
           /\ torque
              = Np.mul (Np.mul (Np.mul (Fin 1) (Fin p)) (Fin (power self)))
                  (Fin q)
           /\ (Qabs (power self) <= 2 ^ 300 -> Qabs q <= 2 ^ 300 ->
               exists t,
                 torque = Fin t
                 /\ Qabs (t - 1 * p * power self * q)
                    <= 2 ^ (- 51) * Qabs (1 * p * power self * q) + 2 ^ (- 400))
           /\ (Qabs (power self) <= 2 ^ 300 -> Qabs q <= 2 ^ 1024 ->
               2 ^ 1025 <= Qabs (1 * p * power self * q) ->
               Np.isfinite torque = false).
Proof.
  intros Hm Hj Hfin Hlen. unfold Humanoid.apply_action.
  rewrite (proj2 (isfinite_all_true a) Hfin), Hm.
  cbn [getattr bind motor_joints motor_power].
  set (zipped := combine (seq 0 17)
                   (combine (map fst humanoid_motor_table)
                      (map snd humanoid_motor_table))).
  assert (Hz : forall i m p,
             In (i, (m, p)) zipped <->
             nth_error humanoid_motor_table i = Some (m, p)).
  { intros i m p. split.
    - intros Hin. cbn in Hin.
      repeat (destruct Hin as [E | Hin];
              [injection E as <- <- <-; reflexivity |]).
      destruct Hin.
    - intros Hn.
      do 17 (destruct i as [| i];
             [cbn in Hn; injection Hn as <- <-; cbn; tauto |]).
      cbn in Hn. destruct i; discriminate Hn. }
  destruct (humanoid_loop_spec 1 (power self) a zipped (ordered_joints self))
    as [joints' [Hrun [Hin _]]].
  - cbn. repeat (constructor; [cbn; intuition discriminate |]). constructor.
  - intros i m p Hin. apply Hz in Hin.
    apply finite_entry; [exact Hfin |].
    assert (Hi : (i < 17)%nat).
    { assert (Hs : nth_error humanoid_motor_table i <> None) by congruence.
      apply nth_error_Some in Hs. exact Hs. }
    lia.
  - intros i m p Hin. apply Hz in Hin. apply Hj.
    apply nth_error_In in Hin. apply (in_map fst _ _ Hin).
  - rewrite Hrun. cbn [bind]. eexists. split; [reflexivity |]. fields.
    intros i m p q Hn Hq.
    destruct (Hin i m p q (proj2 (Hz i m p) Hn) Hq) as [j [Hj0 Hj1]].
    pose proof (humanoid_motor_power_bound i m p Hn) as Hp.
    exists j. eexists. split; [exact Hj0 |]. split; [exact Hj1 |].
    split; [reflexivity |]. split.
    + intros Hw Hq'. exact (mul_chain_near p (power self) q Hp Hw Hq').
    + intros Hw Hq' Hbig. exact (mul_chain_overflow p (power self) q Hp Hw Hq' Hbig).
Qed.

Lemma humanoid_apply_action_unclamped_witness :
  exists self' j t,
    Humanoid.apply_action (Fin 2 :: repeat (Fin 0) 16) Example.humanoid_reset
    = Ok self'
    /\ jdict_get (ordered_joints self') "abdomen_z" = Ok j
    /\ motor_torque j = Some (Fin t)
    /\ Qabs (t - 1 * 100 * 0.41 * 2)
       <= 2 ^ (- 51) * Qabs (1 * 100 * 0.41 * 2) + 2 ^ (- 400).
Proof.
  destruct (humanoid_motors_after_reset Humanoid Example.humanoid
              Example.humanoid_reset ltac:(vm_compute; reflexivity))
    as [Hm [_ [Hj _]]].
  assert (Hfin : forall x, In x (Fin 2 :: repeat (Fin 0) 16) ->
                           Np.isfinite x = true).
  { intros x [<- | Hin]; [reflexivity |].
    apply repeat_spec in Hin. subst x. reflexivity. }
  destruct (humanoid_apply_action_unclamped (Fin 2 :: repeat (Fin 0) 16)
              Example.humanoid_reset Hm Hj Hfin (le_n 17))
    as [self' [Hrun Hall]].
  destruct (Hall 0%nat "abdomen_z"%string 100 2 eq_refl eq_refl)
    as [j [torque [_ [Hj' [_ [Hnear _]]]]]].
  destruct Hnear as [t [Ht Hbound]].
  { apply Qle_bool_iff. vm_compute. reflexivity. }
  { apply Qle_bool_iff. vm_compute. reflexivity. }
  exists self'. eexists. exists t. split; [exact Hrun |].
  split; [exact Hj' |]. split; [rewrite Ht; reflexivity | exact Hbound].
Defined.

(** The overflow at work: an action of 10^308 on the first motor, whose
    power is 100 on a robot of power 0.41, is commanded as an infinite
    torque. *)
Lemma humanoid_torque_overflow :
  exists self' j,
    Humanoid.apply_action (Fin (10 ^ 308) :: repeat (Fin 0) 16)
      Example.humanoid_reset = Ok self'
    /\ jdict_get (ordered_joints self') "abdomen_z" = Ok j
    /\ motor_torque j = Some PInf.
Proof.
  eexists. eexists. split; [vm_compute; reflexivity |].
  split; vm_compute; reflexivity.
Qed.

(** [Humanoid.apply_action] checks the action before anything else: a
    NaN or an infinity is an [AssertionError] even on a robot that was
    never reset; a finite action on such a robot is an
    [AttributeError], for want of [motors]. *)
Theorem humanoid_apply_action_errors (a : list npfloat) (self : Robot) :
  ((exists x, In x a /\ Np.isfinite x = false) ->
   Humanoid.apply_action a self = Raise AssertionError)
  /\ ((forall x, In x a -> Np.isfinite x = true) ->
      motors self = Unbound ->
      Humanoid.apply_action a self = Raise AttributeError).
Proof.
  unfold Humanoid.apply_action. split.
  - intros Hbad. rewrite (isfinite_all_false a Hbad). reflexivity.
  - intros Hfin Hm. rewrite (proj2 (isfinite_all_true a) Hfin), Hm. reflexivity.
Qed.

Lemma humanoid_apply_action_errors_witness :
  Humanoid.apply_action [NaN] Example.humanoid = Raise AssertionError
  /\ Humanoid.apply_action [Fin 1] Example.humanoid = Raise AttributeError.
Proof.
  destruct (humanoid_apply_action_errors [NaN] Example.humanoid) as [Hbad _].
  destruct (humanoid_apply_action_errors [Fin 1] Example.humanoid) as [_ Hun].
  split.
  - apply Hbad. exists NaN. split; [left; reflexivity | reflexivity].
  - apply Hun; [| reflexivity]. intros x [<- | []]. reflexivity.
Defined.

(** *** [calc_state] and [calc_potential] *)

Section ObservationAgain.
Context {math : Np.Math}.

Lemma walker_calc_state_unbound (self : Robot) :
  initial_z self = Unbound \/ feet_contact self = Unbound ->
  WalkerBase.calc_state self = Raise AttributeError.
Proof.
  intros Hun. unfold WalkerBase.calc_state.
  destruct (initial_z self) as [| iz] eqn:Ei; [reflexivity |].
  destruct Hun as [Hun | Hun]; [discriminate Hun |].
  cbn [getattr bind].
  destruct (pose_rpy (robot_body self)) as [[r p] yaw].
  destruct iz as [z0 |].
  - destruct (speed (robot_body self)) as [[sx sy] sz]. fields.
    rewrite Ei, Hun. reflexivity.
  - fields. destruct (speed (robot_body self)) as [[sx sy] sz]. fields.
    rewrite Hun. reflexivity.
Qed.

(** Before the first reset [calc_state] has nothing to read: a class
    that uses [WalkerBase.calc_state] raises [AttributeError] when
    [initial_z] or [feet_contact] was never assigned, and a flagrun class
    when [flag_timeout] was never assigned. *)
Theorem calc_state_needs_reset (cls : Class) (self : Robot) :
  (is_flagrun cls = false ->
   initial_z self = Unbound \/ feet_contact self = Unbound ->
   calc_state cls self = Raise AttributeError)
  /\ (is_flagrun cls = true ->
      flagrun self = Unbound ->
      calc_state cls self = Raise AttributeError).
Proof.
  split.
  - intros Hcls Hun.
    assert (Hrun : calc_state cls = WalkerBase.calc_state)
      by (destruct cls; try discriminate Hcls; reflexivity).
    rewrite Hrun. apply walker_calc_state_unbound. exact Hun.
  - intros Hcls Hun.
    assert (Hrun : calc_state cls self
                   = HumanoidFlagrun.calc_state (calc_potential cls) self)
      by (destruct cls; try discriminate Hcls; reflexivity).
    rewrite Hrun. unfold HumanoidFlagrun.calc_state. rewrite Hun. reflexivity.
Qed.

(** [WalkerBase.calc_state] followed by [WalkerBase.calc_potential]: the
    potential is minus the distance from the robot to its target, as
    [calc_state] measured it, over the time step.  Without a preceding
    [calc_state] the potential cannot be computed. *)
Theorem calc_potential_after_calc_state (self : Robot) :
  (forall s self',
     WalkerBase.calc_state self = Ok (s, self') ->
     WalkerBase.calc_potential self'
     = Ok (- current_dist self / dt (scene self)))
  /\ (observed self = Unbound ->
      WalkerBase.calc_potential self = Raise AttributeError).
Proof.
  split.
  - intros s self' H.
    destruct (initial_z self) as [| iz] eqn:Ei.
    { unfold WalkerBase.calc_state in H. rewrite Ei in H. discriminate H. }
    destruct (feet_contact self) as [| fc] eqn:Ef.
    { rewrite (walker_calc_state_unbound self (or_intror Ef)) in H.
      discriminate H. }
    destruct (walker_calc_state self iz fc Ei Ef)
      as [s1 [o [Hrun [_ [_ [Hd _]]]]]].
    rewrite Hrun in H. injection H as <- <-.
    unfold WalkerBase.calc_potential. fields. cbn [getattr bind].
    rewrite Hd. destruct (latch_frame iz self) as [_ [_ [_ [_ [_ [_ [Ls _]]]]]]].
    rewrite Ls. reflexivity.
  - intros Hun. unfold WalkerBase.calc_potential. rewrite Hun. reflexivity.
Qed.

(** A second [WalkerBase.calc_state] with no physics step in between
    returns the same observation and leaves the robot as the first call
    left it; in particular [initial_z] is latched once. *)
Theorem calc_state_twice (self : Robot) (iz : option Q) (fc : list Q) :
  initial_z self = Bound iz ->
  feet_contact self = Bound fc ->
  exists s self1,
    WalkerBase.calc_state self = Ok (s, self1)
    /\ WalkerBase.calc_state self1 = Ok (s, self1).
Proof.
  intros Hiz Hfc. unfold WalkerBase.calc_state at 1.
  rewrite Hiz. cbn [getattr bind].
  destruct (pose_rpy (robot_body self)) as [[r p] yaw] eqn:Erpy.
  destruct iz as [z0 |].
  - destruct (speed (robot_body self)) as [[sx sy] sz] eqn:Esp. fields.
    rewrite Hiz, Hfc. cbn [getattr bind].
    eexists. eexists. split; [reflexivity |].
    unfold WalkerBase.calc_state. fields. rewrite Hiz. cbn [getattr bind].
    fields. rewrite Erpy, Esp. fields. rewrite Hiz, Hfc. reflexivity.
  - fields. destruct (speed (robot_body self)) as [[sx sy] sz] eqn:Esp. fields.
    rewrite Hfc. cbn [getattr bind].
    eexists. eexists. split; [reflexivity |].
    unfold WalkerBase.calc_state. fields. cbn [getattr bind].
    fields. rewrite Erpy, Esp. fields. rewrite Hfc. reflexivity.
Qed.

End ObservationAgain.

Lemma calc_state_needs_reset_witness :
  @calc_state rational_math Hopper Example.hopper = Raise AttributeError
  /\ @calc_state rational_math HumanoidFlagrun Example.humanoid = Raise AttributeError.
Proof.
  split.
  - apply (proj1 (@calc_state_needs_reset rational_math Hopper Example.hopper));
      [reflexivity | left; reflexivity].
  - apply (proj2 (@calc_state_needs_reset rational_math HumanoidFlagrun Example.humanoid));
      reflexivity.
Defined.

Lemma calc_potential_after_calc_state_witness :
  exists s self',
    @WalkerBase.calc_state rational_math Example.hopper_reset = Ok (s, self')
    /\ WalkerBase.calc_potential self'
       = Ok (- @current_dist rational_math Example.hopper_reset
             / dt (scene Example.hopper_reset))
    /\ WalkerBase.calc_potential Example.hopper_reset = Raise AttributeError.
Proof.
  destruct (@walker_calc_state rational_math Example.hopper_reset None [0]
              eq_refl eq_refl) as [s [o [Hrun _]]].
  destruct (@calc_potential_after_calc_state rational_math
              Example.hopper_reset) as [Hok Hbad].
  eexists. eexists. split; [exact Hrun |].
  split; [exact (Hok _ _ Hrun) | exact (Hbad eq_refl)].
Defined.

Lemma calc_state_twice_witness :
  exists s self1,
    @WalkerBase.calc_state rational_math Example.hopper_reset = Ok (s, self1)
    /\ @WalkerBase.calc_state rational_math self1 = Ok (s, self1)
    /\ initial_z self1 = Bound (Some 1.25).
Proof.
  destruct (@calc_state_twice rational_math Example.hopper_reset None [0]
              eq_refl eq_refl) as [s [self1 [H1 H2]]].
  exists s, self1. split; [exact H1 |]. split; [exact H2 |].
  destruct (@walker_calc_state rational_math Example.hopper_reset None [0]
              eq_refl eq_refl) as [s' [o [H1' _]]].
  rewrite H1' in H1. injection H1 as _ <-. reflexivity.
Defined.

(** *** [HumanoidFlagrun]: the flag and its timer *)

Section FlagTimer.
Context {math : Np.Math}.

(** While the target is at least 1 away and the timer, once decremented,
    is still positive, [calc_state] of a flagrun class leaves the target,
    the flag, the potential and the random source alone and takes exactly
    one tick off the timer. *)
Theorem flagrun_calc_state_keeps_flag (cls : Class) (self : Robot)
  (iz : option Q) (fc : list Q) (f : Flagrun) :
  is_flagrun cls = true ->
  initial_z self = Bound iz ->
  feet_contact self = Bound fc ->
  flagrun self = Bound f ->
  (cls = HumanoidFlagrunHarder -> exists h, harder self = Bound h) ->
  1 <= current_dist self ->
  (0 < flag_timeout f - 1)%Z ->
  exists s self',
    calc_state cls self = Ok (s, self')
    /\ walk_target_x self' = walk_target_x self
    /\ walk_target_y self' = walk_target_y self
    /\ flagrun self'
       = Bound {| flag := flag f; flag_timeout := flag_timeout f - 1 |}
    /\ potential self' = potential self
    /\ np_random self' = np_random self
    /\ harder self' = harder self.
Proof.
  intros Hcls Hiz Hfc Hf Hh Hd Ht.
  destruct (flagrun_calc_state cls self iz fc f Hcls Hiz Hfc Hf Hh)
    as [s [self' [o1 [Hrun [_ [_ [_ [_ [Hstay _]]]]]]]]].
  assert (Et : ltb (current_dist self) 1 || (flag_timeout f - 1 <=? 0)%Z = false).
  { apply orb_false_iff. split; [apply ltb_ge; exact Hd |].
    apply Z.leb_gt. exact Ht. }
  pose proof (Hstay Et) as E. exists s, self'. split; [exact Hrun |].
  rewrite E. fields. destruct iz; repeat split; reflexivity.
Qed.

(** After a [calc_state] of a flagrun class the timer reads 200 if the
    flag was moved, and one less than before otherwise.  A timer that is
    at most 200 therefore stays between 1 and 200: the flag is moved at
    the latest on the 200th call after the last move. *)
Theorem flag_timeout_bounds (cls : Class) (self : Robot)
  (iz : option Q) (fc : list Q) (f : Flagrun) :
  is_flagrun cls = true ->
  initial_z self = Bound iz ->
  feet_contact self = Bound fc ->
  flagrun self = Bound f ->
  (cls = HumanoidFlagrunHarder -> exists h, harder self = Bound h) ->
  exists s self' f',
    calc_state cls self = Ok (s, self')
    /\ flagrun self' = Bound f'
    /\ (flag_timeout f' = 200%Z
        \/ (flag_timeout f' = (flag_timeout f - 1)%Z
            /\ 1 <= current_dist self))
    /\ ((flag_timeout f <= 200)%Z ->
        (1 <= flag_timeout f' <= 200)%Z).
Proof.
  intros Hcls Hiz Hfc Hf Hh.
  destruct (flagrun_calc_state cls self iz fc f Hcls Hiz Hfc Hf Hh)
    as [s [self' [o1 [Hrun [_ [_ [_ [_ [Hstay Hmove]]]]]]]]].
  destruct (ltb (current_dist self) 1 || (flag_timeout f - 1 <=? 0)%Z) eqn:Et.
  - destruct (Hmove eq_refl) as [o2 [p [_ [_ [_ [_ [_ [Hf2 _]]]]]]]].
    exists s, self'. eexists. split; [exact Hrun |].
    split; [rewrite Hf2; reflexivity |].
    cbn [flag_timeout]. split; [left; reflexivity | intros _; lia].
  - apply orb_false_iff in Et. destruct Et as [Ed Ez].
    apply ltb_ge in Ed. apply Z.leb_gt in Ez.
    exists s, self'. eexists. split; [exact Hrun |].
    rewrite (Hstay eq_refl). fields.
    split; [destruct iz; reflexivity |]. cbn [flag_timeout].
    split; [right; split; [reflexivity | exact Ed] | intros Hle; lia].
Qed.

End FlagTimer.

Lemma walker_reset_collaborators (cls : Class) (self self1 : Robot) :
  WalkerBase.robot_specific_reset cls self = Ok self1 ->
  Np.samples (np_random self1) = Np.samples (np_random self)
  /\ stadium_halflen (scene self1) = stadium_halflen (scene self)
  /\ stadium_halfwidth (scene self1) = stadium_halfwidth (scene self)
  /\ dt (scene self1) = dt (scene self).
Proof.
  intros H. unfold WalkerBase.robot_specific_reset in H.
  assert (Hs : forall joints rs,
             Np.samples (snd (WalkerBase.reset_joints joints rs))
             = Np.samples rs).
  { induction joints as [| j joints IH]; intros rs; [reflexivity |].
    cbn [WalkerBase.reset_joints Np.uniform].
    specialize (IH {| Np.samples := Np.samples rs;
                      Np.consumed := S (Np.consumed rs) |}).
    destruct (WalkerBase.reset_joints joints _) as [joints' rs'].
    exact IH. }
  specialize (Hs (ordered_joints self) (np_random self)).
  destruct (WalkerBase.reset_joints (ordered_joints self) (np_random self))
    as [joints rs].
  invert_binds. injection H as <-. fields. cbn [snd] in Hs.
  repeat split. exact Hs.
Qed.

(** A reset of a flagrun humanoid that returns has put the target within
    half the stadium's half extents, a sphere at the target at height
    0.2, and 200 ticks on the timer. *)
Theorem flagrun_reset_target (cls : Class) (self self1 : Robot) :
  Np.well_formed (np_random self) ->
  0 <= stadium_halflen (scene self) ->
  0 <= stadium_halfwidth (scene self) ->
  HumanoidFlagrun.robot_specific_reset cls self = Ok self1 ->
  - (0.5 * stadium_halflen (scene self)) <= walk_target_x self1
  /\ walk_target_x self1 <= 0.5 * stadium_halflen (scene self)
  /\ - (0.5 * stadium_halfwidth (scene self)) <= walk_target_y self1
  /\ walk_target_y self1 <= 0.5 * stadium_halfwidth (scene self)
  /\ flagrun self1
     = Bound {| flag := Some (get_sphere (walk_target_x self1)
                                (walk_target_y self1) 0.2);
                flag_timeout := 200 |}.
Proof.
  intros Hrs Hlen Hwid H. unfold HumanoidFlagrun.robot_specific_reset in H.
  apply bind_ok in H. destruct H as [self0 [H0 H]]. injection H as <-.
  unfold Humanoid.robot_specific_reset in H0.
  apply bind_ok in H0. destruct H0 as [selfw [Hw H0]].
  apply bind_ok in H0. destruct H0 as [ms [_ H0]]. injection H0 as <-.
  destruct (walker_reset_collaborators cls self selfw Hw) as [Hs [Hl [Hwd _]]].
  match goal with
  | |- context [HumanoidFlagrun.flag_reposition ?r] => set (self0 := r)
  end.
  destruct (flag_reposition_target self0) as [[Hxl Hxh] [[Hyl Hyh] Hflag]].
  - intros n. unfold self0. fields. rewrite Hs. apply Hrs.
  - unfold self0. fields. rewrite Hl. exact Hlen.
  - unfold self0. fields. rewrite Hwd. exact Hwid.
  - assert (Hl0 : stadium_halflen (scene self0) = stadium_halflen (scene self))
      by exact Hl.
    assert (Hw0 : stadium_halfwidth (scene self0)
                  = stadium_halfwidth (scene self)) by exact Hwd.
    rewrite Hl0 in Hxl, Hxh. rewrite Hw0 in Hyl, Hyh.
    repeat split; assumption.
Qed.

Lemma flagrun_calc_state_keeps_flag_witness :
  exists s self',
    @calc_state rational_math HumanoidFlagrun Example.flagrunner = Ok (s, self')
    /\ walk_target_x self' = 3
    /\ flagrun self'
       = Bound {| flag := Some (get_sphere 3 0 0.2); flag_timeout := 99 |}.
Proof.
  destruct (@flagrun_calc_state_keeps_flag rational_math HumanoidFlagrun
              Example.flagrunner (Some 0.8) [0; 0]
              {| flag := Some (get_sphere 3 0 0.2); flag_timeout := 100 |}
              eq_refl eq_refl eq_refl eq_refl
              (fun E => match E with end)
              ltac:(vm_compute; discriminate) ltac:(reflexivity))
    as [s [self' [Hrun [Hx [_ [Hf _]]]]]].
  exists s, self'. split; [exact Hrun |]. split; [exact Hx | exact Hf].
Defined.

Lemma flag_timeout_bounds_witness :
  exists s self' f',
    @calc_state rational_math HumanoidFlagrun Example.flagrunner_late
    = Ok (s, self')
    /\ flagrun self' = Bound f'
    /\ (1 <= flag_timeout f' <= 200)%Z.
Proof.
  destruct (@flag_timeout_bounds rational_math HumanoidFlagrun
              Example.flagrunner_late (Some 0.8) [0; 0]
              {| flag := None; flag_timeout := 1 |}
              eq_refl eq_refl eq_refl eq_refl (fun E => match E with end))
    as [s [self' [f' [Hrun [Hf [_ Hb]]]]]].
  exists s, self', f'. split; [exact Hrun |]. split; [exact Hf |].
  apply Hb. cbn. lia.
Defined.

Lemma flagrun_reset_target_witness :
  - (0.5 * 52.5) <= walk_target_x Example.flagrunner_reset
  /\ walk_target_x Example.flagrunner_reset <= 0.5 * 52.5.
Proof.
  destruct (flagrun_reset_target HumanoidFlagrun Example.flagrunner_loaded
              Example.flagrunner_reset (example_rng_well_formed 0)
              ltac:(cbn; unfold Qle; cbn; lia)
              ltac:(cbn; unfold Qle; cbn; lia)
              ltac:(vm_compute; reflexivity))
    as [Hxl [Hxh _]].
  split; [exact Hxl | exact Hxh].
Defined.

(** *** [HumanoidFlagrunHarder]: the cube, the ground counter, the
    potential *)

Section HarderTicks.
Context {math : Np.Math}.

(** The throw of the cube: five random numbers are drawn, the cube is
    put one unit above the height at which the robot is expected, and
    nothing else of the robot changes. *)
Lemma attack_spec (h : Harder) (self : Robot) (o : Observed) :
  observed self = Bound o ->
  exists cube rs,
    HumanoidFlagrunHarder.attack h self
    = Ok (set_harder
            (Bound (HumanoidFlagrunHarder.set_aggressive_cube cube h))
            (set_np_random rs self))
    /\ Np.samples rs = Np.samples (np_random self)
    /\ Np.consumed rs = (Np.consumed (np_random self) + 5)%nat
    /\ snd (prop_position cube)
       = snd (body_xyz o)
         + snd (speed (robot_body self))
           * (4.0 / (20.0 + (30.0 - 20.0)
                            * Np.samples (np_random self)
                                (S (Np.consumed (np_random self)))))
         + 1.0.
Proof.
  intros Ho. unfold HumanoidFlagrunHarder.attack. rewrite Ho.
  cbn [getattr bind].
  destruct (body_xyz o) as [[tx ty] tz].
  destruct (speed (robot_body self)) as [[sx sy] sz].
  cbn. eexists. eexists. split; [reflexivity |]. cbn.
  split; [reflexivity |]. split; [lia | reflexivity].
Qed.

(** One call of [alive_bonus], with everything it leaves behind. *)
Lemma harder_alive_bonus_step (z pitch : Q) (self : Robot) (fr : Z)
  (h : Harder) (o : Observed) :
  frame self = Bound fr ->
  harder self = Bound h ->
  observed self = Bound o ->
  let c := on_ground_frame_counter h in
  let c' := if ltb z 0.8 then (c + 1)%Z
            else if (c >? 0)%Z then (c - 1)%Z else c in
  exists self' h',
    HumanoidFlagrunHarder.alive_bonus z pitch self
    = Ok (if (c' <? 170)%Z
          then Np.clip (snd (body_xyz o)) 0 0.8 / 0.8 + 1.0
          else - (1), self')
    /\ harder self' = Bound h'
    /\ on_ground_frame_counter h' = c'
    /\ crawl_start_potential h' = crawl_start_potential h
    /\ crawl_ignored_potential h' = crawl_ignored_potential h
    /\ Np.samples (np_random self') = Np.samples (np_random self)
    /\ (attack_scheduled fr h = false ->
        np_random self' = np_random self
        /\ aggressive_cube h' = aggressive_cube h)
    /\ (attack_scheduled fr h = true ->
        Np.consumed (np_random self')
        = (Np.consumed (np_random self) + 5)%nat
        /\ snd (prop_position (aggressive_cube h'))
           = snd (body_xyz o)
             + snd (speed (robot_body self))
               * (4.0 / (20.0 + (30.0 - 20.0)
                                * Np.samples (np_random self)
                                    (S (Np.consumed (np_random self)))))
             + 1.0).
Proof.
  intros Hfr Hh Ho c c'.
  unfold HumanoidFlagrunHarder.alive_bonus.
  rewrite Hfr. cbn [getattr bind].
  assert (Hmid : exists self1 h1,
             (if (fr mod 30 =? 0)%Z && (fr >? 100)%Z
              then
                h0 <- getattr (harder self) ;;
                (if (on_ground_frame_counter h0 =? 0)%Z
                 then HumanoidFlagrunHarder.attack h0 self
                 else Ok self)
              else Ok self) = Ok self1
             /\ harder self1 = Bound h1
             /\ on_ground_frame_counter h1 = c
             /\ crawl_start_potential h1 = crawl_start_potential h
             /\ crawl_ignored_potential h1 = crawl_ignored_potential h
             /\ observed self1 = Bound o
             /\ Np.samples (np_random self1) = Np.samples (np_random self)
             /\ (attack_scheduled fr h = false ->
                 np_random self1 = np_random self
                 /\ aggressive_cube h1 = aggressive_cube h)
             /\ (attack_scheduled fr h = true ->
                 Np.consumed (np_random self1)
                 = (Np.consumed (np_random self) + 5)%nat
                 /\ snd (prop_position (aggressive_cube h1))
                    = snd (body_xyz o)
                      + snd (speed (robot_body self))
                        * (4.0 / (20.0 + (30.0 - 20.0)
                                         * Np.samples (np_random self)
                                             (S (Np.consumed (np_random self)))))
                      + 1.0)).
  { unfold attack_scheduled.
    destruct ((fr mod 30 =? 0)%Z && (fr >? 100)%Z).
    - rewrite Hh. cbn [getattr bind andb].
      destruct (on_ground_frame_counter h =? 0)%Z.
      + destruct (attack_spec h self o Ho) as [cube [rs [Hatt [Hs [Hc Hz]]]]].
        rewrite Hatt. eexists. eexists. split; [reflexivity |]. fields.
        split; [reflexivity |]. cbn.
        split; [reflexivity |]. split; [reflexivity |].
        split; [reflexivity |]. split; [exact Ho |]. split; [exact Hs |].
        split; [intros Habs; discriminate Habs |].
        intros _. split; [exact Hc | exact Hz].
      + exists self, h.
        split; [reflexivity |]. split; [exact Hh |]. split; [reflexivity |].
        split; [reflexivity |]. split; [reflexivity |]. split; [exact Ho |].
        split; [reflexivity |].
        split; [intros _; split; reflexivity | intros Habs; discriminate Habs].
    - exists self, h. cbn [andb].
      split; [reflexivity |]. split; [exact Hh |]. split; [reflexivity |].
      split; [reflexivity |]. split; [reflexivity |]. split; [exact Ho |].
      split; [reflexivity |].
      split; [intros _; split; reflexivity | intros Habs; discriminate Habs]. }
  destruct Hmid as [self1 [h1 [Hrun [Hh1 [Hc1 [Hs1 [Hi1 [Ho1 Hrest]]]]]]]].
  rewrite Hrun. cbn [bind]. rewrite Hh1. cbn [getattr bind].
  rewrite Hc1. fold c.
  assert (Hc' : on_ground_frame_counter
                  (if ltb z 0.8
                   then HumanoidFlagrunHarder.set_on_ground_frame_counter
                          (c + 1) h1
                   else if (c >? 0)%Z
                        then HumanoidFlagrunHarder.set_on_ground_frame_counter
                               (c - 1) h1
                        else h1) = c').
  { subst c'. destruct (ltb z 0.8); [reflexivity |].
    destruct (c >? 0)%Z; [reflexivity | exact Hc1]. }
  rewrite Hc'.
  match goal with
  | |- context [set_harder (Bound ?hh) self1] => set (h2 := hh) in *
  end.
  assert (Hh2 : crawl_start_potential h2 = crawl_start_potential h
                /\ crawl_ignored_potential h2 = crawl_ignored_potential h
                /\ aggressive_cube h2 = aggressive_cube h1).
  { subst h2. destruct (ltb z 0.8); [cbn; auto |].
    destruct (c >? 0)%Z; cbn; auto. }
  destruct Hh2 as [Hs2 [Hi2 Hcube2]].
  destruct Hrest as [Hsm [Hno Hyes]].
  assert (Hleak : HumanoidFlagrunHarder.potential_leak
                    (set_harder (Bound h2) self1)
                  = Ok (Np.clip (snd (body_xyz o)) 0 0.8 / 0.8 + 1.0))
    by (apply potential_leak_value; exact Ho1).
  exists (set_harder (Bound h2) self1), h2.
  split.
  { destruct (c' <? 170)%Z; [rewrite Hleak |]; reflexivity. }
  split; [reflexivity |]. split; [exact Hc' |].
  split; [exact Hs2 |]. split; [exact Hi2 |]. fields.
  split; [exact Hsm |]. rewrite Hcube2. split; assumption.
Qed.

(** [alive_bonus] throws the cube only at a frame that is a multiple of
    30 beyond 100 while the ground counter is 0.  A throw draws five
    random numbers and puts the cube one unit above the height at which
    the robot is expected; without a throw the cube and the random
    source are as before. *)
Theorem attack_only_when_scheduled (z pitch : Q) (self : Robot) (fr : Z)
  (h : Harder) (o : Observed) :
  frame self = Bound fr ->
  harder self = Bound h ->
  observed self = Bound o ->
  exists v self' h',
    alive_bonus HumanoidFlagrunHarder z pitch self = Ok (v, self')
    /\ harder self' = Bound h'
    /\ (attack_scheduled fr h = false ->
        np_random self' = np_random self
        /\ aggressive_cube h' = aggressive_cube h)
    /\ (attack_scheduled fr h = true ->
        Np.consumed (np_random self')
        = (Np.consumed (np_random self) + 5)%nat
        /\ snd (prop_position (aggressive_cube h'))
           = snd (body_xyz o)
             + snd (speed (robot_body self))
               * (4.0 / (20.0 + (30.0 - 20.0)
                                * Np.samples (np_random self)
                                    (S (Np.consumed (np_random self)))))
             + 1.0).
Proof.
  intros Hfr Hh Ho.
  destruct (harder_alive_bonus_step z pitch self fr h o Hfr Hh Ho)
    as [self' [h' [Hrun [Hh' [_ [_ [_ [_ [Hno Hyes]]]]]]]]].
  eexists. exists self', h'. split; [exact Hrun |].
  split; [exact Hh' |]. split; assumption.
Qed.

(** The timeout on the ground.  Over consecutive ticks that all pass a
    height below 0.8, starting with the counter at [c >= 0], the counter
    goes up by one per tick; tick number [k] (from 0) returns -1 exactly
    when [c + k + 1 >= 170], and a leak between 1 and 2 before that.
    From a standing start the 170th tick on the ground is the first to
    return -1. *)
Theorem ground_timeout (ticks : list (Z * Observed * Q)) :
  forall (self : Robot) (h : Harder),
    harder self = Bound h ->
    (0 <= on_ground_frame_counter h)%Z ->
    Forall (fun t => snd t < 0.8) ticks ->
    exists vs self' h',
      alive_bonus_trace ticks self = Ok (vs, self')
      /\ harder self' = Bound h'
      /\ on_ground_frame_counter h'
         = (on_ground_frame_counter h + Z.of_nat (List.length ticks))%Z
      /\ List.length vs = List.length ticks
      /\ forall k v,
           nth_error vs k = Some v ->
           ((on_ground_frame_counter h + Z.of_nat k + 1 < 170)%Z ->
            1 <= v <= 2)
           /\ ((170 <= on_ground_frame_counter h + Z.of_nat k + 1)%Z ->
               v = - (1)).
Proof.
  induction ticks as [| [[fr o] z] ticks IH]; intros self h Hh Hc Hall.
  - exists [], self, h. cbn. split; [reflexivity |]. split; [exact Hh |].
    split; [lia |]. split; [reflexivity |]. intros [| k] v Hk; discriminate Hk.
  - inversion Hall as [| t ts Hz Hall']; subst. cbn [snd] in Hz.
    destruct (harder_alive_bonus_step z 0 (next_tick fr o self) fr h o
                eq_refl Hh eq_refl)
      as [self1 [h1 [Hrun [Hh1 [Hc1 _]]]]].
    rewrite (proj2 (ltb_lt _ _) Hz) in Hrun, Hc1.
    destruct (IH self1 h1 Hh1 ltac:(lia) Hall')
      as [vs [self2 [h2 [Hrun2 [Hh2 [Hc2 [Hlen Hvs]]]]]]].
    cbn [alive_bonus_trace]. rewrite Hrun. cbn [bind]. rewrite Hrun2.
    cbn [bind]. eexists. exists self2, h2. split; [reflexivity |].
    split; [exact Hh2 |]. split; [rewrite Hc2, Hc1; cbn [List.length]; lia |].
    split; [cbn; congruence |].
    intros [| k] v Hk.
    + cbn in Hk. injection Hk as <-. rewrite Z.add_0_r. split.
      * intros Hlt. rewrite (proj2 (Z.ltb_lt _ _) Hlt).
        pose proof (clip_bounds (snd (body_xyz o)) 0 0.8 ltac:(lra)) as [Hlo Hhi].
        split.
        -- assert (H0 : 0 <= Np.clip (snd (body_xyz o)) 0 0.8 / 0.8).
           { apply Qle_shift_div_l; lra. }
           lra.
        -- assert (H1 : Np.clip (snd (body_xyz o)) 0 0.8 / 0.8 <= 1).
           { apply Qle_shift_div_r; lra. }
           lra.
      * intros Hge. rewrite (proj2 (Z.ltb_ge _ _) Hge). reflexivity.
    + cbn in Hk. destruct (Hvs k v Hk) as [Hlow Hhigh].
      rewrite Hc1 in Hlow, Hhigh. split; intros Hb.
      * apply Hlow. lia.
      * apply Hhigh. lia.
Qed.

End HarderTicks.

(** What staying up is worth: with the robot at 0.8 or above the
    potential is the raw progress, less the progress ignored while
    crawling, plus 200; with the robot at height 0 or below the leak adds
    100 to the frozen progress. *)
Theorem harder_potential_levels (self : Robot) (h : Harder) (o : Observed) :
  harder self = Bound h ->
  exists p self',
    calc_potential HumanoidFlagrunHarder (observe o self) = Ok (p, self')
    /\ (0.8 <= snd (body_xyz o) ->
        p == raw_progress self o - crawl_ignored_potential h + 200)
    /\ (snd (body_xyz o) <= 0 ->
        p == match crawl_start_potential h with
             | Some c => c
             | None => raw_progress self o - crawl_ignored_potential h
             end + 100).
Proof.
  intros Hh. cbn [calc_potential]. unfold HumanoidFlagrunHarder.calc_potential.
  destruct (Qlt_le_dec (snd (body_xyz o)) 0.8) as [Hdown | Hup].
  - destruct (progress_down self h o Hh Hdown)
      as [self' [h' [Hrun [Hh' [Hsc [Hstart Hign]]]]]].
    rewrite Hrun. cbn [bind].
    assert (Ho' : observed self' = Bound o).
    { revert Hrun. unfold HumanoidFlagrunHarder.flag_running_progress,
        WalkerBase.calc_potential.
      cbn [observe observed set_observed getattr bind harder].
      rewrite Hh. cbn [getattr bind].
      rewrite (proj2 (ltb_lt _ _) Hdown).
      destruct (crawl_start_potential h) as [c0 |] eqn:Es.
      - rewrite Es. intros E. injection E as <-. reflexivity.
      - cbn. intros E. injection E as <-. reflexivity. }
    rewrite (potential_leak_value self' o Ho'). cbn [bind].
    eexists. eexists. split; [reflexivity |].
    split; [intros Habs; lra |].
    intros Hz.
    destruct (clip_cases (snd (body_xyz o)) 0 0.8 ltac:(lra))
      as [[Hc E] | [[Hc E] | [Hc E]]]; rewrite E; try lra.
    + field.
    + assert (E0 : snd (body_xyz o) == 0) by lra. rewrite E0. field.
  - destruct (progress_up self h o Hh (Qle_not_lt _ _ Hup))
      as [self' [h' [Hrun [Hh' [Ho' _]]]]].
    rewrite Hrun. cbn [bind].
    rewrite (potential_leak_value self' o Ho'). cbn [bind].
    eexists. eexists. split; [reflexivity |].
    split; [| intros Habs; lra].
    intros _.
    destruct (clip_cases (snd (body_xyz o)) 0 0.8 ltac:(lra))
      as [[Hc E] | [[Hc E] | [Hc E]]]; rewrite E; try lra.
    + assert (E0 : snd (body_xyz o) == 0.8) by lra. rewrite E0. field.
    + field.
Qed.

Lemma attack_only_when_scheduled_witness :
  exists v self' h',
    @alive_bonus rational_math HumanoidFlagrunHarder 1 0
      (next_tick 120 (Example.observation 1 3) Example.harder_runner)
    = Ok (v, self')
    /\ harder self' = Bound h'
    /\ Np.consumed (np_random self')
       = (Np.consumed
            (np_random
               (next_tick 120 (Example.observation 1 3) Example.harder_runner))
          + 5)%nat.
Proof.
  destruct (@attack_only_when_scheduled rational_math 1 0
              (next_tick 120 (Example.observation 1 3) Example.harder_runner)
              120
              {| aggressive_cube := get_cube (- 1.5) 0 0.05;
                 on_ground_frame_counter := 0;
                 crawl_start_potential := None;
                 crawl_ignored_potential := 0.0 |}
              (Example.observation 1 3) eq_refl eq_refl eq_refl)
    as [v [self' [h' [Hrun [Hh [_ Hyes]]]]]].
  exists v, self', h'. split; [exact Hrun |]. split; [exact Hh |].
  exact (proj1 (Hyes eq_refl)).
Defined.

Lemma ground_timeout_witness :
  exists vs self' h',
    @alive_bonus_trace rational_math
      [(1%Z, Example.observation 0.5 3, 0.5);
       (2%Z, Example.observation 0.4 3, 0.4)] Example.harder_runner
    = Ok (vs, self')
    /\ harder self' = Bound h'
    /\ on_ground_frame_counter h' = 2%Z.
Proof.
  destruct (@ground_timeout rational_math
              [(1%Z, Example.observation 0.5 3, 0.5);
               (2%Z, Example.observation 0.4 3, 0.4)]
              Example.harder_runner
              {| aggressive_cube := get_cube (- 1.5) 0 0.05;
                 on_ground_frame_counter := 0;
                 crawl_start_potential := None;
                 crawl_ignored_potential := 0.0 |}
              eq_refl (Z.le_refl 0))
    as [vs [self' [h' [Hrun [Hh [Hc _]]]]]].
  { repeat constructor; unfold Qlt; cbn; lia. }
  exists vs, self', h'. split; [exact Hrun |]. split; [exact Hh | exact Hc].
Defined.

Lemma harder_potential_levels_witness :
  exists p self',
    calc_potential HumanoidFlagrunHarder
      (observe (Example.observation 0.9 3) Example.harder_runner)
    = Ok (p, self')
    /\ p == - (3) / 0.0165 - 0.0 + 200.
Proof.
  destruct (harder_potential_levels Example.harder_runner
              {| aggressive_cube := get_cube (- 1.5) 0 0.05;
                 on_ground_frame_counter := 0;
                 crawl_start_potential := None;
                 crawl_ignored_potential := 0.0 |}
              (Example.observation 0.9 3) eq_refl)
    as [p [self' [Hrun [Hup _]]]].
  exists p, self'. split; [exact Hrun |].
  apply Hup. cbn. unfold Qle. cbn. lia.
Defined.

(** *** [Atlas] *)

Section AtlasFacts.
Context {math : Np.Math}.

(** The reset of an [Atlas] that returns draws random numbers for the
    joints only ([random_yaw] is off), stands the pelvis one unit above
    the start position facing along the x axis, records the head and sets
    [initial_z] to 1.5; so the first observation of a robot whose start
    position is the origin has -0.5 as its height entry. *)
Theorem atlas_reset_pose (self self1 : Robot) :
  robot_specific_reset Atlas self = Ok self1 ->
  pose_xyz (robot_body self1)
  = (fst (fst (start_pos self)), snd (fst (start_pos self)),
     snd (start_pos self) + 1.0)
  /\ pose_rpy (robot_body self1) = (0, 0, 0)
  /\ head self1 = Bound "head"%string
  /\ (exists head_part, lookup (parts self1) "head" = Some head_part)
  /\ initial_z self1 = Bound (Some 1.5)
  /\ (snd (start_pos self) == 0 ->
      exists s self2 d,
        calc_state Atlas self1 = Ok (s, self2)
        /\ nth_error s 0 = Some d
        /\ d == - 0.5).
Proof.
  intros H. cbn [robot_specific_reset] in H.
  destruct (atlas_reset Atlas self self1 H) as [Hi [Hf [Hhead [Hpart [Hxyz Hrpy]]]]].
  split; [exact Hxyz |]. split; [exact Hrpy |]. split; [exact Hhead |].
  split; [exact Hpart |]. split; [exact Hi |].
  intros Hz.
  destruct (reset_ready Atlas self self1 H) as [Hready _].
  destruct (calc_state_shape Atlas self1 (Some 1.5) Hready Hi)
    as [s [self2 [Hrun [_ [_ [Hn _]]]]]].
  exists s, self2. eexists. split; [exact Hrun |]. split; [exact Hn |].
  unfold current_height. rewrite Hxyz. cbn [snd].
  destruct (clip_cases (snd (start_pos self) + 1.0 - 1.5) (- (5)) 5
              ltac:(lra)) as [[Hc E] | [[Hc E] | [Hc E]]]; rewrite E; lra.
Qed.

(** [Atlas.alive_bonus] needs the head recorded by the reset and the two
    knee joints: without the head it raises [AttributeError], without a
    knee [KeyError].  When it returns, the value is -1, 2, 3 or 4. *)
Theorem atlas_alive_bonus_outcomes (z pitch : Q) (self : Robot) :
  (head self = Unbound ->
   Atlas.alive_bonus z pitch self = Raise AttributeError)
  /\ (forall head_name head_part,
        head self = Bound head_name ->
        lookup (parts self) head_name = Some head_part ->
        jdict_get (ordered_joints self) "l_leg_kny" = Raise KeyError
        \/ jdict_get (ordered_joints self) "r_leg_kny" = Raise KeyError ->
        Atlas.alive_bonus z pitch self = Raise KeyError)
  /\ (forall v,
        Atlas.alive_bonus z pitch self = Ok v ->
        v = - (1) \/ v == 2 \/ v == 3 \/ v == 4).
Proof.
  unfold Atlas.alive_bonus, getitem. split; [| split].
  - intros Hun. rewrite Hun. reflexivity.
  - intros head_name head_part Hhead Hpart Hmiss.
    rewrite Hhead. cbn [getattr bind]. rewrite Hpart. cbn [bind].
    destruct (pose_xyz head_part) as [[hx hy] hz].
    destruct Hmiss as [Hl | Hr].
    + rewrite Hl. reflexivity.
    + rewrite Hr.
      destruct (jdict_get (ordered_joints self) "l_leg_kny") as [l | e] eqn:El;
        [reflexivity |].
      cbn [bind].
      destruct (jdict_get_cases (ordered_joints self) "l_leg_kny")
        as [[j [Hj _]] | Hk]; congruence.
  - intros v H.
    apply bind_ok in H. destruct H as [hn [_ H]].
    apply bind_ok in H. destruct H as [hp [_ H]].
    revert H. destruct (pose_xyz hp) as [[hx hy] hz]. intros H.
    apply bind_ok in H. destruct H as [l [_ H]].
    apply bind_ok in H. destruct H as [r [_ H]].
    cbv zeta in H. rewrite knees_counted in H. injection H as <-.
    unfold knees_pinned.
    destruct (gtb hz 1.3); [| left; reflexivity]. right.
    destruct (gtb (Qabs (fst (current_relative_position l))) knee_limit);
      destruct (gtb (Qabs (fst (current_relative_position r))) knee_limit);
      cbn; [left | right; left | right; left | right; right]; reflexivity.
Qed.

End AtlasFacts.

Lemma atlas_reset_pose_witness :
  pose_xyz (robot_body Example.atlas_reset) = (0, 0, 0 + 1.0)
  /\ exists s self2 d,
       @calc_state rational_math Atlas Example.atlas_reset = Ok (s, self2)
       /\ nth_error s 0 = Some d
       /\ d == - 0.5.
Proof.
  destruct (@atlas_reset_pose rational_math Example.atlas
              Example.atlas_reset ltac:(vm_compute; reflexivity))
    as [Hxyz [_ [_ [_ [_ Hfirst]]]]].
  split; [exact Hxyz |]. apply Hfirst. reflexivity.
Defined.

Lemma atlas_alive_bonus_outcomes_witness :
  Atlas.alive_bonus 2 0 Example.hopper = Raise AttributeError
  /\ Atlas.alive_bonus 2 0 (set_ordered_joints [] Example.atlas)
     = Raise KeyError
  /\ exists v, Atlas.alive_bonus 2 0 Example.atlas = Ok v /\ v = - (1).
Proof.
  destruct (atlas_alive_bonus_outcomes 2 0 Example.hopper) as [Hun _].
  destruct (atlas_alive_bonus_outcomes 2 0 (set_ordered_joints [] Example.atlas))
    as [_ [Hkey _]].
  destruct (atlas_alive_bonus_outcomes 2 0 Example.atlas) as [_ [_ Hval]].
  split; [exact (Hun eq_refl) |].
  split; [exact (Hkey "head"%string (Example.part 0 0 1) eq_refl eq_refl
                   (or_introl eq_refl)) |].
  exists (- (1)). split; [reflexivity |].
  destruct (Hval (- (1)) eq_refl) as [E | [E | [E | E]]];
    [exact E | discriminate E | discriminate E | discriminate E].
Defined.

(** *** Alive bonus of the classes with a fixed threshold *)



(** *** [HalfCheetah.alive_bonus]: what it reads *)

(** The pitch is tested first: with [|pitch| >= 1] the result is -1 even
    on a robot that was never reset.  With [|pitch| < 1] the contacts are
    read, which raises [AttributeError] before the first reset and
    [IndexError] when [feet_contact] has fewer than two entries. *)
Theorem cheetah_bonus_reads_pitch_first (z pitch : Q) (self : Robot) :
  (1.0 <= Qabs pitch -> HalfCheetah.alive_bonus z pitch self = Ok (- (1)))
  /\ (Qabs pitch < 1.0 ->
      feet_contact self = Unbound ->
      HalfCheetah.alive_bonus z pitch self = Raise AttributeError)
  /\ (forall fc,
        Qabs pitch < 1.0 ->
        feet_contact self = Bound fc ->
        (List.length fc < 2)%nat ->
        HalfCheetah.alive_bonus z pitch self = Raise IndexError).
Proof.
  unfold HalfCheetah.alive_bonus. split; [| split].
  - intros H. rewrite (proj2 (ltb_ge _ _) H). reflexivity.
  - intros H Hun. rewrite (proj2 (ltb_lt _ _) H), Hun. reflexivity.
  - intros fc H Hfc Hlen. rewrite (proj2 (ltb_lt _ _) H), Hfc.
    cbn [getattr bind]. unfold index.
    destruct fc as [| c0 [| c1 fc]]; [reflexivity | reflexivity |].
    cbn in Hlen. lia.
Qed.

Lemma cheetah_bonus_reads_pitch_first_witness :
  HalfCheetah.alive_bonus 1 2 Example.hopper = Ok (- (1))
  /\ HalfCheetah.alive_bonus 1 0 Example.hopper = Raise AttributeError
  /\ HalfCheetah.alive_bonus 1 0 Example.hopper_reset = Raise IndexError.
Proof.
  destruct (cheetah_bonus_reads_pitch_first 1 2 Example.hopper) as [H1 _].
  destruct (cheetah_bonus_reads_pitch_first 1 0 Example.hopper) as [_ [H2 _]].
  destruct (cheetah_bonus_reads_pitch_first 1 0 Example.hopper_reset)
    as [_ [_ H3]].
  split; [apply H1; cbn; unfold Qle; cbn; lia |].
  split; [apply H2; [reflexivity | reflexivity] |].
  apply (H3 [0]); [reflexivity | reflexivity | cbn; lia].
Defined.

(** *** Construction *)

(** Every class but [HumanoidFlagrunHarder] constructs.  The instance
    aims at a target a kilometre down the x axis, is not yet reset, and
    its declared dimensions fit its observation: [obs_dim] is 8 plus two
    per action plus one per foot. *)
Theorem constructor_dimensions (cls : Class) :
  cls <> HumanoidFlagrunHarder ->
  exists self,
    construct cls = Ok self
    /\ walk_target_x self = 1000 /\ walk_target_y self = 0
    /\ start_pos self = (0, 0, 0)
    /\ initial_z self = Unbound /\ feet_contact self = Unbound
    /\ obs_dim self = listed_obs_dim cls
    /\ obs_dim self
       = (8 + 2 * action_dim self + List.length (foot_list cls))%nat.
Proof.
  intros Hcls. destruct cls; try contradiction;
    (eexists; split; [reflexivity |]; cbn; repeat split).
Qed.

Lemma constructor_dimensions_witness :
  exists self,
    construct Ant = Ok self /\ obs_dim self = 28%nat /\ action_dim self = 8%nat.
Proof.
  destruct (constructor_dimensions Ant ltac:(discriminate))
    as [self [Hrun [_ [_ [_ [_ [_ [Hobs Hfit]]]]]]]].
  exists self. split; [exact Hrun |]. split; [exact Hobs |].
  cbn in Hobs, Hfit. rewrite Hobs in Hfit. lia.
Defined.

(** *** [HumanoidFlagrunHarder]: invariants over an episode *)

(** A reset of a [HumanoidFlagrunHarder] that returns leaves the cube
    parked at (-1.5, 0, 0.05), the ground counter at 0, no crawl in
    progress and no progress ignored, 200 ticks on the flag timer and
    [initial_z] at 0.8. *)
Theorem harder_reset_state (self self1 : Robot) :
  robot_specific_reset HumanoidFlagrunHarder self = Ok self1 ->
  harder self1
  = Bound {| aggressive_cube := get_cube (- 1.5) 0 0.05;
             on_ground_frame_counter := 0;
             crawl_start_potential := None;
             crawl_ignored_potential := 0.0 |}
  /\ (exists f, flagrun self1 = Bound f /\ flag_timeout f = 200%Z)
  /\ initial_z self1 = Bound (Some 0.8)
  /\ feet_contact self1 = Bound [0; 0].
Proof.
  intros H. cbn [robot_specific_reset] in H.
  destruct (harder_reset HumanoidFlagrunHarder self self1 H)
    as [Hi [Hf [_ [Hg Hh]]]].
  split; [exact Hh |]. split; [exact Hg |]. split; [exact Hi | exact Hf].
Qed.

Lemma harder_reset_state_witness :
  harder Example.harder_reset
  = Bound {| aggressive_cube := get_cube (- 1.5) 0 0.05;
             on_ground_frame_counter := 0;
             crawl_start_potential := None;
             crawl_ignored_potential := 0.0 |}
  /\ initial_z Example.harder_reset = Bound (Some 0.8).
Proof.
  destruct (harder_reset_state Example.flagrunner_loaded Example.harder_reset
              ltac:(vm_compute; reflexivity)) as [Hh [_ [Hi _]]].
  split; [exact Hh | exact Hi].
Defined.

Section HarderEpisode.
Context {math : Np.Math}.

(** Over any sequence of ticks, whatever heights are passed, a ground
    counter that starts at [c >= 0] never becomes negative and never
    exceeds [c] plus the number of ticks; every alive bonus returned is
    -1 or lies between 1 and 2; the crawl attributes are not touched. *)
Theorem ground_counter_invariant (ticks : list (Z * Observed * Q)) :
  forall (self : Robot) (h : Harder),
    harder self = Bound h ->
    (0 <= on_ground_frame_counter h)%Z ->
    exists vs self' h',
      alive_bonus_trace ticks self = Ok (vs, self')
      /\ harder self' = Bound h'
      /\ (0 <= on_ground_frame_counter h'
          <= on_ground_frame_counter h + Z.of_nat (List.length ticks))%Z
      /\ crawl_start_potential h' = crawl_start_potential h
      /\ crawl_ignored_potential h' = crawl_ignored_potential h
      /\ Forall (fun v => v = - (1) \/ 1 <= v <= 2) vs.
Proof.
  induction ticks as [| [[fr o] z] ticks IH]; intros self h Hh Hc.
  - exists [], self, h. cbn. split; [reflexivity |]. split; [exact Hh |].
    split; [lia |]. split; [reflexivity |]. split; [reflexivity | constructor].
  - destruct (harder_alive_bonus_step z 0 (next_tick fr o self) fr h o
                eq_refl Hh eq_refl)
      as [self1 [h1 [Hrun [Hh1 [Hc1 [Hs1 [Hi1 _]]]]]]].
    assert (Hc1' : (0 <= on_ground_frame_counter h1
                    <= on_ground_frame_counter h + 1)%Z).
    { rewrite Hc1. destruct (ltb z 0.8); [lia |].
      destruct (on_ground_frame_counter h >? 0)%Z eqn:E; [| lia].
      apply Z.gtb_lt in E. lia. }
    destruct (IH self1 h1 Hh1 (proj1 Hc1'))
      as [vs [self2 [h2 [Hrun2 [Hh2 [Hc2 [Hs2 [Hi2 Hvs]]]]]]]].
    cbn [alive_bonus_trace]. rewrite Hrun. cbn [bind]. rewrite Hrun2.
    cbn [bind]. eexists. exists self2, h2. split; [reflexivity |].
    split; [exact Hh2 |]. split; [cbn [List.length]; lia |].
    split; [congruence |]. split; [congruence |].
    constructor; [| exact Hvs].
    match goal with
    | |- context [if ?b then _ else _] => destruct b
    end; [right | left; reflexivity].
    pose proof (clip_bounds (snd (body_xyz o)) 0 0.8 ltac:(lra)) as [Hlo Hhi].
    assert (H0 : 0 <= Np.clip (snd (body_xyz o)) 0 0.8 / 0.8)
      by (apply Qle_shift_div_l; lra).
    assert (H1 : Np.clip (snd (body_xyz o)) 0 0.8 / 0.8 <= 1)
      by (apply Qle_shift_div_r; lra).
    lra.
Qed.

End HarderEpisode.

Lemma ground_counter_invariant_witness :
  exists vs self' h',
    @alive_bonus_trace rational_math
      [(1%Z, Example.observation 0.5 3, 0.5);
       (2%Z, Example.observation 0.9 3, 0.9);
       (3%Z, Example.observation 0.9 3, 0.9)] Example.harder_runner
    = Ok (vs, self')
    /\ harder self' = Bound h'
    /\ (0 <= on_ground_frame_counter h' <= 0 + 3)%Z.
Proof.
  destruct (@ground_counter_invariant rational_math
              [(1%Z, Example.observation 0.5 3, 0.5);
               (2%Z, Example.observation 0.9 3, 0.9);
               (3%Z, Example.observation 0.9 3, 0.9)]
              Example.harder_runner
              {| aggressive_cube := get_cube (- 1.5) 0 0.05;
                 on_ground_frame_counter := 0;
                 crawl_start_potential := None;
                 crawl_ignored_potential := 0.0 |}
              eq_refl (Z.le_refl 0))
    as [vs [self' [h' [Hrun [Hh [Hc _]]]]]].
  exists vs, self', h'. split; [exact Hrun |]. split; [exact Hh | exact Hc].
Defined.
